(** * A shallow embedding of [malloc.c]

    The allocator keeps every block it ever obtained from [sbrk] on one
    singly linked chain rooted at [FreeList].  The embedding keeps the C
    program's global variables in a record, the block headers in a finite map
    from header addresses to header contents, and runs the C functions in a
    small state-and-failure monad whose failures are the three ways a call may
    not return: a failed [assert], undefined behaviour, and a loop that never
    ends.  The target is LP64: [size_t] and pointers are 64 bits wide, [int]
    is 32 bits wide. *)

From stdpp Require Import gmap list fin_maps relations.
From Stdlib Require Import ZArith Lia.

Open Scope Z_scope.

(** ** Machine integers *)

Definition SIZE_MOD : Z := 2 ^ 64.
Definition INT_MAX : Z := 2 ^ 31 - 1.
Definition INT_MIN : Z := - 2 ^ 31.

(** Conversion to [size_t] (unsigned, 64 bits): reduction modulo [2^64]. *)
Definition to_size_t (z : Z) : Z := z mod SIZE_MOD.

(** Conversion to [intptr_t] (signed, 64 bits), the type of [sbrk]'s
    argument. *)
Definition to_intptr (z : Z) : Z := (z + 2 ^ 63) mod SIZE_MOD - 2 ^ 63.

(** Conversion to [int] (signed, 32 bits); the compiler reduces modulo
    [2^32]. *)
Definition to_int (z : Z) : Z := (z + 2 ^ 31) mod 2 ^ 32 - 2 ^ 31.

(** [x++] on an [int]: signed overflow is undefined behaviour. *)
Definition int_succ (x : Z) : option Z :=
  if x <? INT_MAX then Some (x + 1) else None.

(** [abs] of <stdlib.h>: undefined on [INT_MIN]. *)
Definition c_abs (x : Z) : option Z :=
  if x =? INT_MIN then None else Some (Z.abs x).

(** [#define ALIGN4(s) (((((s)-1) >> 2) << 2) + 4)] on a [size_t]. *)
Definition ALIGN4 (s : Z) : Z :=
  to_size_t (to_size_t (Z.shiftl (Z.shiftr (to_size_t (s - 1)) 2) 2) + 4).

(** ** Pointers and block headers *)

(** A pointer to [struct block] is null, the address of a header in the data
    segment, the address of the automatic variable [temp] of [malloc], or
    the all-ones value [-1] that [sbrk] returns on failure. *)
Inductive ptr : Type :=
| NULL
| Arena (a : Z)
| StackTemp
| MinusOne.

(** [p == q] on pointers. *)
Definition ptr_eqb (p q : ptr) : bool :=
  match p, q with
  | NULL, NULL | StackTemp, StackTemp | MinusOne, MinusOne => true
  | Arena a, Arena b => a =? b
  | _, _ => false
  end.

Module Block.
Record block : Type := mk {
  size : Z;        (* Size of the allocated block of memory in bytes *)
  next : ptr;      (* Pointer to the next block of allocated memory  *)
  free : bool;     (* Is this block free?                            *)
  dirty : bool     (* Has this block been used before?               *)
}.
Definition set_size (v : Z) (b : block) := mk v (next b) (free b) (dirty b).
Definition set_next (v : ptr) (b : block) := mk (size b) v (free b) (dirty b).
Definition set_free (v : bool) (b : block) := mk (size b) (next b) v (dirty b).
Definition set_dirty (v : bool) (b : block) := mk (size b) (next b) (free b) v.
(** Memory as the operating system hands it out: all zero. *)
Definition zero : block := mk 0 NULL false false.
End Block.
Abbreviation block := Block.block.

(** [sizeof(struct block)]: 8 + 8 + 1 + 1 bytes, padded to 24. *)
Definition HDR : Z := 24.

(** [#define BLOCK_DATA(b) ((b) + 1)] *)
Definition BLOCK_DATA (b : ptr) : ptr :=
  match b with Arena a => Arena (a + HDR) | _ => b end.

(** [BLOCK_HEADER(ptr)]: [ptr] cast to a block pointer, minus one header. *)
Definition BLOCK_HEADER (p : ptr) : ptr :=
  match p with Arena a => Arena (a - HDR) | _ => p end.

(** ** The global state *)

(** The ten [static int] variables, the two chain pointers, the headers
    stored in the data segment, and the operating system's side of [sbrk]:
    the current break, the start of the data segment and the highest break
    the system is willing to grant. *)
Record state : Type := mkState {
  atexit_registered : Z;
  num_mallocs : Z;
  num_frees : Z;
  num_reuses : Z;
  num_grows : Z;
  num_splits : Z;
  num_coalesces : Z;
  num_blocks : Z;
  num_requested : Z;
  max_heap : Z;
  FreeList : ptr;
  Final : ptr;
  mem : gmap Z block;
  brk : Z;
  brk_min : Z;
  brk_max : Z
}.

Definition set_atexit_registered (v : Z) (s : state) : state :=
  mkState v (num_mallocs s) (num_frees s) (num_reuses s) (num_grows s)
    (num_splits s) (num_coalesces s) (num_blocks s) (num_requested s)
    (max_heap s) (FreeList s) (Final s) (mem s) (brk s) (brk_min s)
    (brk_max s).

Definition set_num_mallocs (v : Z) (s : state) : state :=
  mkState (atexit_registered s) v (num_frees s) (num_reuses s) (num_grows s)
    (num_splits s) (num_coalesces s) (num_blocks s) (num_requested s)
    (max_heap s) (FreeList s) (Final s) (mem s) (brk s) (brk_min s)
    (brk_max s).

Definition set_num_frees (v : Z) (s : state) : state :=
  mkState (atexit_registered s) (num_mallocs s) v (num_reuses s)
    (num_grows s) (num_splits s) (num_coalesces s) (num_blocks s)
    (num_requested s) (max_heap s) (FreeList s) (Final s) (mem s) (brk s)
    (brk_min s) (brk_max s).

Definition set_num_reuses (v : Z) (s : state) : state :=
  mkState (atexit_registered s) (num_mallocs s) (num_frees s) v (num_grows s)
    (num_splits s) (num_coalesces s) (num_blocks s) (num_requested s)
    (max_heap s) (FreeList s) (Final s) (mem s) (brk s) (brk_min s)
    (brk_max s).

Definition set_num_grows (v : Z) (s : state) : state :=
  mkState (atexit_registered s) (num_mallocs s) (num_frees s) (num_reuses s)
    v (num_splits s) (num_coalesces s) (num_blocks s) (num_requested s)
    (max_heap s) (FreeList s) (Final s) (mem s) (brk s) (brk_min s)
    (brk_max s).

Definition set_num_splits (v : Z) (s : state) : state :=
  mkState (atexit_registered s) (num_mallocs s) (num_frees s) (num_reuses s)
    (num_grows s) v (num_coalesces s) (num_blocks s) (num_requested s)
    (max_heap s) (FreeList s) (Final s) (mem s) (brk s) (brk_min s)
    (brk_max s).

Definition set_num_coalesces (v : Z) (s : state) : state :=
  mkState (atexit_registered s) (num_mallocs s) (num_frees s) (num_reuses s)
    (num_grows s) (num_splits s) v (num_blocks s) (num_requested s)
    (max_heap s) (FreeList s) (Final s) (mem s) (brk s) (brk_min s)
    (brk_max s).

Definition set_num_blocks (v : Z) (s : state) : state :=
  mkState (atexit_registered s) (num_mallocs s) (num_frees s) (num_reuses s)
    (num_grows s) (num_splits s) (num_coalesces s) v (num_requested s)
    (max_heap s) (FreeList s) (Final s) (mem s) (brk s) (brk_min s)
    (brk_max s).

Definition set_num_requested (v : Z) (s : state) : state :=
  mkState (atexit_registered s) (num_mallocs s) (num_frees s) (num_reuses s)
    (num_grows s) (num_splits s) (num_coalesces s) (num_blocks s) v
    (max_heap s) (FreeList s) (Final s) (mem s) (brk s) (brk_min s)
    (brk_max s).

Definition set_max_heap (v : Z) (s : state) : state :=
  mkState (atexit_registered s) (num_mallocs s) (num_frees s) (num_reuses s)
    (num_grows s) (num_splits s) (num_coalesces s) (num_blocks s)
    (num_requested s) v (FreeList s) (Final s) (mem s) (brk s) (brk_min s)
    (brk_max s).

Definition set_FreeList (v : ptr) (s : state) : state :=
  mkState (atexit_registered s) (num_mallocs s) (num_frees s) (num_reuses s)
    (num_grows s) (num_splits s) (num_coalesces s) (num_blocks s)
    (num_requested s) (max_heap s) v (Final s) (mem s) (brk s) (brk_min s)
    (brk_max s).

Definition set_Final (v : ptr) (s : state) : state :=
  mkState (atexit_registered s) (num_mallocs s) (num_frees s) (num_reuses s)
    (num_grows s) (num_splits s) (num_coalesces s) (num_blocks s)
    (num_requested s) (max_heap s) (FreeList s) v (mem s) (brk s) (brk_min s)
    (brk_max s).

Definition set_mem (v : gmap Z block) (s : state) : state :=
  mkState (atexit_registered s) (num_mallocs s) (num_frees s) (num_reuses s)
    (num_grows s) (num_splits s) (num_coalesces s) (num_blocks s)
    (num_requested s) (max_heap s) (FreeList s) (Final s) v (brk s)
    (brk_min s) (brk_max s).

Definition set_brk (v : Z) (s : state) : state :=
  mkState (atexit_registered s) (num_mallocs s) (num_frees s) (num_reuses s)
    (num_grows s) (num_splits s) (num_coalesces s) (num_blocks s)
    (num_requested s) (max_heap s) (FreeList s) (Final s) (mem s) v
    (brk_min s) (brk_max s).

(** ** Outcomes of a call *)

Inductive result (A : Type) : Type :=
| Ok (a : A) (s : state)   (* the call returns [a] and leaves state [s] *)
| Abort                    (* an [assert] failed: the process is killed *)
| Undef                    (* undefined behaviour                      *)
| Diverge.                 (* the call never returns                   *)
Arguments Ok {A} a s.
Arguments Abort {A}.
Arguments Undef {A}.
Arguments Diverge {A}.

Definition M (A : Type) : Type := state -> result A.

Definition ret {A} (a : A) : M A := fun s => Ok a s.

Definition bind {A B} (m : M A) (k : A -> M B) : M B :=
  fun s => match m s with
           | Ok a s' => k a s'
           | Abort => Abort
           | Undef => Undef
           | Diverge => Diverge
           end.

Notation "'let*' x ':=' m 'in' k" := (bind m (fun x => k))
  (at level 10, x name, m at level 100, k at level 200).
Notation "'let*' ( x , y ) ':=' m 'in' k" := (bind m (fun '(x, y) => k))
  (at level 10, x name, y name, m at level 100, k at level 200).
Notation "m ';;' k" := (bind m (fun _ => k))
  (at level 100, k at level 200, right associativity).

Definition gets {A} (f : state -> A) : M A := fun s => Ok (f s) s.
Definition modify (f : state -> state) : M unit := fun s => Ok tt (f s).
Definition abort {A} : M A := fun _ => Abort.
Definition undef {A} : M A := fun _ => Undef.
Definition diverge {A} : M A := fun _ => Diverge.

(** [assert(c)] with assertions compiled in. *)
Definition assert (c : bool) : M unit := if c then ret tt else abort.

(** [if (c) body] without an else branch. *)
Definition when (c : bool) (body : M unit) : M unit :=
  if c then body else ret tt.

(** [x++] on one of the [int] globals. *)
Definition incr (get : state -> Z) (set : Z -> state -> state) : M unit :=
  fun s => match int_succ (get s) with
           | Some v => Ok tt (set v s)
           | None => Undef
           end.

(** Reading a header through a pointer.  Only an address at which a header
    has been written can be read; everything else (null, the dead frame of
    an earlier call, [-1], an address that holds no header) is undefined. *)
Definition load (p : ptr) : M block :=
  fun s => match p with
           | Arena a => match mem s !! a with
                        | Some b => Ok b s
                        | None => Undef
                        end
           | _ => Undef
           end.

(** Writing one field of an existing header: [p->field = ...]. *)
Definition update (p : ptr) (f : block -> block) : M unit :=
  let* b := load p in
  match p with
  | Arena a => modify (fun s => set_mem (<[a := f b]> (mem s)) s)
  | _ => undef
  end.

(** Writing one field of the header at the old break, right after [sbrk]
    moved the break: the bytes must lie inside the data segment, and they
    are zero unless a header is already found there. *)
Definition update_fresh (p : ptr) (f : block -> block) : M unit :=
  fun s => match p with
           | Arena a =>
               match mem s !! a with
               | Some b => Ok tt (set_mem (<[a := f b]> (mem s)) s)
               | None =>
                   if (brk_min s <=? a) && (a + HDR <=? brk s)
                   then Ok tt (set_mem (<[a := f Block.zero]> (mem s)) s)
                   else Undef
               end
           | _ => Undef
           end.

(** Every loop below walks the chain; a walk that does not come back to a
    header it has already seen reads at most [size (mem s)] headers, so this
    much fuel is enough for every loop that terminates. *)
Definition fuel_of (s : state) : nat := S (size (mem s)).

(** ** The operating system *)

(** [sbrk(0)] reports the break.  Any other increment moves the break when
    the new break stays between the start of the data segment and the
    system's limit, and returns the old break; otherwise the break stays and
    the call returns [-1]. *)
Definition sbrk (increment : Z) : M ptr :=
  fun s =>
    if increment =? 0 then Ok (Arena (brk s)) s
    else
      let new := brk s + increment in
      if (brk_min s <=? new) && (new <=? brk_max s)
      then Ok (Arena (brk s)) (set_brk new s)
      else Ok MinusOne s.

(** ** findFreeBlock *)

(** The build defines exactly one of the macros [FIT], [BEST], [WORST] and
    [NEXT] as 0; it selects the loop that [findFreeBlock] compiles to. *)
Inductive policy : Type := FIT | BEST | WORST | NEXT.

(** [while (curr && !(curr->free && curr->size >= size))] *)
Fixpoint first_fit_loop (fuel : nat) (size : Z) (curr last : ptr)
  : M (ptr * ptr) :=
  match fuel with
  | O => diverge
  | S n =>
      if ptr_eqb curr NULL then ret (curr, last)
      else
        let* b := load curr in
        if Block.free b && (size <=? Block.size b) then ret (curr, last)
        else
          (* *last = curr; curr = curr->next; num_blocks++ *)
          incr num_blocks set_num_blocks;;
          first_fit_loop n size (Block.next b) curr
  end.

(** [while (curr)] of the best-fit build; returns [best]. *)
Fixpoint best_fit_loop (fuel : nat) (size : Z) (curr best : ptr) : M ptr :=
  match fuel with
  | O => diverge
  | S n =>
      if ptr_eqb curr NULL then ret best
      else
        incr num_blocks set_num_blocks;;
        let* b := load curr in
        let* better :=
          if Block.free b && (size <=? Block.size b) then
            if ptr_eqb best NULL then ret true
            else
              let* bb := load best in
              ret (Block.size b <? Block.size bb)
          else ret false in
        if better then
          (* best = curr *)
          if Block.size b =? size then ret curr (* break *)
          else best_fit_loop n size (Block.next b) curr
        else best_fit_loop n size (Block.next b) best
  end.

(** [while (curr)] of the worst-fit build; returns [worst] and [*last].
    [abs] takes an [int], so the [size_t] difference is converted to [int]
    first, and the [int] result is converted back for the comparison with
    the [size_t] variable [max]. *)
Fixpoint worst_fit_loop (fuel : nat) (size : Z) (curr last worst : ptr)
    (max : Z) : M (ptr * ptr) :=
  match fuel with
  | O => diverge
  | S n =>
      if ptr_eqb curr NULL then ret (worst, last)
      else
        incr num_blocks set_num_blocks;;
        let* b := load curr in
        let* wider :=
          if Block.free b && (size <? Block.size b) then
            match c_abs (to_int (to_size_t (Block.size b - size))) with
            | Some d => ret (max <? to_size_t d)
            | None => undef
            end
          else ret false in
        if wider then
          (* max = curr->size; worst = curr; *)
          worst_fit_loop n size (Block.next b) curr curr (Block.size b)
        else worst_fit_loop n size (Block.next b) curr worst max
  end.

(** [while (curr && !(curr->free && curr->size >= size))] of the next-fit
    build, which counts before it moves. *)
Fixpoint next_fit_loop (fuel : nat) (size : Z) (curr last : ptr)
  : M (ptr * ptr) :=
  match fuel with
  | O => diverge
  | S n =>
      if ptr_eqb curr NULL then ret (curr, last)
      else
        let* b := load curr in
        if Block.free b && (size <=? Block.size b) then ret (curr, last)
        else
          (* num_blocks++; *last = curr; curr = curr->next *)
          incr num_blocks set_num_blocks;;
          next_fit_loop n size (Block.next b) curr
  end.

(** [findFreeBlock(&last, size)]: returns the block found (or null) together
    with the value it leaves in [last]. *)
Definition findFreeBlock (pol : policy) (last : ptr) (size : Z)
  : M (ptr * ptr) :=
  let* curr := gets FreeList in
  modify (set_num_blocks 0);;
  let* fuel := gets fuel_of in
  match pol with
  | FIT => first_fit_loop fuel size curr last
  | BEST =>
      let* best := best_fit_loop fuel size curr NULL in
      ret (best, last)
  | WORST => worst_fit_loop fuel size curr last NULL 0
  | NEXT =>
      let* fin := gets Final in
      when (ptr_eqb fin NULL) (modify (set_Final curr));;
      let* curr := gets Final in
      let* (curr, last) := next_fit_loop fuel size curr last in
      modify (set_Final curr);;
      ret (curr, last)
  end.

(** ** growHeap *)

(** The body of [growHeap] from the [assert] on, as a function of the two
    values [sbrk] returned. *)
Definition growHeap_body (curr prev last : ptr) (size : Z) : M ptr :=
  assert (ptr_eqb curr prev);;
  (* OS allocation failed *)
  if ptr_eqb curr MinusOne then ret NULL
  else
    (* Update FreeList if not set *)
    let* head := gets FreeList in
    when (ptr_eqb head NULL) (modify (set_FreeList curr));;
    (* Attach new block to prev block *)
    when (negb (ptr_eqb last NULL)) (update last (Block.set_next curr));;
    (* Update block metadata *)
    update_fresh curr (Block.set_size size);;
    update_fresh curr (Block.set_next NULL);;
    update_fresh curr (Block.set_free false);;
    incr num_grows set_num_grows;;
    let* mh := gets max_heap in
    when (to_size_t mh <? size) (modify (set_max_heap (to_int size)));;
    ret curr.

Definition growHeap (last : ptr) (size : Z) : M ptr :=
  (* Request more space from OS *)
  let* curr := sbrk 0 in
  let* prev := sbrk (to_intptr (to_size_t (HDR + size))) in
  growHeap_body curr prev last size.

(** ** malloc *)

(** The split of [malloc].  The remainder is the automatic variable [temp];
    its fields are written and never read again inside the call, so only its
    address survives, stored in [next->next]. *)
Definition split (next : ptr) (size : Z) : M unit :=
  let* b := load next in
  (* temp.size = next->size - size; temp.free = true;
     if (next->next) temp.next = next->next; *)
  update next (Block.set_next StackTemp);;
  update next (Block.set_size size);;
  incr num_splits set_num_splits.

Definition malloc (pol : policy) (size : Z) : M ptr :=
  let* reg := gets atexit_registered in
  when (reg =? 0) (modify (set_atexit_registered 1));;
  (* Align to multiple of 4 *)
  let size := ALIGN4 size in
  (* Handle 0 size *)
  if size =? 0 then ret NULL
  else
    (* Look for free block *)
    let* last := gets FreeList in
    let* (next, last) := findFreeBlock pol last size in
    let* do_split :=
      if ptr_eqb next NULL then ret false
      else let* b := load next in ret (size <? Block.size b) in
    when do_split (split next size);;
    (* Could not find free block, so grow heap *)
    let* next := (if ptr_eqb next NULL then growHeap last size else ret next) in
    (* Could not find free block or grow heap, so just return NULL *)
    if ptr_eqb next NULL then ret NULL
    else
      let* b := load next in
      when (Block.dirty b) (incr num_reuses set_num_reuses);;
      (* Mark block as in use *)
      update next (Block.set_free false);;
      update next (Block.set_dirty true);;
      incr num_mallocs set_num_mallocs;;
      modify (fun s => set_num_requested
        (to_int (to_size_t (to_size_t (num_requested s) + size))) s);;
      (* Return data address associated with block *)
      ret (BLOCK_DATA next).

(** ** free *)

(** The forward coalescing step. *)
Definition coalesce_right (curr : ptr) : M unit :=
  let* c := load curr in
  if ptr_eqb (Block.next c) NULL then ret tt
  else
    let rightBlock := Block.next c in
    let* r := load rightBlock in
    when (Block.free r)
      (update curr (Block.set_size (to_size_t (Block.size c + Block.size r)));;
       incr num_coalesces set_num_coalesces;;
       let* r := load rightBlock in
       if ptr_eqb (Block.next r) NULL
       then update curr (Block.set_next NULL)
       else update curr (Block.set_next (Block.next r))).

(** [while (tempBlock)]: the backward coalescing loop.  In the branch for a
    tail block the source has the expression statement
    [previous->next == NULL;], a comparison whose value is dropped. *)
Fixpoint coalesce_left_loop (fuel : nat) (curr tempBlock : ptr) : M unit :=
  match fuel with
  | O => diverge
  | S n =>
      if ptr_eqb tempBlock NULL then ret tt
      else
        let* t := load tempBlock in
        when (ptr_eqb (Block.next t) curr && Block.free t)
          (incr num_coalesces set_num_coalesces;;
           let previous := tempBlock in
           let* c := load curr in
           update previous
             (Block.set_size (to_size_t (Block.size t + Block.size c)));;
           let* c := load curr in
           if ptr_eqb (Block.next c) NULL
           then ret tt
           else update previous (Block.set_next (Block.next c)));;
        let* t := load tempBlock in
        coalesce_left_loop n curr (Block.next t)
  end.

Definition free (p : ptr) : M unit :=
  if ptr_eqb p NULL then ret tt
  else
    (* Make block as free *)
    let curr := BLOCK_HEADER p in
    let* tempBlock := gets FreeList in
    let* c := load curr in
    assert (negb (Block.free c));;
    update curr (Block.set_free true);;
    incr num_frees set_num_frees;;
    coalesce_right curr;;
    let* fuel := gets fuel_of in
    coalesce_left_loop fuel curr tempBlock.

(** ** Running a program against the allocator *)

(** The state of a process that has not called the allocator yet: no block,
    counters at zero, a data segment that starts at [base] and may grow up to
    [limit]. *)
Definition initial (base limit : Z) : state :=
  mkState 0 0 0 0 0 0 0 0 0 0 NULL NULL ∅ base base limit.

Definition the_value {A} (r : result A) : option A :=
  match r with Ok a _ => Some a | _ => None end.

(** * Specification vocabulary *)

(** ** Calls that return *)

(** [wp m Q s]: if [m] returns from state [s], the value and the state it
    returns satisfy [Q]. *)
Definition wp {A} (m : M A) (Q : A -> state -> Prop) (s : state) : Prop :=
  match m s with
  | Ok a s' => Q a s'
  | _ => True
  end.

(** ** The chain as a list *)

(** [chain m p l]: following [next] from [p] through the headers in [m]
    reaches null after reading exactly the headers [l], in this order. *)
Inductive chain (m : gmap Z block) : ptr -> list (Z * block) -> Prop :=
| chain_nil : chain m NULL []
| chain_cons a b l :
    m !! a = Some b -> chain m (Block.next b) l ->
    chain m (Arena a) ((a, b) :: l).

(** ** Searches read as functions on lists *)

(** A block that can serve a request of [S] bytes. *)
Definition fits (S : Z) (b : block) : bool :=
  Block.free b && (S <=? Block.size b).

(** The best-fit loop read as a function of the list of headers still to
    visit and the best candidate so far; it returns the final best
    candidate and the number of headers visited. *)
Fixpoint best_scan (S : Z) (l : list (Z * block)) (best : option (Z * block))
  : option (Z * block) * nat :=
  match l with
  | [] => (best, O)
  | (a, b) :: l' =>
      if fits S b &&
         match best with
         | None => true
         | Some (_, bb) => Block.size b <? Block.size bb
         end
      then
        if Block.size b =? S then (Some (a, b), 1%nat)
        else let (r, n) := best_scan S l' (Some (a, b)) in (r, Datatypes.S n)
      else let (r, n) := best_scan S l' best in (r, Datatypes.S n)
  end.

Definition ptr_of (o : option (Z * block)) : ptr :=
  match o with Some (a, _) => Arena a | None => NULL end.

(** The point a next-fit search starts from: the cursor, or the head of the
    chain when the cursor is null. *)
Definition cursor (s : state) : ptr :=
  if ptr_eqb (Final s) NULL then FreeList s else Final s.

(** The next-fit loop read as a function of the list of headers from the
    starting point on: the block found (or null), the final value of
    [last], and the number of headers skipped. *)
Fixpoint next_scan (S : Z) (l : list (Z * block)) (last : ptr)
  : ptr * ptr * nat :=
  match l with
  | [] => (NULL, last, O)
  | (a, b) :: l' =>
      if fits S b then (Arena a, last, O)
      else let '(r, la, n) := next_scan S l' (Arena a) in
           (r, la, Datatypes.S n)
  end.

(** ** Denied extensions *)

(** [sbrk(n)] fails in state [s]. *)
Definition os_denies (s : state) (n : Z) : bool :=
  negb (n =? 0) &&
  negb ((brk_min s <=? brk s + n) && (brk s + n <=? brk_max s)).

(** ** Relations that every call preserves *)

(** [R s s'] relates the state before a piece of code to the state after
    it.  A preorder that tolerates the scan counter, the cursor, the three
    increments below and every header write that does not clear a free flag
    is preserved by the searches, by the split and by [free]. *)
Definition keeps_free (f : block -> block) : Prop :=
  forall b, Block.free b = true -> Block.free (f b) = true.

Class Stable (R : state -> state -> Prop) : Prop := {
  stable_preorder :: PreOrder R;
  stable_num_blocks v s : R s (set_num_blocks v s);
  stable_Final v s : R s (set_Final v s);
  stable_num_splits s :
    num_splits s < INT_MAX -> R s (set_num_splits (num_splits s + 1) s);
  stable_num_coalesces s :
    num_coalesces s < INT_MAX ->
    R s (set_num_coalesces (num_coalesces s + 1) s);
  stable_num_frees s :
    num_frees s < INT_MAX -> R s (set_num_frees (num_frees s + 1) s);
  stable_write s a b f :
    mem s !! a = Some b -> keeps_free f ->
    R s (set_mem (<[a := f b]> (mem s)) s)
}.

(** [preserves R m]: whenever [m] returns, [R] relates the state before to
    the state after. *)
Definition preserves (R : state -> state -> Prop) {A} (m : M A) : Prop :=
  forall s, wp m (fun _ s' => R s s') s.

(** ** Counters *)

(** The six counters that take no other write than [++]. *)
Definition counts_le (s s' : state) : Prop :=
  num_mallocs s <= num_mallocs s' /\ num_frees s <= num_frees s' /\
  num_reuses s <= num_reuses s' /\ num_grows s <= num_grows s' /\
  num_splits s <= num_splits s' /\ num_coalesces s <= num_coalesces s'.

(** [max_heap], once it holds an [int] value, grows within the [int]
    range. *)
Definition max_heap_step (s s' : state) : Prop :=
  max_heap s <= INT_MAX -> max_heap s <= max_heap s' <= INT_MAX.

(** One call of the allocator that returns, where the aligned size of a
    request satisfies [ok] in the state the call starts from. *)
Inductive call (ok : Z -> state -> Prop) (pol : policy) (s s' : state)
  : Prop :=
| call_malloc size p :
    ok (ALIGN4 size) s ->
    malloc pol size s = Ok p s' ->
    call ok pol s s'
| call_free p :
    free p s = Ok tt s' ->
    call ok pol s s'.

(** The request keeps the running total of requested bytes within the range
    of the [int] that holds it. *)
Definition total_fits (size : Z) (s : state) : Prop :=
  num_requested s + size <= INT_MAX.

(** The size of the request is itself the value of an [int]. *)
Definition request_fits (size : Z) (s : state) : Prop :=
  size <= INT_MAX.

Definition same_requested (s s' : state) : Prop :=
  num_requested s' = num_requested s.

(** ** Free flags *)

(** The header at address [a] is marked free. *)
Definition marked_in (a : Z) (m : gmap Z block) : Prop :=
  exists b, m !! a = Some b /\ Block.free b = true.

Definition marked_free (a : Z) (s : state) : Prop := marked_in a (mem s).

Definition stays_free (a : Z) (s s' : state) : Prop :=
  marked_free a s -> marked_free a s'.

(** ** Stores by the program *)

(** Where the fields of [struct block] lie in a header: two fields of eight
    bytes and two flags of one byte, the layout [HDR] counts. *)
Definition OFF_size : Z := 0.
Definition OFF_next : Z := 8.
Definition OFF_free : Z := 16.
Definition OFF_dirty : Z := 17.

(** The bytes [lo, hi) lie in the payload of a block in use: memory that
    [malloc] handed to the program and that the program has not given
    back. *)
Definition owned (s : state) (lo hi : Z) : Prop :=
  exists x c,
    mem s !! x = Some c /\ Block.free c = false /\
    x + HDR <= lo /\ lo < hi /\ hi <= x + HDR + Block.size c.

(** The [n] bytes at [a] share no byte with [lo, hi). *)
Definition apart (lo hi a n : Z) : Prop := a + n <= lo \/ hi <= a.

(** The header at [h] before and after a store to the bytes [lo, hi): a
    field keeps its value unless the store covers one of its bytes. *)
Definition stored (lo hi h : Z) (b b' : block) : Prop :=
  (apart lo hi (h + OFF_size) 8 -> Block.size b' = Block.size b) /\
  (apart lo hi (h + OFF_next) 8 -> Block.next b' = Block.next b) /\
  (apart lo hi (h + OFF_free) 1 -> Block.free b' = Block.free b) /\
  (apart lo hi (h + OFF_dirty) 1 -> Block.dirty b' = Block.dirty b).

(** The program stores to the bytes [lo, hi) of a payload it owns.  The
    state holds the headers only, so the store shows where these bytes are
    the bytes of a header: no header appears or disappears, and each one
    changes as [stored] allows. *)
Definition program_store (lo hi : Z) (s s' : state) : Prop :=
  owned s lo hi /\
  exists m',
    s' = set_mem m' s /\ dom m' = dom (mem s) /\
    forall h b b',
      mem s !! h = Some b -> m' !! h = Some b' -> stored lo hi h b b'.

(** What happens between the two frees of [p]: a call that returns and does
    not hand out [p], or a store by the program that does not cover the free
    flag in the header of [p]. *)
Inductive between_frees (pol : policy) (p : ptr) (s s' : state) : Prop :=
| between_malloc size q :
    malloc pol size s = Ok q s' -> q <> p -> between_frees pol p s s'
| between_free q :
    free q s = Ok tt s' -> between_frees pol p s s'
| between_store lo hi :
    program_store lo hi s s' ->
    (forall h, BLOCK_HEADER p = Arena h -> apart lo hi (h + OFF_free) 1) ->
    between_frees pol p s s'.

(** ** Links *)

(** No [next] field differs between the two states. *)
Definition same_links (s s' : state) : Prop :=
  forall x, Block.next <$> (mem s' !! x) = Block.next <$> (mem s !! x).

(** ** Concrete heaps *)

(** Programs below start from a process whose data segment begins at address
    4096 and may grow to 65536. *)
Definition fresh : state := initial 4096 65536.

(** Two blocks of four bytes, the first one freed again: the chain is
    [A -> B] with [A] free and [B] the busy tail. *)
Definition two_blocks : M ptr :=
  let* a := malloc FIT 4 in
  let* b := malloc FIT 4 in
  free a;;
  ret b.

(** The state [two_blocks] leaves, and the state after the tail block is
    freed as well. *)
Definition tail_behind_free : state :=
  mkState 1 2 1 0 2 0 0 1 8 4 (Arena 4096) NULL
    (<[4096 := Block.mk 4 (Arena 4124) true true]>
       (<[4124 := Block.mk 4 NULL false true]> ∅)) 4152 4096 65536.

Definition tail_still_linked : state :=
  mkState 1 2 2 0 2 0 1 1 8 4 (Arena 4096) NULL
    (<[4096 := Block.mk 8 (Arena 4124) true true]>
       (<[4124 := Block.mk 4 NULL true true]> ∅)) 4152 4096 65536.

(** A block of 1000 bytes, freed; the same block after a request for 100
    bytes; and, in between, the effect of the split alone. *)
Definition freed_1000 : state :=
  mkState 1 1 1 0 1 0 0 0 1000 1000 (Arena 4096) NULL
    (<[4096 := Block.mk 1000 NULL true true]> ∅) 5120 4096 65536.

Definition split_only : state :=
  mkState 1 1 1 0 1 1 0 0 1000 1000 (Arena 4096) NULL
    (<[4096 := Block.mk 100 StackTemp true true]> ∅) 5120 4096 65536.

Definition after_split : state :=
  mkState 1 2 1 1 1 1 0 0 1100 1000 (Arena 4096) NULL
    (<[4096 := Block.mk 100 StackTemp false true]> ∅) 5120 4096 65536.

(** Three blocks of 100, 4 and 152 bytes, the first and the last freed: the
    free candidates for a request of 60 bytes have surplus 40 and 92. *)
Definition worst_fit_heap : M unit :=
  let* a := malloc WORST 100 in
  let* b := malloc WORST 4 in
  let* c := malloc WORST 152 in
  free a;;
  free c.

(** The state [worst_fit_heap] leaves. *)
Definition worst_fit_state : state :=
  mkState 1 3 2 0 3 0 0 2 256 152 (Arena 4096) NULL
    (<[4096 := Block.mk 100 (Arena 4220) true true]>
       (<[4220 := Block.mk 4 (Arena 4248) false true]>
          (<[4248 := Block.mk 152 NULL true true]> ∅))) 4424 4096 65536.

(** Three free blocks of 10, 50 and 5 bytes. *)
Definition three_candidates : state :=
  mkState 1 3 3 0 3 0 0 0 65 50 (Arena 4096) NULL
    (<[4096 := Block.mk 10 (Arena 4130) true true]>
       (<[4130 := Block.mk 50 (Arena 4204) true true]>
          (<[4204 := Block.mk 5 NULL true true]> ∅)))
    4233 4096 65536.

Definition three_chain : list (Z * block) :=
  [(4096, Block.mk 10 (Arena 4130) true true);
   (4130, Block.mk 50 (Arena 4204) true true);
   (4204, Block.mk 5 NULL true true)].

(** The cursor has been moved to [B], the free block [A] lies before it. *)
Definition next_fit_heap : M unit :=
  let* a := malloc NEXT 4 in
  let* b := malloc NEXT 4 in
  free a;;
  let* a' := malloc NEXT 4 in
  free b;;
  let* b' := malloc NEXT 4 in
  free a'.

(** The state [next_fit_heap] leaves. *)
Definition cursor_on_B : state :=
  mkState 1 4 3 2 2 0 0 1 16 4 (Arena 4096) (Arena 4124)
    (<[4096 := Block.mk 4 (Arena 4124) true true]>
       (<[4124 := Block.mk 4 NULL false true]> ∅))
    4152 4096 65536.

(** One block of four bytes, allocated and then freed. *)
Definition one_block : state :=
  mkState 1 1 0 0 1 0 0 0 4 4 (Arena 4096) NULL
    (<[4096 := Block.mk 4 NULL false true]> ∅) 4124 4096 65536.

Definition once_freed : state :=
  mkState 1 1 1 0 1 0 0 0 4 4 (Arena 4096) NULL
    (<[4096 := Block.mk 4 NULL true true]> ∅) 4124 4096 65536.

(** The freed block of [once_freed] followed by a second block of eight
    bytes. *)
Definition other_block : state :=
  mkState 1 2 1 0 2 0 0 1 12 8 (Arena 4096) NULL
    (<[4096 := Block.mk 4 (Arena 4124) true true]>
       (<[4124 := Block.mk 8 NULL false true]> ∅)) 4156 4096 65536.

(** A block of four bytes and a block of 100 bytes, freed in the reverse
    order, so that the first absorbs the second, and then a request for the
    104 bytes of the merged block.  The result is the pointer to the second
    block and the pointer the last request returned. *)
Definition merged_heap : M (ptr * ptr) :=
  let* a := malloc FIT 4 in
  let* b := malloc FIT 100 in
  free b;;
  free a;;
  let* p := malloc FIT 104 in
  ret (b, p).

(** The state [merged_heap] leaves: the payload of the block at 4096 is the
    104 bytes from 4120 on, and the header of the absorbed block still lies
    at 4124, marked free. *)
Definition stale_header : state :=
  mkState 1 3 2 1 2 0 1 0 208 100 (Arena 4096) NULL
    (<[4096 := Block.mk 104 NULL false true]>
       (<[4124 := Block.mk 100 NULL true true]> ∅)) 4248 4096 65536.

(** The same state after the program has stored a zero to the byte at
    4140, and after the second block has then been freed again. *)
Definition flag_cleared : state :=
  mkState 1 3 2 1 2 0 1 0 208 100 (Arena 4096) NULL
    (<[4096 := Block.mk 104 NULL false true]>
       (<[4124 := Block.mk 100 NULL false true]> ∅)) 4248 4096 65536.

Definition freed_twice : state :=
  mkState 1 3 3 1 2 0 1 0 208 100 (Arena 4096) NULL
    (<[4096 := Block.mk 104 NULL false true]>
       (<[4124 := Block.mk 100 NULL true true]> ∅)) 4248 4096 65536.

(** A process whose data segment may grow to [2^33], and the state after
    its first request, for [2^31] bytes. *)
Definition large : state := initial 4096 (2 ^ 33).

Definition two_gigabytes : state :=
  mkState 1 1 0 0 1 0 0 0 (- 2 ^ 31) (- 2 ^ 31) (Arena 4096) NULL
    (<[4096 := Block.mk (2 ^ 31) NULL false true]> ∅)
    (4096 + 24 + 2 ^ 31) 4096 (2 ^ 33).

(** The state after a first request of five bytes. *)
Definition eight_bytes : state :=
  mkState 1 1 0 0 1 0 0 0 8 8 (Arena 4096) NULL
    (<[4096 := Block.mk 8 NULL false true]> ∅) 4128 4096 65536.

(** * Vocabulary of the further properties *)

(** ** Results of a search *)

(** The block a search may return for a request of [S] bytes: null, or a
    free header of sufficient size (strictly larger under worst fit). *)
Definition candidate (pol : policy) (S : Z) (m : gmap Z block) (r : ptr)
  : Prop :=
  r = NULL \/
  exists a b, r = Arena a /\ m !! a = Some b /\ Block.free b = true /\
              match pol with
              | WORST => S < Block.size b
              | _ => S <= Block.size b
              end.

(** State [s] is [s0] with another, non-negative scan count. *)
Definition counted (s0 s : state) : Prop :=
  exists n, 0 <= n /\ s = set_num_blocks n s0.

(** The value that a walk over all of [l] leaves in [last]: the address of
    the final header of [l], or the initial value [d] when [l] is empty. *)
Definition last_of (l : list (Z * block)) (d : ptr) : ptr :=
  match last l with Some x => Arena x.1 | None => d end.

(** A block that the worst-fit search may select for [S] bytes. *)
Definition roomy (S : Z) (b : block) : bool :=
  Block.free b && (S <? Block.size b).

(** The last header of [l] is linked to [q]. *)
Fixpoint link_tail (l : list (Z * block)) (q : ptr) : list (Z * block) :=
  match l with
  | [] => []
  | (a, b) :: l' =>
      match l' with
      | [] => [(a, Block.set_next q b)]
      | _ => (a, b) :: link_tail l' q
      end
  end.

(** ** Frames *)

(** The ten [int] globals of the program. *)
Inductive global : Type :=
| g_atexit_registered | g_num_mallocs | g_num_frees | g_num_reuses
| g_num_grows | g_num_splits | g_num_coalesces | g_num_blocks
| g_num_requested | g_max_heap.

Definition global_value (g : global) (s : state) : Z :=
  match g with
  | g_atexit_registered => atexit_registered s
  | g_num_mallocs => num_mallocs s
  | g_num_frees => num_frees s
  | g_num_reuses => num_reuses s
  | g_num_grows => num_grows s
  | g_num_splits => num_splits s
  | g_num_coalesces => num_coalesces s
  | g_num_blocks => num_blocks s
  | g_num_requested => num_requested s
  | g_max_heap => max_heap s
  end.

(** Between [s] and [s'] no [int] global outside [gs] has changed. *)
Definition modifies_only (gs : list global) (s s' : state) : Prop :=
  forall g, g ∉ gs -> global_value g s' = global_value g s.

(** The limits the operating system sets for the data segment. *)
Definition same_limits (s s' : state) : Prop :=
  brk_min s' = brk_min s /\ brk_max s' = brk_max s.

(** ** What an allocation does *)

(** [malloc] served a request of [S] aligned bytes from the free header [b]
    found at [a]: the header is shrunk to the request when it is larger (its
    successor is then the dead automatic variable of the split), and it is
    marked busy and used. *)
Definition reuses (pol : policy) (S a : Z) (b : block) (s s' : state) : Prop :=
  mem s !! a = Some b /\ Block.free b = true /\
  S <= Block.size b /\ (pol = WORST -> S < Block.size b) /\
  mem s' =
    <[a := Block.mk S (if S <? Block.size b then StackTemp else Block.next b)
                    false true]> (mem s) /\
  brk s' = brk s /\ FreeList s' = FreeList s /\
  Final s' = match pol with NEXT => Arena a | _ => Final s end /\
  num_splits s' = num_splits s + (if S <? Block.size b then 1 else 0) /\
  num_reuses s' = num_reuses s + (if Block.dirty b then 1 else 0) /\
  num_mallocs s' = num_mallocs s + 1 /\
  num_requested s' = to_int (to_size_t (to_size_t (num_requested s) + S)) /\
  modifies_only [g_atexit_registered; g_num_mallocs; g_num_reuses;
                 g_num_splits; g_num_blocks; g_num_requested] s s'.

(** [malloc] served a request of [S] aligned bytes by moving the break: the
    header [last] (if any) is linked to the old break, where a header is
    written over the bytes [b0] found there. *)
Definition grows (pol : policy) (S : Z) (last : ptr) (b0 : block)
    (s s' : state) : Prop :=
  exists m1,
    (last = NULL /\ m1 = mem s \/
     exists l bl, last = Arena l /\ mem s !! l = Some bl /\
                  m1 = <[l := Block.set_next (Arena (brk s)) bl]> (mem s)) /\
    (m1 !! brk s = Some b0 \/
     m1 !! brk s = None /\ b0 = Block.zero /\
     brk_min s <= brk s /\ brk s + HDR <= brk s') /\
    mem s' = <[brk s := Block.mk S NULL false true]> m1 /\
    brk s' = brk s + to_intptr (to_size_t (HDR + S)) /\
    FreeList s' =
      (if ptr_eqb (FreeList s) NULL then Arena (brk s) else FreeList s) /\
    Final s' = match pol with NEXT => NULL | _ => Final s end /\
    (pol = BEST -> last = FreeList s) /\
    num_grows s' = num_grows s + 1 /\
    max_heap s' =
      (if to_size_t (max_heap s) <? S then to_int S else max_heap s) /\
    num_reuses s' = num_reuses s + (if Block.dirty b0 then 1 else 0) /\
    num_mallocs s' = num_mallocs s + 1 /\
    num_requested s' = to_int (to_size_t (to_size_t (num_requested s) + S)) /\
    modifies_only [g_atexit_registered; g_num_mallocs; g_num_reuses;
                   g_num_grows; g_max_heap; g_num_blocks; g_num_requested]
      s s'.

(** The three ways in which [malloc] returns. *)
Definition malloc_returns (pol : policy) (size : Z) (s : state) (p : ptr)
    (s' : state) : Prop :=
  atexit_registered s' =
    (if atexit_registered s =? 0 then 1 else atexit_registered s) /\
  same_limits s s' /\
  ((p = NULL /\ ALIGN4 size = 0 /\
    mem s' = mem s /\ brk s' = brk s /\
    FreeList s' = FreeList s /\ Final s' = Final s /\
    modifies_only [g_atexit_registered] s s') \/
   (ALIGN4 size <> 0 /\ 0 <= num_blocks s' /\
    exists a b, p = Arena (a + HDR) /\ reuses pol (ALIGN4 size) a b s s') \/
   (ALIGN4 size <> 0 /\ 0 <= num_blocks s' /\ p = Arena (brk s + HDR) /\
    exists last b0, grows pol (ALIGN4 size) last b0 s s')).

(** ** What a deallocation does *)

(** A property of headers, which may depend on the address, holds for every
    header in memory. *)
Definition holds (P : Z -> block -> Prop) (m : gmap Z block) : Prop :=
  forall x b, m !! x = Some b -> P x b.

(** State [s] differs from [s0] in the contents of headers and in the
    number of coalesces only; the headers are at the same addresses and all
    satisfy [P]. *)
Definition coalesced (P : Z -> block -> Prop) (s0 s : state) : Prop :=
  exists m n,
    s = set_num_coalesces n (set_mem m s0) /\
    num_coalesces s0 <= n /\ dom m = dom (mem s0) /\ holds P m.

(** The ways in which [free] returns: at once for a null pointer; otherwise
    the header before [p] was busy and has been marked free, one more free
    is counted, and the rest is coalescing. *)
Definition free_returns (P : Z -> block -> Prop) (p : ptr) (s s' : state)
  : Prop :=
  (p = NULL /\ s' = s) \/
  exists x c,
    p = Arena x /\ mem s !! (x - HDR) = Some c /\ Block.free c = false /\
    num_frees s < INT_MAX /\
    (holds P (<[x - HDR := Block.set_free true c]> (mem s)) ->
     coalesced P
       (set_num_frees (num_frees s + 1)
          (set_mem (<[x - HDR := Block.set_free true c]> (mem s)) s)) s').

(** ** Runs *)

(** One call of [malloc] or [free] that returns. *)
Inductive transition (pol : policy) (s s' : state) : Prop :=
| transition_malloc size p :
    malloc pol size s = Ok p s' -> transition pol s s'
| transition_free p :
    free p s = Ok tt s' -> transition pol s s'.

(** Every header lies between the start of the data segment and the
    break. *)
Definition inside (s : state) : Prop :=
  brk_min s <= brk s /\
  forall a b, mem s !! a = Some b -> brk_min s <= a /\ a + HDR <= brk s.

(** Every size is a multiple of four. *)
Definition aligned (s : state) : Prop :=
  forall a b, mem s !! a = Some b -> Block.size b mod 4 = 0.

(** Every header has been handed out at least once. *)
Definition used (s : state) : Prop :=
  forall a b, mem s !! a = Some b -> Block.dirty b = true.

(** The addresses of the headers that are not marked free, and their
    number. *)
Definition busy_set (m : gmap Z block) : gset Z :=
  dom (filter (fun kv => Block.free kv.2 = false) m).

Definition busy_blocks (s : state) : Z := Z.of_nat (size (busy_set (mem s))).

(** ** Calls that do return *)

(** [twp m Q s]: from state [s] the program [m] returns, and the value and
    the state it returns satisfy [Q]. *)
Definition twp {A} (m : M A) (Q : A -> state -> Prop) (s : state) : Prop :=
  match m s with
  | Ok a s' => Q a s'
  | _ => False
  end.

(** ** More concrete heaps *)

(** Two busy blocks of four bytes: the state before the [free] of
    [two_blocks]. *)
Definition two_busy : state :=
  mkState 1 2 0 0 2 0 0 1 8 4 (Arena 4096) NULL
    (<[4096 := Block.mk 4 (Arena 4124) false true]>
       (<[4124 := Block.mk 4 NULL false true]> ∅)) 4152 4096 65536.

(** [one_block] after [growHeap] has added a second header of four bytes
    behind it. *)
Definition second_header : state :=
  mkState 1 1 0 0 2 0 0 0 4 4 (Arena 4096) NULL
    (<[4096 := Block.mk 4 (Arena 4124) false true]>
       (<[4124 := Block.mk 4 NULL false false]> ∅)) 4152 4096 65536.

(** Three busy blocks of four bytes allocated by the best-fit build: the
    head is linked to the third block, the second is on no chain. *)
Definition middle_dropped : state :=
  mkState 1 3 0 0 3 0 0 2 12 4 (Arena 4096) NULL
    (<[4096 := Block.mk 4 (Arena 4152) false true]>
       (<[4124 := Block.mk 4 NULL false true]>
          (<[4152 := Block.mk 4 NULL false true]> ∅))) 4180 4096 65536.

(** Two blocks of four bytes, the second one freed. *)
Definition free_behind_busy : state :=
  mkState 1 2 1 0 2 0 0 1 8 4 (Arena 4096) NULL
    (<[4096 := Block.mk 4 (Arena 4124) false true]>
       (<[4124 := Block.mk 4 NULL true true]> ∅)) 4152 4096 65536.

(** Three blocks of four bytes, the first one freed. *)
Definition free_before_two_busy : state :=
  mkState 1 3 1 0 3 0 0 2 12 4 (Arena 4096) NULL
    (<[4096 := Block.mk 4 (Arena 4124) true true]>
       (<[4124 := Block.mk 4 (Arena 4152) false true]>
          (<[4152 := Block.mk 4 NULL false true]> ∅))) 4180 4096 65536.

(** * Properties of the embedding *)

(** ** Pointer comparison *)

Lemma ptr_eqb_eq p q : ptr_eqb p q = true <-> p = q.
Proof.
  destruct p, q; cbn; split; intros H; try done.
  - apply Z.eqb_eq in H. by subst.
  - apply Z.eqb_eq. by simplify_eq.
Qed.

Lemma ptr_eqb_neq p q : ptr_eqb p q = false <-> p <> q.
Proof.
  rewrite <- ptr_eqb_eq. destruct (ptr_eqb p q); split; intros; try done.
Qed.

(** ** Machine arithmetic *)

Lemma to_size_t_range z : 0 <= to_size_t z < SIZE_MOD.
Proof. unfold to_size_t, SIZE_MOD. apply Z.mod_pos_bound. lia. Qed.

Lemma to_size_t_small z : 0 <= z < SIZE_MOD -> to_size_t z = z.
Proof. unfold to_size_t. apply Z.mod_small. Qed.

Lemma to_int_small z : INT_MIN <= z <= INT_MAX -> to_int z = z.
Proof.
  unfold to_int, INT_MIN, INT_MAX. intros H.
  rewrite Z.mod_small; lia.
Qed.

Lemma mod64_mod32 z : (z mod 2 ^ 64) mod 2 ^ 32 = z mod 2 ^ 32.
Proof.
  rewrite (Z.div_mod z (2 ^ 64)) at 2 by lia.
  replace (2 ^ 64 * (z / 2 ^ 64) + z mod 2 ^ 64)
    with (z mod 2 ^ 64 + (2 ^ 32 * (z / 2 ^ 64)) * 2 ^ 32) by lia.
  rewrite Z.mod_add by lia. reflexivity.
Qed.

Lemma to_int_to_size_t z : to_int (to_size_t z) = to_int z.
Proof.
  unfold to_int, to_size_t, SIZE_MOD. f_equal.
  rewrite Zplus_mod, mod64_mod32, <- Zplus_mod. reflexivity.
Qed.

(** Converting an [int] to [size_t], adding and converting back is addition
    modulo [2^32]. *)
Lemma to_int_add_size_t x y :
  to_int (to_size_t (to_size_t x + y)) = to_int (x + y).
Proof.
  rewrite to_int_to_size_t. unfold to_int, to_size_t, SIZE_MOD. f_equal.
  replace (x mod 2 ^ 64 + y + 2 ^ 31) with (x mod 2 ^ 64 + (y + 2 ^ 31)) by lia.
  rewrite Zplus_mod, mod64_mod32, <- Zplus_mod. f_equal. lia.
Qed.

Lemma ALIGN4_range s : 0 <= ALIGN4 s < SIZE_MOD.
Proof. apply to_size_t_range. Qed.

(** Below the wrap-around, [ALIGN4] is the usual rounding. *)
Lemma ALIGN4_eq s :
  1 <= s <= SIZE_MOD - 4 -> ALIGN4 s = 4 * ((s - 1) / 4) + 4.
Proof.
  unfold ALIGN4, to_size_t.
  change SIZE_MOD with 18446744073709551616. intros H.
  rewrite (Z.mod_small (s - 1)) by lia.
  rewrite Z.shiftr_div_pow2, Z.shiftl_mul_pow2 by lia.
  change (2 ^ 2) with 4.
  pose proof (Z.mul_div_le (s - 1) 4 ltac:(lia)).
  pose proof (Z.div_pos (s - 1) 4 ltac:(lia) ltac:(lia)).
  assert ((s - 1) / 4 <= 18446744073709551611 / 4)
    by (apply Z.div_le_mono; lia).
  change (18446744073709551611 / 4) with 4611686018427387902 in *.
  rewrite (Z.mod_small ((s - 1) / 4 * 4)) by lia.
  rewrite Z.mod_small by lia. lia.
Qed.

Lemma ALIGN4_least s :
  1 <= s <= SIZE_MOD - 4 ->
  ALIGN4 s mod 4 = 0 /\ s <= ALIGN4 s /\
  (forall m, m mod 4 = 0 -> s <= m -> ALIGN4 s <= m).
Proof.
  intros H. rewrite (ALIGN4_eq s H).
  pose proof (Z.mul_succ_div_gt (s - 1) 4).
  repeat split.
  - replace (4 * ((s - 1) / 4) + 4) with (((s - 1) / 4 + 1) * 4) by lia.
    apply Z.mod_mul. lia.
  - lia.
  - intros m Hm Hle.
    apply Z.mod_divide in Hm; [|lia]. destruct Hm as [k ->].
    assert ((s - 1) / 4 < k); [|lia].
    apply Z.div_lt_upper_bound; lia.
Qed.

(** [ALIGN4] of a size that is already aligned, in particular of its own
    result, changes nothing. *)
Lemma ALIGN4_idem s : ALIGN4 (ALIGN4 s) = ALIGN4 s.
Proof.
  pose proof (to_size_t_range (s - 1)) as Hr.
  change SIZE_MOD with 18446744073709551616 in Hr.
  assert (Hq : 0 <= to_size_t (s - 1) / 4 <= 4611686018427387903).
  { split; [apply Z.div_pos; lia|].
    change 4611686018427387903 with (18446744073709551615 / 4).
    apply Z.div_le_mono; lia. }
  assert (Ha : ALIGN4 s =
    ((to_size_t (s - 1) / 4 * 4) mod 18446744073709551616 + 4)
      mod 18446744073709551616).
  { unfold ALIGN4. rewrite Z.shiftr_div_pow2, Z.shiftl_mul_pow2 by lia.
    reflexivity. }
  destruct (Z.eq_dec (to_size_t (s - 1) / 4) 4611686018427387903) as [He|Hne].
  - rewrite Ha, He. reflexivity.
  - rewrite (Z.mod_small (to_size_t (s - 1) / 4 * 4)) in Ha by lia.
    rewrite Z.mod_small in Ha by lia.
    rewrite Ha.
    rewrite ALIGN4_eq by (change SIZE_MOD with 18446744073709551616; lia).
    replace (to_size_t (s - 1) / 4 * 4 + 4 - 1)
      with (3 + to_size_t (s - 1) / 4 * 4) by lia.
    rewrite Z.div_add by lia. change (3 / 4) with 0. lia.
Qed.

(** ** Symbolic execution *)

Lemma wp_Ok {A} (m : M A) Q s a s' : wp m Q s -> m s = Ok a s' -> Q a s'.
Proof. unfold wp. intros H E. rewrite E in H. exact H. Qed.

Lemma wp_intro {A} (m : M A) (Q : A -> state -> Prop) s :
  (forall a s', m s = Ok a s' -> Q a s') -> wp m Q s.
Proof. unfold wp. intros H. destruct (m s); auto. Qed.

Lemma wp_mono {A} (m : M A) (Q Q' : A -> state -> Prop) s :
  wp m Q s -> (forall a s', Q a s' -> Q' a s') -> wp m Q' s.
Proof. unfold wp. destruct (m s); auto. Qed.

Lemma wp_bind {A B} (m : M A) (k : A -> M B) Q s :
  wp m (fun a => wp (k a) Q) s -> wp (bind m k) Q s.
Proof. unfold wp, bind. destruct (m s); auto. Qed.

Lemma wp_ret {A} (a : A) (Q : A -> state -> Prop) s : Q a s -> wp (ret a) Q s.
Proof. auto. Qed.

Lemma wp_gets {A} (f : state -> A) (Q : A -> state -> Prop) s :
  Q (f s) s -> wp (gets f) Q s.
Proof. auto. Qed.

Lemma wp_modify f (Q : unit -> state -> Prop) s :
  Q tt (f s) -> wp (modify f) Q s.
Proof. auto. Qed.

Lemma wp_abort {A} (Q : A -> state -> Prop) s : wp abort Q s.
Proof. exact I. Qed.

Lemma wp_undef {A} (Q : A -> state -> Prop) s : wp undef Q s.
Proof. exact I. Qed.

Lemma wp_diverge {A} (Q : A -> state -> Prop) s : wp diverge Q s.
Proof. exact I. Qed.

Lemma wp_incr get set (Q : unit -> state -> Prop) s :
  (get s < INT_MAX -> Q tt (set (get s + 1) s)) -> wp (incr get set) Q s.
Proof.
  unfold wp, incr, int_succ. intros H.
  destruct (Z.ltb_spec (get s) INT_MAX); auto.
Qed.

Lemma wp_load p (Q : block -> state -> Prop) s :
  (forall a b, p = Arena a -> mem s !! a = Some b -> Q b s) ->
  wp (load p) Q s.
Proof.
  unfold wp, load. intros H. destruct p; auto.
  destruct (mem s !! a) eqn:E; eauto.
Qed.

Lemma wp_update p f (Q : unit -> state -> Prop) s :
  (forall a b, p = Arena a -> mem s !! a = Some b ->
               Q tt (set_mem (<[a := f b]> (mem s)) s)) ->
  wp (update p f) Q s.
Proof.
  unfold wp, update, bind, load. intros H. destruct p; auto.
  destruct (mem s !! a) eqn:E; eauto. cbn. eauto.
Qed.

Lemma wp_update_fresh p f (Q : unit -> state -> Prop) s :
  (forall a b, p = Arena a ->
               mem s !! a = Some b \/ (mem s !! a = None /\ b = Block.zero) ->
               Q tt (set_mem (<[a := f b]> (mem s)) s)) ->
  wp (update_fresh p f) Q s.
Proof.
  unfold wp, update_fresh. intros H. destruct p; auto.
  destruct (mem s !! a) eqn:E; eauto.
  destruct (_ && _); eauto.
Qed.

Lemma wp_sbrk n (Q : ptr -> state -> Prop) s :
  (n = 0 -> Q (Arena (brk s)) s) ->
  (n <> 0 -> Q (Arena (brk s)) (set_brk (brk s + n) s)) ->
  (n <> 0 -> Q MinusOne s) ->
  wp (sbrk n) Q s.
Proof.
  unfold wp, sbrk. intros H0 H1 H2.
  destruct (Z.eqb_spec n 0); auto.
  destruct (_ && _); auto.
Qed.

(** Reading a global variable of a state that was built by assignments. *)
Ltac simpl_state :=
  cbn [atexit_registered num_mallocs num_frees num_reuses num_grows
       num_splits num_coalesces num_blocks num_requested max_heap
       FreeList Final mem brk brk_min brk_max
       set_atexit_registered set_num_mallocs set_num_frees set_num_reuses
       set_num_grows set_num_splits set_num_coalesces set_num_blocks
       set_num_requested set_max_heap set_FreeList set_Final set_mem
       set_brk] in *.

(** One step of symbolic execution of a monadic program. *)
Ltac wp_step :=
  lazymatch goal with
  | |- wp (bind _ _) _ _ => apply wp_bind
  | |- wp (ret _) _ _ => apply wp_ret
  | |- wp (gets _) _ _ => apply wp_gets
  | |- wp (modify _) _ _ => apply wp_modify
  | |- wp abort _ _ => apply wp_abort
  | |- wp undef _ _ => apply wp_undef
  | |- wp diverge _ _ => apply wp_diverge
  | |- wp (incr _ _) _ _ => apply wp_incr; intros ?
  | |- wp (load _) _ _ =>
      let a := fresh "a" in let b := fresh "b" in
      let E := fresh "E" in let L := fresh "L" in
      apply wp_load; intros a b E L; simplify_eq
  | |- wp (update _ _) _ _ =>
      let a := fresh "a" in let b := fresh "b" in
      let E := fresh "E" in let L := fresh "L" in
      apply wp_update; intros a b E L; simplify_eq
  | |- wp (update_fresh _ _) _ _ =>
      let a := fresh "a" in let b := fresh "b" in
      let E := fresh "E" in let L := fresh "L" in
      apply wp_update_fresh; intros a b E L; simplify_eq
  | |- wp (assert ?c) _ _ => unfold assert; destruct c eqn:?
  | |- wp (when ?c _) _ _ => unfold when; destruct c eqn:?
  | |- wp (if ?c then _ else _) _ _ => destruct c eqn:?
  | |- wp (match ?c with Some _ => _ | None => _ end) _ _ => destruct c eqn:?
  | |- wp (let '(_, _) := ?p in _) _ _ => destruct p
  end; cbv beta; simpl_state.

Ltac wp_run := repeat wp_step.

(** ** Chains *)

Lemma chain_det m p l1 l2 : chain m p l1 -> chain m p l2 -> l1 = l2.
Proof.
  intros H1. revert l2. induction H1; intros l2 H2; inversion H2; subst; auto.
  simplify_eq. f_equal. auto.
Qed.

(** The rest of a chain is the chain of the pointer found there. *)
Lemma chain_suffix m p l1 l2 :
  chain m p (l1 ++ l2) -> exists q, chain m q l2.
Proof.
  revert p. induction l1 as [|x l1 IH]; intros p H; cbn in *; eauto.
  inversion H; subst. eauto.
Qed.

Lemma chain_head m p a b l : chain m p ((a, b) :: l) -> p = Arena a.
Proof. inversion 1; auto. Qed.

(** A chain that ends visits no header twice. *)
Lemma chain_NoDup m p l : chain m p l -> NoDup (l.*1).
Proof.
  induction 1 as [|a b l Ha Hc IH]; cbn; constructor; auto.
  intros Hin. apply list_elem_of_fmap in Hin as [[a' b'] [-> Hin]]. cbn in *.
  apply list_elem_of_split in Hin as (l1 & l2 & ->).
  destruct (chain_suffix _ _ _ _ Hc) as [q Hq].
  pose proof (chain_head _ _ _ _ _ Hq) as ->.
  assert (Hfull : chain m (Arena a') ((a', b) :: l1 ++ (a', b') :: l2))
    by (constructor; auto).
  pose proof (chain_det _ _ _ _ Hq Hfull) as Heq.
  apply (f_equal length) in Heq. cbn in Heq. rewrite length_app in Heq.
  cbn in Heq. lia.
Qed.

Lemma chain_lookup m p l a b : chain m p l -> (a, b) ∈ l -> m !! a = Some b.
Proof.
  induction 1; intros Hin.
  - inversion Hin.
  - apply elem_of_cons in Hin as [Heq|Hin]; [by simplify_eq|auto].
Qed.

(** So a chain is never longer than the number of headers in memory. *)
Lemma chain_length m p l : chain m p l -> (length l <= size m)%nat.
Proof.
  intros H.
  pose proof (chain_NoDup _ _ _ H) as Hnd.
  rewrite <- (length_fmap fst l).
  rewrite <- size_dom.
  change (size (dom m)) with (length (elements (dom m))).
  apply submseteq_length, NoDup_submseteq; auto.
  intros a Ha. apply elem_of_elements, elem_of_dom.
  apply list_elem_of_fmap in Ha as [[a' b] [-> Hin]]. cbn.
  rewrite (chain_lookup _ _ _ _ _ H Hin). eauto.
Qed.

(** ** Preservation *)

Section Preservation.
Context (R : state -> state -> Prop) `{!Stable R}.

Local Abbreviation preserves := (preserves R).


Lemma preserves_ret {A} (a : A) : preserves (ret a).
Proof. intros s. apply wp_ret. reflexivity. Qed.

Lemma preserves_bind {A B} (m : M A) (k : A -> M B) :
  preserves m -> (forall a, preserves (k a)) -> preserves (bind m k).
Proof.
  intros Hm Hk s. specialize (Hm s). unfold wp, bind in *.
  destruct (m s) as [a s1| | |]; auto.
  specialize (Hk a s1). unfold wp in Hk.
  destruct (k a s1) as [b s2| | |]; auto.
  by trans s1.
Qed.

Lemma preserves_gets {A} (f : state -> A) : preserves (gets f).
Proof. intros s. apply wp_gets. reflexivity. Qed.

Lemma preserves_fail {A} (m : M A) :
  (forall s, m s = Abort \/ m s = Undef \/ m s = Diverge) -> preserves m.
Proof.
  intros H s. unfold wp. destruct (H s) as [->|[->| ->]]; exact I.
Qed.

Lemma preserves_load p : preserves (load p).
Proof. intros s. apply wp_load. reflexivity. Qed.

Lemma preserves_update p f : keeps_free f -> preserves (update p f).
Proof.
  intros Hf s. apply wp_update. intros a b _ Hb.
  by apply stable_write.
Qed.

Lemma preserves_incr_num_blocks : preserves (incr num_blocks set_num_blocks).
Proof. intros s. apply wp_incr. intros _. apply stable_num_blocks. Qed.

Lemma preserves_incr_num_splits : preserves (incr num_splits set_num_splits).
Proof. intros s. apply wp_incr. apply stable_num_splits. Qed.

Lemma preserves_incr_num_coalesces :
  preserves (incr num_coalesces set_num_coalesces).
Proof. intros s. apply wp_incr. apply stable_num_coalesces. Qed.

Lemma preserves_incr_num_frees : preserves (incr num_frees set_num_frees).
Proof. intros s. apply wp_incr. apply stable_num_frees. Qed.

Lemma preserves_set_num_blocks v : preserves (modify (set_num_blocks v)).
Proof. intros s. apply wp_modify, stable_num_blocks. Qed.

Lemma preserves_set_Final v : preserves (modify (set_Final v)).
Proof. intros s. apply wp_modify, stable_Final. Qed.

Lemma keeps_free_size v : keeps_free (Block.set_size v).
Proof. intros b H. exact H. Qed.
Lemma keeps_free_next v : keeps_free (Block.set_next v).
Proof. intros b H. exact H. Qed.
Lemma keeps_free_dirty v : keeps_free (Block.set_dirty v).
Proof. intros b H. exact H. Qed.
Lemma keeps_free_free : keeps_free (Block.set_free true).
Proof. intros b H. reflexivity. Qed.

(** Decomposes a program into the statements above. *)
Ltac pres :=
  repeat first
    [ apply preserves_ret
    | apply preserves_gets
    | apply preserves_load
    | apply preserves_incr_num_blocks
    | apply preserves_incr_num_splits
    | apply preserves_incr_num_coalesces
    | apply preserves_incr_num_frees
    | apply preserves_set_num_blocks
    | apply preserves_set_Final
    | apply preserves_update;
      first [ apply keeps_free_size | apply keeps_free_next
            | apply keeps_free_dirty | apply keeps_free_free ]
    | apply preserves_fail; intros; cbn; tauto
    | apply preserves_bind; [|intros]
    | progress unfold when, assert
    | match goal with
      | |- preserves (if ?c then _ else _) => destruct c
      | |- preserves (match ?c with Some _ => _ | None => _ end) =>
          destruct c
      | |- preserves (let '(_, _) := ?p in _) => destruct p
      | H : _ |- _ => apply H
      end ].

Lemma first_fit_loop_preserves fuel : forall size curr last,
  preserves (first_fit_loop fuel size curr last).
Proof. induction fuel; intros; cbn [first_fit_loop]; pres. Qed.

Lemma next_fit_loop_preserves fuel : forall size curr last,
  preserves (next_fit_loop fuel size curr last).
Proof. induction fuel; intros; cbn [next_fit_loop]; pres. Qed.

Lemma best_fit_loop_preserves fuel : forall size curr best,
  preserves (best_fit_loop fuel size curr best).
Proof. induction fuel; intros; cbn [best_fit_loop]; pres. Qed.

Lemma worst_fit_loop_preserves fuel : forall size curr last worst max,
  preserves (worst_fit_loop fuel size curr last worst max).
Proof. induction fuel; intros; cbn [worst_fit_loop]; pres. Qed.

Lemma findFreeBlock_preserves pol last size :
  preserves (findFreeBlock pol last size).
Proof.
  unfold findFreeBlock.
  pose proof first_fit_loop_preserves. pose proof next_fit_loop_preserves.
  pose proof best_fit_loop_preserves. pose proof worst_fit_loop_preserves.
  destruct pol; pres.
Qed.

Lemma split_preserves next size : preserves (split next size).
Proof. unfold split. pres. Qed.

Lemma coalesce_right_preserves curr : preserves (coalesce_right curr).
Proof. unfold coalesce_right. pres. Qed.

Lemma coalesce_left_loop_preserves fuel : forall curr tempBlock,
  preserves (coalesce_left_loop fuel curr tempBlock).
Proof. induction fuel; intros; cbn [coalesce_left_loop]; pres. Qed.

Lemma free_preserves p : preserves (free p).
Proof.
  unfold free.
  pose proof coalesce_right_preserves. pose proof coalesce_left_loop_preserves.
  pres.
Qed.

End Preservation.

(** * The claims *)

(** ** Deallocation of a tail block behind a free block *)

Lemma same_links_refl s : same_links s s.
Proof. intros x. reflexivity. Qed.

Lemma same_links_write s s' a b f :
  mem s' !! a = Some b -> Block.next (f b) = Block.next b ->
  same_links s s' -> same_links s (set_mem (<[a := f b]> (mem s')) s').
Proof.
  intros Hb Hf H x. cbn. destruct (decide (a = x)) as [->|Hne].
  - rewrite lookup_insert_eq, <- H, Hb. cbn. by rewrite Hf.
  - rewrite lookup_insert_ne by done. apply H.
Qed.

Lemma same_links_tail s s' a c :
  mem s !! a = Some c -> Block.next c = NULL -> same_links s s' ->
  exists c', mem s' !! a = Some c' /\ Block.next c' = NULL.
Proof.
  intros Hc Hn H. specialize (H a). rewrite Hc in H. cbn in H.
  destruct (mem s' !! a) as [c'|]; [|done]. cbn in H.
  exists c'. split; congruence.
Qed.

(** While the block being freed is the tail, the backward loop changes no
    [next] field. *)
Lemma coalesce_left_loop_tail fuel : forall ca tempBlock s0 s c,
  mem s0 !! ca = Some c -> Block.next c = NULL -> same_links s0 s ->
  wp (coalesce_left_loop fuel (Arena ca) tempBlock)
     (fun _ s' => same_links s0 s') s.
Proof.
  induction fuel as [|fuel IH]; intros ca tempBlock s0 s c Hc Hn Hs;
    cbn [coalesce_left_loop]; [apply wp_diverge|].
  destruct (same_links_tail _ _ _ _ Hc Hn Hs) as (c1 & Hc1 & Hn1).
  wp_run; auto.
  - apply (IH _ _ s0 _ c); auto.
    exact (same_links_write s0 s _ _ (Block.set_size _) L eq_refl Hs).
  - exfalso. apply ptr_eqb_neq in Heqb1. apply Heqb1.
    destruct (decide (a1 = a)) as [->|Hne].
    + rewrite lookup_insert_eq in L0. by simplify_eq.
    + rewrite lookup_insert_ne in L0 by done. by simplify_eq.
  - apply (IH _ _ s0 _ c); auto.
Qed.

(** Freeing a tail block changes no [next] field anywhere. *)
Lemma free_tail_same_links s a c s' :
  mem s !! (a - HDR) = Some c -> Block.next c = NULL ->
  free (Arena a) s = Ok tt s' -> same_links s s'.
Proof.
  intros Hc Hn Hf.
  refine (wp_Ok _ (fun _ s' => same_links s s') _ _ _ _ Hf).
  unfold free, coalesce_right. cbn [ptr_eqb BLOCK_HEADER].
  wp_run.
  1: { apply (coalesce_left_loop_tail _ _ _ s _ c Hc Hn).
       exact (same_links_write s s _ _ (Block.set_free true) Hc eq_refl
                (same_links_refl s)). }
  all: exfalso.
  all: match goal with
       | L : <[_ := _]> _ !! _ = Some ?b,
         H : ptr_eqb (Block.next ?b) NULL = false |- _ =>
           rewrite lookup_insert_eq in L; simplify_eq; cbn in H;
           rewrite Hn in H; discriminate
       end.
Qed.

(** C1, evaluated on the code: freeing a tail block changes no [next] field
    of any header, so a free predecessor is never re-pointed to null.  On the
    chain [A -> B] with [A] free and [B] the busy tail, freeing [B] adds
    [B]'s size to [A] and counts a coalesce, and [A] still points at [B]:
    both blocks are on the chain afterwards. *)
Theorem free_tail_leaves_block_linked :
  (forall s a c s',
     mem s !! (a - HDR) = Some c -> Block.next c = NULL ->
     free (Arena a) s = Ok tt s' -> same_links s s') /\
  two_blocks fresh = Ok (Arena 4148) tail_behind_free /\
  free (Arena 4148) tail_behind_free = Ok tt tail_still_linked /\
  chain (mem tail_still_linked) (FreeList tail_still_linked)
    [(4096, Block.mk 8 (Arena 4124) true true);
     (4124, Block.mk 4 NULL true true)].
Proof.
  split; [exact free_tail_same_links|].
  split; [vm_compute; reflexivity|].
  split; [vm_compute; reflexivity|].
  repeat (constructor; [reflexivity|]). constructor.
Qed.

Lemma free_tail_leaves_block_linked_witness :
  same_links tail_behind_free tail_still_linked.
Proof.
  apply (proj1 free_tail_leaves_block_linked tail_behind_free 4148
           (Block.mk 4 NULL false true)).
  - reflexivity.
  - reflexivity.
  - vm_compute. reflexivity.
Defined.

(** ** Splitting *)

(** All that the split writes: the found header gets the requested size and
    the address of [temp] as its successor.  No header is created. *)
Lemma split_writes_stack_address next size s s' :
  split next size s = Ok tt s' ->
  exists a b,
    next = Arena a /\ mem s !! a = Some b /\
    mem s' = <[a := Block.mk size StackTemp (Block.free b) (Block.dirty b)]>
               (mem s).
Proof.
  intros H.
  refine (wp_Ok _
    (fun _ s' => exists a b,
       next = Arena a /\ mem s !! a = Some b /\
       mem s' = <[a := Block.mk size StackTemp (Block.free b) (Block.dirty b)]>
                  (mem s)) _ _ _ _ H).
  unfold split. wp_run.
  exists a, b. split; [reflexivity|]. split; [assumption|].
  rewrite lookup_insert_eq in L0. simplify_eq.
  rewrite insert_insert_eq. reflexivity.
Qed.

(** C2, evaluated on the code: the split shrinks the found block to the
    request, but the remainder is the automatic variable [temp] of the call.
    The found block's [next] holds the address of that variable and the data
    segment gets no second header, so after [malloc] has returned the chain
    from the head ends in dead storage, and the next allocation that walks
    past the found block reads it. *)
Theorem split_remainder_is_stack_storage :
  (forall next size s s',
     split next size s = Ok tt s' ->
     exists a b,
       next = Arena a /\ mem s !! a = Some b /\
       mem s' = <[a := Block.mk size StackTemp (Block.free b) (Block.dirty b)]>
                  (mem s)) /\
  (let* a := malloc FIT 1000 in free a) fresh = Ok tt freed_1000 /\
  malloc FIT 100 freed_1000 = Ok (Arena 4120) after_split /\
  (forall l, ~ chain (mem after_split) (FreeList after_split) l) /\
  malloc FIT 900 after_split = Undef.
Proof.
  split; [exact split_writes_stack_address|].
  split; [vm_compute; reflexivity|].
  split; [vm_compute; reflexivity|].
  split; [|vm_compute; reflexivity].
  intros l Hc. inversion Hc as [|a b l' Ha Hn]; subst.
  vm_compute in Ha. simplify_eq. inversion Hn.
Qed.

Lemma split_remainder_is_stack_storage_witness :
  exists a b,
    Arena 4096 = Arena a /\ mem freed_1000 !! a = Some b /\
    mem split_only
    = <[a := Block.mk 100 StackTemp (Block.free b) (Block.dirty b)]>
        (mem freed_1000).
Proof.
  apply (proj1 split_remainder_is_stack_storage (Arena 4096) 100 freed_1000).
  vm_compute. reflexivity.
Defined.

(** ** Heap growth *)

Lemma sbrk_denied s n : os_denies s n = true -> sbrk n s = Ok MinusOne s.
Proof.
  unfold os_denies, sbrk. intros H.
  apply andb_true_iff in H as [H1 H2].
  apply negb_true_iff in H1, H2. rewrite H1, H2. reflexivity.
Qed.

(** C3, evaluated on the code.  When the system denies the extension,
    [growHeap] does not return: [curr] is the break reported by [sbrk(0)],
    [prev] is [-1], and the assertion that compares them kills the process.
    The same assertion is all that happens on any other mismatch of the two
    values.  The test for [-1] looks at [curr], which is never [-1], so no
    call of [growHeap] returns null. *)
Theorem growHeap_denied_aborts :
  (forall s last size,
     os_denies s (to_intptr (to_size_t (HDR + size))) = true ->
     growHeap last size s = Abort) /\
  (forall curr prev last size s,
     curr <> prev -> growHeap_body curr prev last size s = Abort) /\
  (forall s last size r s', growHeap last size s = Ok r s' -> r <> NULL).
Proof.
  split; [|split].
  - intros s last size H. unfold growHeap, bind.
    assert (Hn : to_intptr (to_size_t (HDR + size)) <> 0).
    { intros E. rewrite E in H. discriminate. }
    unfold sbrk at 1. cbn. rewrite (sbrk_denied _ _ H). reflexivity.
  - intros curr prev last size s Hne. unfold growHeap_body, bind, assert.
    apply ptr_eqb_neq in Hne. rewrite Hne. reflexivity.
  - intros s last size r s' H.
    refine (wp_Ok _ (fun r _ => r <> NULL) _ _ _ _ H).
    unfold growHeap. apply wp_bind, wp_sbrk; [intros _|done..].
    apply wp_bind. apply wp_intro. intros prev s1 _.
    unfold growHeap_body. wp_run; done.
Qed.

Lemma growHeap_denied_aborts_witness :
  growHeap NULL 4 (initial 4096 4100) = Abort.
Proof. apply (proj1 growHeap_denied_aborts). reflexivity. Defined.

(** ** Worst fit *)

(** C4, evaluated on the code: with free blocks of 100 and 152 bytes and a
    request of 60 bytes the scan returns the block of 100 bytes.  Its
    surplus 40 exceeds the initial [max] of 0, after which [max] holds the raw
    size 100, and the surplus 92 of the block of 152 bytes is not above
    that. *)
Theorem worst_fit_keeps_smaller_surplus :
  worst_fit_heap fresh = Ok tt worst_fit_state /\
  chain (mem worst_fit_state) (FreeList worst_fit_state)
    [(4096, Block.mk 100 (Arena 4220) true true);
     (4220, Block.mk 4 (Arena 4248) false true);
     (4248, Block.mk 152 NULL true true)] /\
  findFreeBlock WORST (FreeList worst_fit_state) 60 worst_fit_state
    = Ok (Arena 4096, Arena 4248) (set_num_blocks 3 worst_fit_state).
Proof.
  split; [vm_compute; reflexivity|].
  split; [|vm_compute; reflexivity].
  repeat (constructor; [reflexivity|]). constructor.
Qed.

(** ** Next fit *)

Lemma set_num_blocks_id s : set_num_blocks (num_blocks s) s = s.
Proof. destruct s; reflexivity. Qed.

Lemma set_num_blocks_twice v w s :
  set_num_blocks v (set_num_blocks w s) = set_num_blocks v s.
Proof. reflexivity. Qed.

Lemma next_fit_loop_scan S l : forall fuel curr last s,
  chain (mem s) curr l ->
  (length l < fuel)%nat ->
  num_blocks s + Z.of_nat (length l) <= INT_MAX ->
  next_fit_loop fuel S curr last s =
    Ok ((next_scan S l last).1.1, (next_scan S l last).1.2)
       (set_num_blocks (num_blocks s + Z.of_nat (next_scan S l last).2) s).
Proof.
  induction l as [|[a b] l IH]; intros fuel curr last s Hc Hf Hn;
    (destruct fuel as [|fuel]; [cbn in Hf; lia|]); inversion Hc; subst.
  - cbn. rewrite Z.add_0_r, set_num_blocks_id. reflexivity.
  - cbn [next_fit_loop next_scan length ptr_eqb] in *.
    unfold bind at 1. unfold load at 1.
    match goal with H : mem s !! a = Some b |- _ => rewrite H end.
    fold (fits S b). destruct (fits S b).
    + cbn. rewrite Z.add_0_r, set_num_blocks_id. reflexivity.
    + unfold bind, incr, int_succ.
      destruct (Z.ltb_spec (num_blocks s) INT_MAX) as [_|Hge]; [|lia].
      rewrite IH; cbn [mem set_num_blocks num_blocks]; auto; try lia.
      destruct (next_scan S l (Arena a)) as [[r la] n]. cbn.
      rewrite set_num_blocks_twice. do 2 f_equal. lia.
Qed.

(** [next_scan] returns the first fitting block of the list, or null when
    no block of the list fits. *)
Lemma next_scan_spec S l : forall last,
  ((next_scan S l last).1.1 = NULL /\
   forall x, x ∈ l -> fits S x.2 = false) \/
  (exists a b l1 l2,
     (next_scan S l last).1.1 = Arena a /\ l = l1 ++ (a, b) :: l2 /\
     fits S b = true /\ forall x, x ∈ l1 -> fits S x.2 = false).
Proof.
  induction l as [|[a b] l IH]; intros last; cbn.
  - left. split; auto. intros x Hx. inversion Hx.
  - destruct (fits S b) eqn:Hfit.
    + right. exists a, b, [], l. repeat split; auto.
      intros x Hx. inversion Hx.
    + specialize (IH (Arena a)).
      destruct (next_scan S l (Arena a)) as [[r la] n]. cbn in *.
      destruct IH as [[-> Hall]|(a' & b' & l1 & l2 & -> & -> & Hf' & Hall)].
      * left. split; auto. intros x Hx.
        apply elem_of_cons in Hx as [->|Hx]; auto.
      * right. exists a', b', ((a, b) :: l1), l2. repeat split; auto.
        intros x Hx. apply elem_of_cons in Hx as [->|Hx]; auto.
Qed.

(** C5 as stated fails on the code: with the cursor on [B] and the free block
    [A] before it, the next search misses and the heap grows, which leaves
    the cursor null; the search after that starts from the head again and
    selects [A]. *)
Lemma next_fit_selects_block_before_cursor :
  exists s1 s2,
    next_fit_heap fresh = Ok tt cursor_on_B /\
    chain (mem cursor_on_B) (FreeList cursor_on_B)
      [(4096, Block.mk 4 (Arena 4124) true true);
       (4124, Block.mk 4 NULL false true)] /\
    Final cursor_on_B = Arena 4124 /\
    malloc NEXT 4 cursor_on_B = Ok (Arena 4176) s1 /\
    num_grows s1 = num_grows cursor_on_B + 1 /\ Final s1 = NULL /\
    malloc NEXT 4 s1 = Ok (Arena 4120) s2 /\
    num_grows s2 = num_grows s1 /\ Final s2 = Arena 4096.
Proof.
  eexists _, _. split; [vm_compute; reflexivity|].
  split; [repeat (constructor; [reflexivity|]); constructor|].
  split; [reflexivity|].
  split; [vm_compute; reflexivity|].
  split; [reflexivity|]. split; [reflexivity|].
  split; [vm_compute; reflexivity|].
  split; reflexivity.
Qed.

(** C5, amended: a next-fit search on a heap whose chain ends starts at the
    cursor, or at the head when the cursor is null.  It returns the first
    free block of size at least [S] from there on, or null when there is none
    up to the tail, and never a block that lies before the starting point.
    The cursor is then the block returned, so it is null after a miss. *)
Theorem next_fit_scans_from_cursor s last S l :
  chain (mem s) (cursor s) l ->
  Z.of_nat (size (mem s)) <= INT_MAX ->
  exists r last' s',
    findFreeBlock NEXT last S s = Ok (r, last') s' /\
    Final s' = r /\ mem s' = mem s /\ FreeList s' = FreeList s /\
    ((r = NULL /\ forall x, x ∈ l -> fits S x.2 = false) \/
     (exists a b l1 l2,
        r = Arena a /\ l = l1 ++ (a, b) :: l2 /\ fits S b = true /\
        forall x, x ∈ l1 -> fits S x.2 = false)) /\
    (forall pre, chain (mem s) (FreeList s) (pre ++ l) ->
       forall x, x ∈ pre -> r <> Arena x.1).
Proof.
  intros Hc Hsz.
  pose proof (chain_length _ _ _ Hc) as Hlen.
  assert (Hrun : findFreeBlock NEXT last S s =
    Ok ((next_scan S l last).1.1, (next_scan S l last).1.2)
       (set_Final (next_scan S l last).1.1
          (set_num_blocks (Z.of_nat (next_scan S l last).2)
             (set_Final (cursor s) s)))).
  { unfold findFreeBlock, bind, gets, modify, when, cursor, fuel_of in *.
    cbn [Final FreeList set_num_blocks set_Final mem].
    destruct (ptr_eqb (Final s) NULL) eqn:Hfin;
      unfold ret; cbn [Final FreeList set_num_blocks set_Final mem];
      rewrite (next_fit_loop_scan S l);
      cbn [Final FreeList set_num_blocks set_Final mem num_blocks];
      auto; try lia;
      destruct (next_scan S l last) as [[r la] n]; cbn [fst snd];
      try reflexivity; destruct s; reflexivity. }
  rewrite Hrun. eexists _, _, _. split; [reflexivity|].
  split; [reflexivity|]. split; [reflexivity|]. split; [reflexivity|].
  destruct (next_scan_spec S l last) as [[Hr Hall]|
    (a & b & l1 & l2 & Hr & -> & Hfit & Hall)]; rewrite Hr.
  - split; [left; auto|]. intros pre _ x _. done.
  - split; [right; exists a, b, l1, l2; auto|].
    intros pre Hpre x Hx Heq. simplify_eq.
    apply chain_NoDup in Hpre. rewrite fmap_app in Hpre.
    apply NoDup_app in Hpre as (_ & Hdisj & _).
    apply (Hdisj x.1).
    + apply list_elem_of_fmap. eauto.
    + rewrite fmap_app. apply elem_of_app. right. cbn. left.
Qed.

Lemma next_fit_scans_from_cursor_witness :
  exists r last' s',
    findFreeBlock NEXT NULL 4 cursor_on_B = Ok (r, last') s' /\
    Final s' = r /\ mem s' = mem cursor_on_B /\
    FreeList s' = FreeList cursor_on_B /\
    ((r = NULL /\
      forall x, x ∈ [(4124, Block.mk 4 NULL false true)] ->
                fits 4 x.2 = false) \/
     (exists a b l1 l2,
        r = Arena a /\
        [(4124, Block.mk 4 NULL false true)] = l1 ++ (a, b) :: l2 /\
        fits 4 b = true /\ forall x, x ∈ l1 -> fits 4 x.2 = false)) /\
    (forall pre,
       chain (mem cursor_on_B) (FreeList cursor_on_B)
         (pre ++ [(4124, Block.mk 4 NULL false true)]) ->
       forall x, x ∈ pre -> r <> Arena x.1).
Proof.
  apply next_fit_scans_from_cursor.
  - repeat (constructor; [reflexivity|]). constructor.
  - vm_compute. discriminate.
Defined.

(** ** Zero-size requests *)

(** A request for zero bytes is not without effect when it is the first call
    of the process: the registration of the exit handler comes before the
    test of the size, and the state the call leaves is not the state it
    started from. *)
Lemma malloc_zero_registers_handler :
  exists s',
    malloc FIT 0 fresh = Ok NULL s' /\ s' <> fresh /\
    atexit_registered fresh = 0 /\ atexit_registered s' = 1.
Proof.
  eexists. split; [vm_compute; reflexivity|]. split; [|split; reflexivity].
  intros H. apply (f_equal atexit_registered) in H. discriminate.
Qed.

(** C6, amended: [malloc(0)] returns null from every state under every
    policy, and the state it leaves has the same headers, the same chain
    head and cursor, the same break and the same nine counters.  Its one
    effect is that of the first call of the process, which records the
    registration of the exit handler; once that is recorded, the call
    leaves the state exactly as it was. *)
Theorem malloc_zero_returns_null pol s :
  exists s',
    malloc pol 0 s = Ok NULL s' /\
    s' = (if atexit_registered s =? 0 then set_atexit_registered 1 s else s) /\
    mem s' = mem s /\ FreeList s' = FreeList s /\ Final s' = Final s /\
    brk s' = brk s /\
    num_mallocs s' = num_mallocs s /\ num_frees s' = num_frees s /\
    num_reuses s' = num_reuses s /\ num_grows s' = num_grows s /\
    num_splits s' = num_splits s /\ num_coalesces s' = num_coalesces s /\
    num_blocks s' = num_blocks s /\ num_requested s' = num_requested s /\
    max_heap s' = max_heap s.
Proof.
  unfold malloc, bind, gets, when. change (ALIGN4 0 =? 0) with true. cbn.
  destruct (atexit_registered s =? 0); cbn; eexists; (split; [reflexivity|]);
    repeat split.
Qed.

(** ** Best fit *)

(** The loop computes [best_scan] and changes nothing but [num_blocks]. *)
Lemma best_fit_loop_scan S l : forall fuel curr best s,
  chain (mem s) curr l ->
  (forall a bb, best = Some (a, bb) -> mem s !! a = Some bb) ->
  (length l < fuel)%nat ->
  num_blocks s + Z.of_nat (length l) <= INT_MAX ->
  best_fit_loop fuel S curr (ptr_of best) s =
    Ok (ptr_of (best_scan S l best).1)
       (set_num_blocks (num_blocks s + Z.of_nat (best_scan S l best).2) s).
Proof.
  induction l as [|[a b] l IH]; intros fuel curr best s Hc Hb Hf Hn;
    (destruct fuel as [|fuel]; [cbn in Hf; lia|]); inversion Hc; subst.
  - cbn. rewrite Z.add_0_r, set_num_blocks_id. reflexivity.
  - cbn [best_fit_loop best_scan length] in *.
    cbn [ptr_eqb].
    unfold bind at 1. unfold incr, int_succ.
    destruct (Z.ltb_spec (num_blocks s) INT_MAX) as [_|Hge]; [|lia].
    unfold bind at 1. unfold load at 1. cbn [mem set_num_blocks].
    match goal with H : mem s !! a = Some b |- _ => rewrite H end.
    unfold fits.
    assert (Hbetter :
      (let* better :=
         if Block.free b && (S <=? Block.size b)
         then if ptr_eqb (ptr_of best) NULL then ret true
              else let* bb := load (ptr_of best) in
                   ret (Block.size b <? Block.size bb)
         else ret false in
       if better
       then if Block.size b =? S then ret (Arena a)
            else best_fit_loop fuel S (Block.next b) (Arena a)
       else best_fit_loop fuel S (Block.next b) (ptr_of best))
        (set_num_blocks (num_blocks s + 1) s)
      = (if Block.free b && (S <=? Block.size b) &&
            match best with
            | None => true
            | Some (_, bb) => Block.size b <? Block.size bb
            end
         then if Block.size b =? S then ret (Arena a)
              else best_fit_loop fuel S (Block.next b) (Arena a)
         else best_fit_loop fuel S (Block.next b) (ptr_of best))
        (set_num_blocks (num_blocks s + 1) s)).
    { unfold bind. destruct (Block.free b && (S <=? Block.size b)); cbn; auto.
      destruct best as [[a0 bb]|]; cbn; auto.
      rewrite (Hb a0 bb eq_refl). reflexivity. }
    etrans; [exact Hbetter|]. clear Hbetter.
    destruct (Block.free b && (S <=? Block.size b) && _) eqn:Hsel.
    + destruct (Block.size b =? S); [reflexivity|].
      change (Arena a) with (ptr_of (Some (a, b))) at 1.
      rewrite IH; cbn [mem set_num_blocks num_blocks]; auto; try lia.
      2: { intros ? ? [= <- <-]. assumption. }
      destruct (best_scan S l (Some (a, b))) as [r n]. cbn.
      rewrite set_num_blocks_twice. do 2 f_equal. lia.
    + rewrite IH; cbn [mem set_num_blocks num_blocks]; auto; try lia.
      destruct (best_scan S l best) as [r n]. cbn.
      rewrite set_num_blocks_twice. do 2 f_equal. lia.
Qed.

(** What [best_scan] returns: either the candidate it started with, because
    nothing on the list beats it, or a block of the list that fits, is
    strictly smaller than every fitting block before it and at most as large
    as every fitting block after it.  The scan stops right after a block of
    exactly the requested size and otherwise visits the whole list. *)
Lemma best_scan_spec S l : forall best r n,
  best_scan S l best = (r, n) ->
  (r = best /\ n = length l /\
   forall x, x ∈ l -> fits S x.2 = true ->
     match best with
     | None => False
     | Some (_, bb) => Block.size bb <= Block.size x.2
     end) \/
  (exists a b l1 l2,
     r = Some (a, b) /\ l = l1 ++ (a, b) :: l2 /\ fits S b = true /\
     match best with
     | None => True
     | Some (_, bb) => Block.size b < Block.size bb
     end /\
     (forall x, x ∈ l1 -> fits S x.2 = true -> Block.size b < Block.size x.2) /\
     (forall x, x ∈ l2 -> fits S x.2 = true -> Block.size b <= Block.size x.2) /\
     n = if Block.size b =? S then Datatypes.S (length l1) else length l).
Proof.
  induction l as [|[a b] l IH]; intros best r n H; cbn in H.
  - simplify_eq. left. repeat split. intros x Hx. inversion Hx.
  - destruct (fits S b && _) eqn:Hsel.
    + apply andb_true_iff in Hsel as [Hfit Hbetter].
      destruct (Z.eqb_spec (Block.size b) S) as [Heq|Hne].
      * simplify_eq. right. exists a, b, [], l.
        rewrite Z.eqb_refl. repeat split; auto.
        -- destruct best as [[? ?]|]; [lia|done].
        -- intros x Hx. inversion Hx.
        -- intros x _ Hx. unfold fits in Hx. lia.
      * destruct (best_scan S l (Some (a, b))) as [r' n'] eqn:Hrec.
        simplify_eq.
        destruct (IH _ _ _ Hrec) as [(-> & -> & Hall)|
          (a' & b' & l1 & l2 & -> & -> & Hfit' & Hlt & H1 & H2 & ->)].
        -- right. exists a, b, [], l. repeat split; auto.
           ++ destruct best as [[? ?]|]; [lia|done].
           ++ intros x Hx. inversion Hx.
           ++ destruct (Z.eqb_spec (Block.size b) S); [done|reflexivity].
        -- right. exists a', b', ((a, b) :: l1), l2. repeat split; auto.
           ++ destruct best as [[? ?]|]; [lia|done].
           ++ intros x Hx Hfx. apply elem_of_cons in Hx as [->|Hx]; auto.
           ++ destruct (Block.size b' =? S); reflexivity.
    + destruct (best_scan S l best) as [r' n'] eqn:Hrec. simplify_eq.
      assert (Hhead : fits S b = true ->
                match best with
                | None => False
                | Some (_, bb) => Block.size bb <= Block.size b
                end).
      { intros Hfit. rewrite Hfit in Hsel. cbn in Hsel.
        destruct best as [[? ?]|]; [lia|done]. }
      destruct (IH _ _ _ Hrec) as [(-> & -> & Hall)|
          (a' & b' & l1 & l2 & -> & -> & Hfit' & Hlt & H1 & H2 & ->)].
      * left. repeat split. intros x Hx Hfx.
        apply elem_of_cons in Hx as [->|Hx];
          [exact (Hhead Hfx)|exact (Hall x Hx Hfx)].
      * right. exists a', b', ((a, b) :: l1), l2. repeat split; auto.
        -- intros x Hx Hfx. apply elem_of_cons in Hx as [->|Hx]; auto.
           cbn in *. specialize (Hhead Hfx).
           destruct best as [[? ?]|]; [lia|done].
        -- destruct (Block.size b' =? S); reflexivity.
Qed.

(** C7: under the best-fit policy, on a heap whose chain ends (and holds
    fewer than [2^31] headers, the range of the scan counter), the search
    returns.  It returns null exactly when no block of the chain is free with
    size at least [S], after visiting every block.  Otherwise it returns a
    free block with size at least [S] that is strictly smaller than every such
    block before it on the chain and no larger than every such block after
    it; it has visited the chain up to and including that block when the
    block has size exactly [S], and the whole chain otherwise.  With free
    blocks of 10, 50 and 5 bytes a request for 6 bytes selects the block of
    10 bytes. *)
Theorem best_fit_selects_smallest :
  (forall s last S l,
     chain (mem s) (FreeList s) l ->
     Z.of_nat (size (mem s)) <= INT_MAX ->
     exists r s',
       findFreeBlock BEST last S s = Ok (r, last) s' /\
       mem s' = mem s /\
       ((r = NULL /\ (forall x, x ∈ l -> fits S x.2 = false) /\
         num_blocks s' = Z.of_nat (length l)) \/
        (exists a b l1 l2,
           r = Arena a /\ l = l1 ++ (a, b) :: l2 /\
           Block.free b = true /\ S <= Block.size b /\
           (forall x, x ∈ l1 -> fits S x.2 = true ->
                      Block.size b < Block.size x.2) /\
           (forall x, x ∈ l2 -> fits S x.2 = true ->
                      Block.size b <= Block.size x.2) /\
           num_blocks s' =
             if Block.size b =? S then Z.of_nat (length l1) + 1
             else Z.of_nat (length l)))) /\
  the_value (findFreeBlock BEST NULL 6 three_candidates)
    = Some (Arena 4096, NULL).
Proof.
  split; [|vm_compute; reflexivity].
  intros s last S l Hc Hsz.
  pose proof (chain_length _ _ _ Hc) as Hlen.
  unfold findFreeBlock, bind, gets, modify.
  change NULL with (ptr_of None) at 1.
  rewrite (best_fit_loop_scan S l); unfold fuel_of;
    cbn [mem set_num_blocks num_blocks]; auto; try lia; try done.
  destruct (best_scan S l None) as [r n] eqn:Hscan. cbn [fst snd].
  eexists _, _. split; [reflexivity|]. split; [reflexivity|].
  destruct (best_scan_spec _ _ _ _ _ Hscan) as [(-> & -> & Hall)|
    (a & b & l1 & l2 & -> & -> & Hfit & _ & H1 & H2 & ->)].
  - left. repeat split; auto.
    intros x Hx. destruct (fits S x.2) eqn:Hfx; auto.
    destruct (Hall x Hx Hfx).
  - right. exists a, b, l1, l2. unfold fits in Hfit.
    apply andb_true_iff in Hfit as [Hfree Hge].
    repeat split; auto; [lia|].
    cbn. destruct (Block.size b =? S); lia.
Qed.

Lemma best_fit_selects_smallest_witness :
  exists r s',
    findFreeBlock BEST NULL 6 three_candidates = Ok (r, NULL) s' /\
    mem s' = mem three_candidates /\
    ((r = NULL /\ (forall x, x ∈ three_chain -> fits 6 x.2 = false) /\
      num_blocks s' = Z.of_nat (length three_chain)) \/
     (exists a b l1 l2,
        r = Arena a /\ three_chain = l1 ++ (a, b) :: l2 /\
        Block.free b = true /\ 6 <= Block.size b /\
        (forall x, x ∈ l1 -> fits 6 x.2 = true ->
                   Block.size b < Block.size x.2) /\
        (forall x, x ∈ l2 -> fits 6 x.2 = true ->
                   Block.size b <= Block.size x.2) /\
        num_blocks s' =
          if Block.size b =? 6 then Z.of_nat (length l1) + 1
          else Z.of_nat (length three_chain))).
Proof.
  apply (proj1 best_fit_selects_smallest).
  - repeat (constructor; [reflexivity|]). constructor.
  - vm_compute. discriminate.
Defined.

(** ** Alignment and the requested-bytes counter *)

(** C8 as stated fails on the code at the top of the [size_t] range, where
    the rounding wraps around to 0 and the request is answered with null,
    and for the counter, which is an [int]: a successful request for [2^31]
    bytes leaves it at [-2^31]. *)
Lemma align4_wraps_and_counter_wraps :
  1 <= 2 ^ 64 - 1 /\ ALIGN4 (2 ^ 64 - 1) = 0 /\
  the_value (malloc FIT (2 ^ 64 - 1) fresh) = Some NULL /\
  exists s,
    malloc FIT (2 ^ 31) (initial 4096 (2 ^ 33)) = Ok (Arena 4120) s /\
    ALIGN4 (2 ^ 31) = 2 ^ 31 /\
    num_requested (initial 4096 (2 ^ 33)) = 0 /\
    num_requested s = - 2 ^ 31.
Proof.
  split; [done|]. split; [reflexivity|]. split; [vm_compute; reflexivity|].
  eexists. split; [vm_compute; reflexivity|].
  repeat split.
Qed.

Global Instance same_requested_stable : Stable same_requested.
Proof.
  split; [split|..]; unfold same_requested; try done.
  intros s1 s2 s3. congruence.
Qed.

Lemma growHeap_same_requested last size :
  preserves same_requested (growHeap last size).
Proof.
  intros s. unfold growHeap, growHeap_body.
  apply wp_bind, wp_sbrk; [intros _|done..].
  apply wp_bind, wp_sbrk; intros Hn; wp_run; reflexivity.
Qed.

Lemma malloc_requested pol size s :
  wp (malloc pol size)
     (fun p s' => p <> NULL ->
        num_requested s' = to_int (num_requested s + ALIGN4 size)) s.
Proof.
  unfold malloc.
  repeat first
    [ lazymatch goal with
      | |- wp (findFreeBlock _ _ _) _ _ =>
          eapply wp_mono;
          [apply (findFreeBlock_preserves same_requested)|intros ? ? ?]
      | |- wp (split _ _) _ _ =>
          eapply wp_mono;
          [apply (split_preserves same_requested)|intros ? ? ?]
      | |- wp (growHeap _ _) _ _ =>
          eapply wp_mono;
          [apply growHeap_same_requested|intros ? ? ?]
      end; cbv beta
    | wp_step ].
  all: try done.
  all: intros _; unfold same_requested in *; simpl_state.
  all: rewrite to_int_add_size_t; congruence.
Qed.

Lemma ALIGN4_wraps size :
  SIZE_MOD - 4 < size < SIZE_MOD -> ALIGN4 size = 0.
Proof.
  unfold ALIGN4, to_size_t. change SIZE_MOD with 18446744073709551616.
  intros H. rewrite (Z.mod_small (size - 1)) by lia.
  rewrite Z.shiftr_div_pow2, Z.shiftl_mul_pow2 by lia. change (2 ^ 2) with 4.
  assert (Hq : (size - 1) / 4 = 4611686018427387903).
  { symmetry.
    apply (Z.div_unique _ _ _ (size - 1 - 18446744073709551612)); lia. }
  rewrite Hq. reflexivity.
Qed.

(** C8, amended: for every requested size from 1 up to [2^64 - 4], [malloc]
    works with the smallest multiple of 4 that is at least the requested
    size, and behaves as it does on that rounded size itself; on every
    successful allocation the counter of requested bytes becomes its old
    value plus the rounded size reduced to the range of a 32-bit [int],
    which is the exact sum whenever that sum is representable.  For the
    three sizes above [2^64 - 4] the rounding wraps around to 0 and [malloc]
    returns null. *)
Theorem malloc_aligns_and_counts :
  (forall pol size s p s',
     1 <= size <= SIZE_MOD - 4 ->
     malloc pol size s = Ok p s' -> p <> NULL ->
     (ALIGN4 size mod 4 = 0 /\ size <= ALIGN4 size /\
      forall m, m mod 4 = 0 -> size <= m -> ALIGN4 size <= m) /\
     malloc pol (ALIGN4 size) s = Ok p s' /\
     num_requested s' = to_int (num_requested s + ALIGN4 size) /\
     (INT_MIN <= num_requested s + ALIGN4 size <= INT_MAX ->
      num_requested s' = num_requested s + ALIGN4 size)) /\
  (forall pol size s,
     SIZE_MOD - 4 < size < SIZE_MOD ->
     ALIGN4 size = 0 /\ the_value (malloc pol size s) = Some NULL).
Proof.
  split.
  - intros pol size s p s' Hsize Hm Hp. split; [by apply ALIGN4_least|]. split.
    + rewrite <- Hm. unfold malloc. rewrite ALIGN4_idem. reflexivity.
    + pose proof (wp_Ok _ _ _ _ _ (malloc_requested pol size s) Hm Hp) as ->.
      split; [reflexivity|]. apply to_int_small.
  - intros pol size s Hsize. pose proof (ALIGN4_wraps size Hsize) as Hz.
    split; [exact Hz|].
    unfold malloc, bind, gets, when. rewrite Hz. cbn.
    destruct (atexit_registered s =? 0); reflexivity.
Qed.

Lemma malloc_aligns_and_counts_witness :
  malloc FIT 5 fresh = Ok (Arena 4120) eight_bytes /\
  ALIGN4 5 = 8 /\
  malloc FIT 8 fresh = Ok (Arena 4120) eight_bytes /\
  num_requested eight_bytes = num_requested fresh + 8.
Proof.
  assert (H : malloc FIT 5 fresh = Ok (Arena 4120) eight_bytes)
    by (vm_compute; reflexivity).
  split; [exact H|]. split; [reflexivity|].
  destruct (proj1 malloc_aligns_and_counts FIT 5 fresh (Arena 4120)
              eight_bytes) as (_ & H1 & _ & H2);
    [vm_compute; split; discriminate|exact H|discriminate|].
  split; [exact H1|]. apply H2. vm_compute. split; discriminate.
Defined.

(** ** The statistics counters *)

(** Three counters go down.  The scan counter: a search that visits one
    block leaves it at 1, the next search finds the first block at once and
    leaves it at 0.  The requested bytes and the largest growth: a first
    request for [2^31] bytes, which returns, leaves both at [-2^31]. *)
Lemma three_counters_decrease :
  (exists s s',
     two_blocks fresh = Ok (Arena 4148) s /\ num_blocks s = 1 /\
     malloc FIT 4 s = Ok (Arena 4120) s' /\ num_blocks s' = 0) /\
  malloc FIT (2 ^ 31) large = Ok (Arena 4120) two_gigabytes /\
  num_requested large = 0 /\ num_requested two_gigabytes = - 2 ^ 31 /\
  max_heap large = 0 /\ max_heap two_gigabytes = - 2 ^ 31.
Proof.
  split.
  - eexists _, _. split; [vm_compute; reflexivity|]. split; [reflexivity|].
    split; [vm_compute; reflexivity|]. reflexivity.
  - split; [vm_compute; reflexivity|]. repeat split.
Qed.

Global Instance counts_le_stable : Stable counts_le.
Proof.
  split.
  - split.
    + intros s. unfold counts_le. lia.
    + intros s1 s2 s3. unfold counts_le. lia.
  - intros v s. unfold counts_le. cbn. lia.
  - intros v s. unfold counts_le. cbn. lia.
  - intros s H. unfold counts_le. cbn. lia.
  - intros s H. unfold counts_le. cbn. lia.
  - intros s H. unfold counts_le. cbn. lia.
  - intros s a b f _ _. unfold counts_le. cbn. lia.
Qed.

Global Instance max_heap_step_stable : Stable max_heap_step.
Proof.
  split; [split|..]; unfold max_heap_step.
  - intros s. lia.
  - intros s1 s2 s3. lia.
  - intros v s. cbn. lia.
  - intros v s. cbn. lia.
  - intros s H. cbn. lia.
  - intros s H. cbn. lia.
  - intros s H. cbn. lia.
  - intros s a b f _ _. cbn. lia.
Qed.

(** [malloc] up to its last statements: the search and the split keep a
    stable relation [R], and [grow] shows that [growHeap] keeps it. *)
Ltac through R grow :=
  unfold malloc;
  repeat first
    [ lazymatch goal with
      | |- wp (findFreeBlock _ _ _) _ _ =>
          eapply wp_mono;
          [apply (findFreeBlock_preserves R)|intros ? ? ?]
      | |- wp (split _ _) _ _ =>
          eapply wp_mono;
          [apply (split_preserves R)|intros ? ? ?]
      | |- wp (growHeap _ _) _ _ =>
          eapply wp_mono; [grow|intros ? ? ?]
      end; cbv beta
    | wp_step ].

Lemma growHeap_counts last size : preserves counts_le (growHeap last size).
Proof.
  intros s. unfold growHeap, growHeap_body.
  apply wp_bind, wp_sbrk; [intros _|done..].
  apply wp_bind, wp_sbrk; intros Hn; wp_run;
    unfold counts_le; simpl_state; lia.
Qed.

Lemma growHeap_max_heap last size :
  0 <= size <= INT_MAX -> preserves max_heap_step (growHeap last size).
Proof.
  intros Hsize s. unfold growHeap, growHeap_body.
  apply wp_bind, wp_sbrk; [intros _|done..].
  apply wp_bind, wp_sbrk; intros Hn; wp_run;
    unfold max_heap_step; simpl_state; try lia.
  all: rewrite to_int_small by (unfold INT_MIN; lia).
  all: match goal with
       | H : (to_size_t _ <? _) = true |- _ => apply Z.ltb_lt in H
       end.
  all: assert (max_heap s <= INT_MAX -> max_heap s <= size)
         by (intros; destruct (Z.le_gt_cases 0 (max_heap s));
             [rewrite to_size_t_small in *
                by (unfold SIZE_MOD, INT_MAX in *; lia)|]; lia).
  all: lia.
Qed.

(** The six counters, over one call of [malloc]. *)
Lemma malloc_counts pol size s :
  wp (malloc pol size) (fun _ s' => counts_le s s') s.
Proof.
  through counts_le ltac:(apply growHeap_counts).
  all: unfold counts_le in *; simpl_state; lia.
Qed.

(** The requested bytes, over one call of [malloc] that keeps the total
    representable. *)
Lemma malloc_requested_le pol size s :
  INT_MIN <= num_requested s -> total_fits (ALIGN4 size) s ->
  wp (malloc pol size)
     (fun _ s' => num_requested s <= num_requested s') s.
Proof.
  unfold total_fits. intros Hreq Hsum.
  pose proof (ALIGN4_range size) as Hal.
  through same_requested ltac:(apply growHeap_same_requested).
  all: unfold same_requested in *; simpl_state.
  all: try rewrite to_int_add_size_t.
  all: try rewrite to_int_small by lia.
  all: lia.
Qed.

(** The largest growth, over one call of [malloc] for at most [INT_MAX]
    bytes. *)
Lemma malloc_max_heap pol size s :
  request_fits (ALIGN4 size) s ->
  wp (malloc pol size) (fun _ s' => max_heap_step s s') s.
Proof.
  unfold request_fits. intros Hsize.
  pose proof (ALIGN4_range size) as Hal.
  through max_heap_step ltac:(apply growHeap_max_heap; lia).
  all: unfold max_heap_step in *; simpl_state; lia.
Qed.

(** C9, amended.  Over every sequence of calls that return, the six
    counters that are only incremented never decrease.  The requested bytes
    never decrease as long as every request keeps their total within the
    range of its [int], and the largest growth never decreases as long as
    every aligned size requested is the value of an [int].  The scan counter
    is restarted from zero by every search: what a search leaves in it does
    not depend on what it held before. *)
Theorem counters_monotone :
  (forall pol s s', rtc (transition pol) s s' -> counts_le s s') /\
  (forall pol s s',
     INT_MIN <= num_requested s -> rtc (call total_fits pol) s s' ->
     num_requested s <= num_requested s') /\
  (forall pol s s',
     max_heap s <= INT_MAX -> rtc (call request_fits pol) s s' ->
     max_heap s <= max_heap s') /\
  (forall pol last size v s,
     findFreeBlock pol last size (set_num_blocks v s)
     = findFreeBlock pol last size s).
Proof.
  split; [|split; [|split; [|reflexivity]]].
  - intros pol s s' Hrtc.
    induction Hrtc as [s|s1 s2 s3 Hstep _ IH]; [unfold counts_le; lia|].
    assert (Hle : counts_le s1 s2).
    { destruct Hstep as [size p Hm|p Hf].
      - exact (wp_Ok _ _ _ _ _ (malloc_counts pol size s1) Hm).
      - exact (wp_Ok _ _ _ _ _ (free_preserves counts_le p s1) Hf). }
    unfold counts_le in *. lia.
  - intros pol s s' Hreq Hrtc.
    induction Hrtc as [s|s1 s2 s3 Hstep _ IH]; [lia|].
    assert (Hle : num_requested s1 <= num_requested s2).
    { destruct Hstep as [size p Hok Hm|p Hf].
      - exact (wp_Ok _ _ _ _ _ (malloc_requested_le pol size s1 Hreq Hok) Hm).
      - pose proof (wp_Ok _ _ _ _ _ (free_preserves same_requested p s1) Hf)
          as Hs.
        unfold same_requested in Hs. lia. }
    specialize (IH ltac:(lia)). lia.
  - intros pol s s' Hmh Hrtc.
    induction Hrtc as [s|s1 s2 s3 Hstep _ IH]; [lia|].
    assert (Hle : max_heap_step s1 s2).
    { destruct Hstep as [size p Hok Hm|p Hf].
      - exact (wp_Ok _ _ _ _ _ (malloc_max_heap pol size s1 Hok) Hm).
      - exact (wp_Ok _ _ _ _ _ (free_preserves max_heap_step p s1) Hf). }
    specialize (Hle Hmh). specialize (IH ltac:(lia)). lia.
Qed.

Lemma counters_monotone_witness :
  malloc FIT 4 fresh = Ok (Arena 4120) one_block /\
  free (Arena 4120) one_block = Ok tt once_freed /\
  counts_le fresh once_freed /\
  num_requested fresh <= num_requested once_freed /\
  max_heap fresh <= max_heap once_freed.
Proof.
  assert (H1 : malloc FIT 4 fresh = Ok (Arena 4120) one_block)
    by (vm_compute; reflexivity).
  assert (H2 : free (Arena 4120) one_block = Ok tt once_freed)
    by (vm_compute; reflexivity).
  destruct counters_monotone as (Hsix & Hreq & Hmax & _).
  split; [exact H1|]. split; [exact H2|]. split; [|split].
  - apply (Hsix FIT).
    eapply rtc_l; [|apply rtc_once; eapply transition_free; exact H2].
    eapply transition_malloc; exact H1.
  - apply (Hreq FIT); [vm_compute; discriminate|].
    eapply rtc_l; [|apply rtc_once; eapply call_free; exact H2].
    eapply call_malloc with (size := 4); [|exact H1].
    vm_compute. discriminate.
  - apply (Hmax FIT); [vm_compute; discriminate|].
    eapply rtc_l; [|apply rtc_once; eapply call_free; exact H2].
    eapply call_malloc with (size := 4); [|exact H1].
    vm_compute. discriminate.
Defined.

(** ** Double free *)

Lemma marked_in_write a m a' b f :
  m !! a' = Some b -> keeps_free f ->
  marked_in a m -> marked_in a (<[a' := f b]> m).
Proof.
  intros Hb Hf (b0 & Hb0 & Hfree). unfold marked_in.
  destruct (decide (a' = a)) as [->|Hne].
  - rewrite lookup_insert_eq. simplify_eq. eauto.
  - rewrite lookup_insert_ne by done. eauto.
Qed.

Lemma marked_in_write_other a m a' b :
  a' <> a -> marked_in a m -> marked_in a (<[a' := b]> m).
Proof.
  intros Hne (b0 & Hb0 & Hfree). unfold marked_in.
  rewrite lookup_insert_ne by done. eauto.
Qed.

Global Instance stays_free_stable a : Stable (stays_free a).
Proof.
  split; [split|..]; unfold stays_free, marked_free; try done.
  - intros s. tauto.
  - intros s1 s2 s3. tauto.
  - intros s a' b f. apply marked_in_write.
Qed.

(** [growHeap] clears the free flag of the block it returns and of no other
    block. *)
Lemma growHeap_stays_free a last size s :
  wp (growHeap last size) (fun r s' => r <> Arena a -> stays_free a s s') s.
Proof.
  unfold growHeap, growHeap_body.
  apply wp_bind, wp_sbrk; [intros _|done..].
  apply wp_bind, wp_sbrk; intros Hn; wp_run; try done.
  all: intros Hne Hm; unfold marked_free in *; simpl_state.
  all: assert (Hbrk : brk s <> a) by congruence.
  all: repeat (apply marked_in_write_other; [exact Hbrk|]).
  all: try (apply (marked_in_write a _ _ _ (Block.set_next _));
            [eassumption|apply keeps_free_next|]).
  all: exact Hm.
Qed.

(** [malloc] clears the free flag of the block it hands out and of no
    other block. *)
Lemma malloc_stays_free pol a size s :
  wp (malloc pol size)
     (fun p s' => p <> Arena (a + HDR) -> stays_free a s s') s.
Proof.
  unfold malloc.
  repeat first
    [ lazymatch goal with
      | |- wp (findFreeBlock _ _ _) _ _ =>
          eapply wp_mono;
          [apply (findFreeBlock_preserves (stays_free a))|intros ? ? ?]
      | |- wp (split _ _) _ _ =>
          eapply wp_mono;
          [apply (split_preserves (stays_free a))|intros ? ? ?]
      | |- wp (growHeap _ _) _ _ =>
          eapply wp_mono;
          [apply (growHeap_stays_free a)|intros ? ? ?]
      end; cbv beta
    | wp_step ].
  all: unfold stays_free, marked_free in *; simpl_state; cbn [BLOCK_DATA];
    intros Hne Hm.
  all: repeat match goal with
       | H : ptr_eqb _ _ = true |- _ => apply ptr_eqb_eq in H; subst
       end.
  all: try match type of Hne with
       | Arena (?x + HDR) <> _ =>
           assert (Hx : x <> a) by congruence;
           repeat (apply marked_in_write_other; [exact Hx|])
       end.
  all: repeat match goal with
       | H : _ ≠ Arena _ → _ |- _ => specialize (H ltac:(congruence))
       end.
  all: auto.
Qed.

Lemma free_marks a s s' :
  free (Arena a) s = Ok tt s' -> marked_free (a - HDR) s'.
Proof.
  intros Hf.
  refine (wp_Ok _ (fun _ s' => marked_free (a - HDR) s') _ _ _ _ Hf).
  unfold free. cbn [ptr_eqb BLOCK_HEADER].
  wp_run.
  eapply wp_mono; [apply (coalesce_right_preserves (stays_free (a - HDR)))|].
  intros u1 s1 H1. cbv beta. wp_run.
  eapply wp_mono;
    [apply (coalesce_left_loop_preserves (stays_free (a - HDR)))|].
  intros u2 s2 H2. cbv beta. apply H2, H1.
  unfold marked_free, marked_in. simpl_state. rewrite lookup_insert_eq. eauto.
Qed.

Lemma free_marked_aborts a s :
  marked_free (a - HDR) s -> free (Arena a) s = Abort.
Proof.
  intros (b & Hb & Hfree). unfold free, bind, gets, load. cbn.
  rewrite Hb, Hfree. reflexivity.
Qed.

(** A store by the program that does not cover the free flag of the header
    at [a] leaves that flag as it is. *)
Lemma program_store_stays_free lo hi a s s' :
  program_store lo hi s s' -> apart lo hi (a + OFF_free) 1 ->
  stays_free a s s'.
Proof.
  intros (_ & m' & -> & Hdom & Hst) Hap (b & Hb & Hfree).
  unfold marked_free, marked_in. simpl_state.
  assert (Hin : is_Some (m' !! a)).
  { apply elem_of_dom. rewrite Hdom. apply elem_of_dom. eauto. }
  destruct Hin as [b' Hb']. exists b'. split; [exact Hb'|].
  destruct (Hst a b b' Hb Hb') as (_ & _ & Hflag & _).
  rewrite Hflag; auto.
Qed.

(** The flag does not outlive every run in which the pointer is not handed
    out again.  When the block at 4124 has been freed and absorbed by the
    block before it, a request for the 104 bytes of the merged block returns
    4120, another pointer, whose payload covers the header at 4124; the
    program stores a zero to one byte of that payload, the byte at 4140, and
    the second [free] of 4148 returns: it marks the block again and counts a
    third free where two blocks have been allocated. *)
Lemma double_free_counted_twice :
  merged_heap fresh = Ok (Arena 4148, Arena 4120) stale_header /\
  program_store 4140 4141 stale_header flag_cleared /\
  free (Arena 4148) flag_cleared = Ok tt freed_twice /\
  num_mallocs freed_twice = 3 /\ num_frees freed_twice = 3 /\
  num_reuses freed_twice = 1.
Proof.
  split; [vm_compute; reflexivity|]. split; [|by vm_compute].
  split.
  - exists 4096, (Block.mk 104 NULL false true).
    split; [reflexivity|]. split; [reflexivity|]. unfold HDR. cbn. lia.
  - exists (mem flag_cleared). split; [reflexivity|]. split.
    + unfold flag_cleared, stale_header. cbn [mem].
      by rewrite !dom_insert_L.
    + intros h b b'. unfold flag_cleared, stale_header. cbn [mem].
      destruct (decide (h = 4096)) as [->|H1].
      { rewrite !lookup_insert_eq. intros [= <-] [= <-]. by repeat split. }
      rewrite !(lookup_insert_ne _ 4096) by done.
      destruct (decide (h = 4124)) as [->|H2].
      { rewrite !lookup_insert_eq. intros [= <-] [= <-].
        repeat split. unfold apart, OFF_free. lia. }
      rewrite lookup_insert_ne by done. by rewrite lookup_empty.
Qed.

(** C10, amended: [free] checks the free flag of the block it recovers
    before it touches anything: called on a block that is marked free it
    aborts.  So after a call [free(p)] that returned, and any sequence of
    calls that return and do not allocate the block of [p] again and of
    stores by the program that do not cover the flag, [free(p)] aborts; the
    block is not marked a second time and no state with a second increment
    of the free counter results. *)
Theorem double_free_aborts pol :
  (forall s a b,
     mem s !! (a - HDR) = Some b -> Block.free b = true ->
     free (Arena a) s = Abort) /\
  (forall p s s1 s2,
     p <> NULL -> free p s = Ok tt s1 -> rtc (between_frees pol p) s1 s2 ->
     free p s2 = Abort).
Proof.
  split.
  - intros s a b Hb Hfree. apply free_marked_aborts. exists b. auto.
  - intros p s s1 s2 Hp Hf Hrtc.
    destruct p as [|a| |]; try done;
      try (unfold free, bind, gets, load in Hf; cbn in Hf; discriminate).
    apply free_marked_aborts.
    apply free_marks in Hf.
    induction Hrtc as [s1|s1 s2 s3 Hstep _ IH]; [assumption|].
    apply IH. destruct Hstep as [size q Hm Hq|q Hq|lo hi Hst Hap].
    + apply (wp_Ok _ _ _ _ _ (malloc_stays_free pol (a - HDR) size s1) Hm);
        [|assumption].
      replace (a - HDR + HDR) with a by lia. assumption.
    + exact (wp_Ok _ _ _ _ _ (free_preserves (stays_free (a - HDR)) q s1)
               Hq Hf).
    + apply (program_store_stays_free lo hi (a - HDR) s1 s2 Hst); [|exact Hf].
      by apply Hap.
Qed.

Lemma double_free_aborts_witness :
  free (Arena 4120) one_block = Ok tt once_freed /\
  malloc FIT 8 once_freed = Ok (Arena 4148) other_block /\
  program_store 4148 4156 other_block other_block /\
  free (Arena 4120) other_block = Abort.
Proof.
  assert (H1 : free (Arena 4120) one_block = Ok tt once_freed)
    by (vm_compute; reflexivity).
  assert (H2 : malloc FIT 8 once_freed = Ok (Arena 4148) other_block)
    by (vm_compute; reflexivity).
  assert (H3 : program_store 4148 4156 other_block other_block).
  { split.
    - exists 4124, (Block.mk 8 NULL false true).
      split; [reflexivity|]. split; [reflexivity|]. unfold HDR. cbn. lia.
    - exists (mem other_block). split; [reflexivity|]. split; [reflexivity|].
      intros h b b' Hb Hb'. rewrite Hb in Hb'. injection Hb' as <-.
      by repeat split. }
  split; [exact H1|]. split; [exact H2|]. split; [exact H3|].
  apply (proj2 (double_free_aborts FIT) (Arena 4120) one_block once_freed).
  - discriminate.
  - exact H1.
  - eapply rtc_l; [eapply between_malloc; [exact H2|discriminate]|].
    apply rtc_once. eapply between_store; [exact H3|].
    intros h [= <-]. unfold apart, HDR, OFF_free. lia.
Defined.

(** * Further properties *)

(** ** What a search returns *)

(** Every search loop only counts, and what it returns is a candidate. *)
Lemma counted_incr s0 s :
  counted s0 s -> counted s0 (set_num_blocks (num_blocks s + 1) s).
Proof.
  intros (n & Hn & ->). exists (n + 1). split; [lia|]. reflexivity.
Qed.

Lemma counted_mem s0 s : counted s0 s -> mem s = mem s0.
Proof. intros (n & _ & ->). reflexivity. Qed.

Lemma first_fit_loop_sound fuel : forall S curr last s0 s,
  counted s0 s ->
  wp (first_fit_loop fuel S curr last)
     (fun r s' => counted s0 s' /\ candidate FIT S (mem s0) r.1) s.
Proof.
  induction fuel as [|fuel IH]; intros S curr last s0 s Hs;
    cbn [first_fit_loop]; [apply wp_diverge|].
  wp_run.
  - apply ptr_eqb_eq in Heqb as ->. split; [assumption|]. by left.
  - split; [assumption|]. right. exists a, b.
    apply andb_true_iff in Heqb0 as [Hf Hle].
    rewrite <- (counted_mem _ _ Hs). repeat split; auto. lia.
  - apply IH. by apply counted_incr.
Qed.

Lemma next_fit_loop_sound fuel : forall S curr last s0 s,
  counted s0 s ->
  wp (next_fit_loop fuel S curr last)
     (fun r s' => counted s0 s' /\ candidate NEXT S (mem s0) r.1) s.
Proof.
  induction fuel as [|fuel IH]; intros S curr last s0 s Hs;
    cbn [next_fit_loop]; [apply wp_diverge|].
  wp_run.
  - apply ptr_eqb_eq in Heqb as ->. split; [assumption|]. by left.
  - split; [assumption|]. right. exists a, b.
    apply andb_true_iff in Heqb0 as [Hf Hle].
    rewrite <- (counted_mem _ _ Hs). repeat split; auto. lia.
  - apply IH. by apply counted_incr.
Qed.

Lemma best_fit_loop_sound fuel : forall S curr best s0 s,
  counted s0 s -> candidate BEST S (mem s0) best ->
  wp (best_fit_loop fuel S curr best)
     (fun r s' => counted s0 s' /\ candidate BEST S (mem s0) r) s.
Proof.
  induction fuel as [|fuel IH]; intros S curr best s0 s Hs Hb;
    cbn [best_fit_loop]; [apply wp_diverge|].
  assert (Hcand : forall a b, mem s !! a = Some b ->
            Block.free b && (S <=? Block.size b) = true ->
            candidate BEST S (mem s0) (Arena a)).
  { intros a b Hl Hf. right. exists a, b.
    apply andb_true_iff in Hf as [Hf Hle].
    rewrite <- (counted_mem _ _ Hs). repeat split; auto. lia. }
  wp_run; try (apply IH; [by apply counted_incr|]);
    try (split; [by apply counted_incr|]); eauto.
Qed.

Lemma worst_fit_loop_sound fuel : forall S curr last worst max s0 s,
  counted s0 s -> candidate WORST S (mem s0) worst ->
  wp (worst_fit_loop fuel S curr last worst max)
     (fun r s' => counted s0 s' /\ candidate WORST S (mem s0) r.1) s.
Proof.
  induction fuel as [|fuel IH]; intros S curr last worst max s0 s Hs Hb;
    cbn [worst_fit_loop]; [apply wp_diverge|].
  wp_run; try (apply IH; [by apply counted_incr|]); auto.
  right. exists a, b. apply andb_true_iff in Heqb0 as [Hf Hle].
  rewrite <- (counted_mem _ _ Hs). repeat split; auto. lia.
Qed.

Lemma findFreeBlock_spec pol last S s :
  wp (findFreeBlock pol last S)
     (fun r s' =>
        (exists n, 0 <= n /\
           s' = set_num_blocks n
                  (match pol with NEXT => set_Final r.1 s | _ => s end)) /\
        candidate pol S (mem s) r.1 /\
        (pol = BEST -> r.2 = last)) s.
Proof.
  assert (H0 : counted s (set_num_blocks 0 s)) by (exists 0; split; [lia|done]).
  unfold findFreeBlock. do 6 wp_step.
  destruct pol.
  - eapply wp_mono; [apply (first_fit_loop_sound _ _ _ _ s); exact H0|].
    intros [r la] s' [(n & Hn & ->) Hc]. split; [by exists n|]. by split.
  - wp_step.
    eapply wp_mono; [apply (best_fit_loop_sound _ _ _ _ s); [exact H0|by left]|].
    intros r s' [(n & Hn & ->) Hc]. wp_step.
    split; [by exists n|]. by split.
  - eapply wp_mono;
      [apply (worst_fit_loop_sound _ _ _ _ _ _ s); [exact H0|by left]|].
    intros [r la] s' [(n & Hn & ->) Hc]. split; [by exists n|]. by split.
  - do 3 wp_step.
    assert (Hloop : forall f,
      wp (let* (curr, last) := next_fit_loop (fuel_of (set_num_blocks 0 s)) S
            f last in
          modify (set_Final curr);; ret (curr, last))
        (fun r s' =>
           (exists n, 0 <= n /\ s' = set_num_blocks n (set_Final r.1 s)) /\
           candidate NEXT S (mem s) r.1 /\ (NEXT = BEST -> r.2 = last))
        (set_Final f (set_num_blocks 0 s))).
    { intros f. wp_step.
      eapply wp_mono;
        [apply (next_fit_loop_sound _ _ _ _ (set_Final f s));
         exists 0; split; [lia|done]|].
      intros [r la] s' [(n & Hn & ->) Hc]. wp_run.
      split; [exists n; split; [lia|done]|]. split; [exact Hc|done]. }
    wp_step.
    + wp_step. wp_step. wp_step. apply Hloop.
    + wp_step. wp_step. wp_step.
      replace (set_num_blocks 0 s)
        with (set_Final (Final s) (set_num_blocks 0 s))
        by (destruct s; reflexivity).
      apply Hloop.
Qed.

(** X1: a search changes nothing but the scan counter and, under next fit,
    the cursor: headers, chain head, break and the other eight counters are
    those of the state before.  The scan counter ends non-negative, the
    next-fit cursor ends on the block returned. *)
Theorem findFreeBlock_changes_only_scan_state pol last S s r s' :
  findFreeBlock pol last S s = Ok r s' ->
  exists n, 0 <= n /\
    s' = set_num_blocks n
           (match pol with NEXT => set_Final r.1 s | _ => s end).
Proof.
  intros H. exact (proj1 (wp_Ok _ _ _ _ _ (findFreeBlock_spec pol last S s) H)).
Qed.

Lemma findFreeBlock_changes_only_scan_state_witness :
  exists n, 0 <= n /\
    set_num_blocks 3 worst_fit_state = set_num_blocks n worst_fit_state.
Proof.
  apply (findFreeBlock_changes_only_scan_state WORST (Arena 4096) 60
           worst_fit_state (Arena 4096, Arena 4248)).
  vm_compute. reflexivity.
Defined.

(** X2: whatever the policy, a block returned by the search is a header that
    is marked free and whose size is at least the request; under worst fit
    its size is strictly larger than the request. *)
Theorem findFreeBlock_returns_free_fitting pol last S s r s' :
  findFreeBlock pol last S s = Ok r s' ->
  r.1 = NULL \/
  exists a b,
    r.1 = Arena a /\ mem s !! a = Some b /\ Block.free b = true /\
    S <= Block.size b /\ (pol = WORST -> S < Block.size b).
Proof.
  intros H.
  destruct (proj1 (proj2 (wp_Ok _ _ _ _ _ (findFreeBlock_spec pol last S s) H)))
    as [Hn|(a & b & Hr & Hl & Hf & Hs)]; [by left|].
  right. exists a, b. repeat split; auto.
  - destruct pol; lia.
  - intros ->. exact Hs.
Qed.

Lemma findFreeBlock_returns_free_fitting_witness :
  (Arena 4096, Arena 4248).1 = NULL \/
  exists a b,
    (Arena 4096, Arena 4248).1 = Arena a /\
    mem worst_fit_state !! a = Some b /\ Block.free b = true /\
    60 <= Block.size b /\ (WORST = WORST -> 60 < Block.size b).
Proof.
  apply (findFreeBlock_returns_free_fitting WORST (Arena 4096) 60
           worst_fit_state (Arena 4096, Arena 4248)
           (set_num_blocks 3 worst_fit_state)).
  vm_compute. reflexivity.
Defined.

(** ** Frames *)

(** A frame between a state and the same state after some assignments. *)
Ltac frame :=
  let g := fresh "g" in let Hg := fresh "Hg" in
  intros g Hg; destruct g; try reflexivity;
  exfalso; apply Hg; repeat constructor.

(** Membership of a global in a list of globals that does not name it. *)
Ltac outside :=
  let Hin := fresh "Hin" in
  intros Hin;
  repeat (apply elem_of_cons in Hin as [Hin|Hin]; [discriminate Hin|]);
  by apply elem_of_nil in Hin.

(** The value of a global that a frame leaves alone. *)
Ltac unchanged Hmod g :=
  let H := fresh "Hsame" in
  pose proof (Hmod g ltac:(outside)) as H; cbn [global_value] in H.

(** Case analysis on a header of a heap that is given explicitly. *)
Ltac headers H :=
  first [ apply lookup_insert_Some in H as [[<- <-]|[_ H]]; [|headers H]
        | by rewrite lookup_empty in H ].

Lemma wp_update_fresh_in p f (Q : unit -> state -> Prop) s :
  (forall a b, p = Arena a ->
     mem s !! a = Some b \/
     (mem s !! a = None /\ b = Block.zero /\
      brk_min s <= a /\ a + HDR <= brk s) ->
     Q tt (set_mem (<[a := f b]> (mem s)) s)) ->
  wp (update_fresh p f) Q s.
Proof.
  unfold wp, update_fresh. intros H. destruct p; auto.
  destruct (mem s !! a) eqn:E; eauto.
  destruct (_ && _) eqn:Hin; auto.
  apply andb_true_iff in Hin as [H1 H2].
  apply H with (b := Block.zero); auto. right. repeat split; auto; lia.
Qed.

(** What a call of [growHeap] that returns has done: the block it returns
    is the old break; [last], when it is not null, is a header and is linked
    to the old break; a header is written there, over the bytes [b0]. *)
Lemma growHeap_effect last size s :
  wp (growHeap last size)
     (fun r s' =>
        exists m1 b0,
          r = Arena (brk s) /\
          (last = NULL /\ m1 = mem s \/
           exists l bl, last = Arena l /\ mem s !! l = Some bl /\
                        m1 = <[l := Block.set_next (Arena (brk s)) bl]> (mem s)) /\
          (m1 !! brk s = Some b0 \/
           m1 !! brk s = None /\ b0 = Block.zero /\
           brk_min s <= brk s /\
           brk s + HDR <= brk s + to_intptr (to_size_t (HDR + size))) /\
          num_grows s < INT_MAX /\
          s' = set_max_heap
                 (if to_size_t (max_heap s) <? size then to_int size
                  else max_heap s)
                 (set_num_grows (num_grows s + 1)
                    (set_mem
                       (<[brk s := Block.mk size NULL false (Block.dirty b0)]>
                          m1)
                       (set_FreeList
                          (if ptr_eqb (FreeList s) NULL then Arena (brk s)
                           else FreeList s)
                          (set_brk
                             (brk s + to_intptr (to_size_t (HDR + size)))
                             s))))) s.
Proof.
  unfold growHeap, growHeap_body.
  apply wp_bind, wp_sbrk; [intros _|done..].
  apply wp_bind, wp_sbrk; intros Hn.
  all: repeat first
    [ lazymatch goal with
      | |- wp (update_fresh _ _) _ _ =>
          apply wp_update_fresh_in; intros ? ? ? ?; simplify_eq
      end
    | wp_step ]; try done.
  all: repeat match goal with
       | H : <[?k := _]> _ !! ?k = Some _ \/ _ |- _ =>
           rewrite lookup_insert_eq in H; destruct H as [H|[H _]];
           [|discriminate]; simplify_eq
       end.
  all: match goal with
       | H : ?m !! brk _ = Some ?b \/ _ |- _ => exists m, b
       end.
  all: rewrite !insert_insert_eq.
  all: try rewrite Hn, Z.add_0_r.
  all: repeat match goal with |- _ /\ _ => split end.
  all: try reflexivity; try assumption.
  all: try (destruct s; reflexivity).
  all: try (right; eauto 10; fail).
  all: left; split; [|reflexivity].
  all: match goal with
       | H : negb (ptr_eqb _ NULL) = false |- _ =>
           by apply negb_false_iff, ptr_eqb_eq in H
       end.
Qed.

Lemma malloc_effect pol size s :
  wp (malloc pol size) (malloc_returns pol size s) s.
Proof.
  unfold malloc.
  repeat first
    [ lazymatch goal with
      | |- wp (findFreeBlock _ _ _) _ _ =>
          eapply wp_mono; [apply findFreeBlock_spec|];
          intros [nx la] ? ((? & ? & ->) & Hcand & Hbest); destruct pol
      | |- wp (split _ _) _ _ => unfold split
      | |- wp (growHeap _ _) _ _ =>
          eapply wp_mono; [apply growHeap_effect|];
          intros ? ? (m1 & b0 & -> & Hlast & Hold & Hgrows & ->)
      end; cbv beta; simpl_state
    | wp_step ].
  all: try match goal with
       | H : ptr_eqb (Arena _) NULL = true |- _ => discriminate H
       end.
  all: repeat match goal with
       | H : <[?k := _]> _ !! ?k = Some _ |- _ =>
           rewrite lookup_insert_eq in H; simplify_eq
       end.
  all: try match goal with
       | H : ptr_eqb ?p NULL = true |- _ => apply ptr_eqb_eq in H; subst p
       end.
  all: cbn [Block.dirty Block.size Block.free Block.next Block.set_size
            Block.set_next Block.set_free Block.set_dirty fst snd
            BLOCK_DATA] in *.
  all: try match goal with
       | H : candidate _ _ _ (Arena _) |- _ =>
           destruct H as [?|(? & ? & ? & ? & Hfree & Hfit)];
           [discriminate|]; simplify_eq; cbn in Hfit
       end.
  all: unfold malloc_returns; simpl_state.
  all: repeat match goal with
       | H : (_ =? _) = _ |- _ => rewrite H
       end.
  all: split; [reflexivity|]; split; [split; reflexivity|].
  all: try (left; repeat split; try reflexivity; try frame;
            by apply Z.eqb_eq).
  all: repeat match goal with
       | H : (_ =? 0) = false |- _ => apply Z.eqb_neq in H
       end.
  all: try (right; right;
            split; [assumption|]; split; [assumption|];
            split; [reflexivity|];
            match goal with
            | H : ?m !! brk _ = Some ?b \/ _ |- _ =>
                exists la, b, m
            end;
            simpl_state; rewrite !insert_insert_eq;
            match goal with
            | H : Block.dirty _ = _ |- _ => rewrite H
            end;
            repeat match goal with |- _ /\ _ => split end;
            try reflexivity; try assumption; try lia; try frame;
            try discriminate; fail).
  all: right; left; split; [assumption|]; split; [assumption|].
  all: match goal with
       | H : mem _ !! ?a = Some ?b |- _ => exists a, b
       end.
  all: split; [reflexivity|]; unfold reuses; simpl_state.
  all: rewrite !insert_insert_eq.
  all: repeat match goal with
       | H : (_ <? _) = _ |- _ => rewrite H
       | H : Block.dirty _ = _ |- _ => rewrite H
       end.
  all: repeat match goal with |- _ /\ _ => split end.
  all: try reflexivity; try assumption; try lia; try frame; try discriminate.
  all: match goal with
       | H : (_ <? _) = false |- _ => apply Z.ltb_ge in H
       end.
  all: f_equal; unfold Block.set_dirty, Block.set_free; cbn; f_equal; lia.
Qed.

(** ** Coalescing *)

Section Coalescing.
Context (P : Z -> block -> Prop).
Hypothesis P_next : forall x v b, P x b -> P x (Block.set_next v b).
Hypothesis P_size : forall x y b b',
  P x b -> P y b' ->
  P x (Block.set_size (to_size_t (Block.size b + Block.size b')) b).

Lemma holds_insert m x b : holds P m -> P x b -> holds P (<[x := b]> m).
Proof.
  intros Hm Hb y b' Hy. destruct (decide (x = y)) as [->|Hne].
  - rewrite lookup_insert_eq in Hy. by simplify_eq.
  - rewrite lookup_insert_ne in Hy by done. eauto.
Qed.

Lemma coalesced_refl s : holds P (mem s) -> coalesced P s s.
Proof.
  intros H. exists (mem s), (num_coalesces s).
  split; [by destruct s|]. split; [lia|]. split; [reflexivity|exact H].
Qed.

Lemma coalesced_lookup s0 s a b :
  coalesced P s0 s -> mem s !! a = Some b -> P a b.
Proof. intros (m & n & -> & _ & _ & Hm) Hl. exact (Hm _ _ Hl). Qed.

Lemma coalesced_write s0 s a b b' :
  coalesced P s0 s -> mem s !! a = Some b -> P a b' ->
  coalesced P s0 (set_mem (<[a := b']> (mem s)) s).
Proof.
  intros (m & n & -> & Hn & Hd & Hm) Hl Hb. simpl_state.
  exists (<[a := b']> m), n. split; [reflexivity|]. split; [exact Hn|].
  split; [|by apply holds_insert].
  rewrite dom_insert_lookup_L by eauto. exact Hd.
Qed.

Lemma coalesced_incr s0 s :
  coalesced P s0 s ->
  coalesced P s0 (set_num_coalesces (num_coalesces s + 1) s).
Proof.
  intros (m & n & -> & Hn & Hd & Hm). simpl_state.
  exists m, (n + 1). split; [reflexivity|]. split; [lia|]. by split.
Qed.

Lemma wp_impl {A} (H : Prop) (m : M A) (Q : A -> state -> Prop) s :
  (H -> wp m Q s) -> wp m (fun a s' => H -> Q a s') s.
Proof. unfold wp. destruct (m s); auto. Qed.

Lemma wp_load_co p (Q : block -> state -> Prop) s0 s :
  coalesced P s0 s ->
  (forall a b, p = Arena a -> mem s !! a = Some b -> P a b -> Q b s) ->
  wp (load p) Q s.
Proof.
  intros Hs H. apply wp_load. intros a b -> L.
  apply (H a b); auto. exact (coalesced_lookup _ _ _ _ Hs L).
Qed.

Lemma wp_update_co p f (Q : unit -> state -> Prop) s0 s :
  coalesced P s0 s ->
  (forall a b, p = Arena a -> mem s !! a = Some b -> P a b ->
     P a (f b) /\
     (coalesced P s0 (set_mem (<[a := f b]> (mem s)) s) ->
      Q tt (set_mem (<[a := f b]> (mem s)) s))) ->
  wp (update p f) Q s.
Proof.
  intros Hs H. apply wp_update. intros a b -> L.
  destruct (H a b eq_refl L (coalesced_lookup _ _ _ _ Hs L)) as [HP HQ].
  apply HQ. by eapply coalesced_write.
Qed.

Lemma wp_incr_co (Q : unit -> state -> Prop) s0 s :
  coalesced P s0 s ->
  (num_coalesces s < INT_MAX ->
   coalesced P s0 (set_num_coalesces (num_coalesces s + 1) s) ->
   Q tt (set_num_coalesces (num_coalesces s + 1) s)) ->
  wp (incr num_coalesces set_num_coalesces) Q s.
Proof.
  intros Hs H. apply wp_incr. intros Hlt. apply H; auto.
  by apply coalesced_incr.
Qed.

(** Symbolic execution that carries [coalesced] along. *)
Ltac co_step :=
  lazymatch goal with
  | Hco : coalesced _ ?s0 _ |- wp (load _) _ ?s =>
      apply (wp_load_co _ _ s0 s Hco); intros ? ? ? ? ?; simpl_state; simplify_eq
  | Hco : coalesced _ ?s0 _ |- wp (update _ _) _ ?s =>
      apply (wp_update_co _ _ _ s0 s Hco); intros ? ? ? ? ?; simpl_state; simplify_eq;
      (split; [first [apply P_next|eapply P_size]; eassumption
              |clear Hco; intros Hco])
  | Hco : coalesced _ ?s0 _ |- wp (incr num_coalesces _) _ ?s =>
      apply (wp_incr_co _ s0 s Hco); intros ?; clear Hco; intros Hco
  | |- _ => wp_step
  end; cbv beta; simpl_state.

Lemma coalesce_right_coalesced curr s0 s :
  coalesced P s0 s ->
  wp (coalesce_right curr) (fun _ s' => coalesced P s0 s') s.
Proof.
  intros Hco. unfold coalesce_right. repeat co_step; assumption.
Qed.

Lemma coalesce_left_loop_coalesced fuel : forall curr tempBlock s0 s,
  coalesced P s0 s ->
  wp (coalesce_left_loop fuel curr tempBlock) (fun _ s' => coalesced P s0 s') s.
Proof.
  induction fuel as [|fuel IH]; intros curr tempBlock s0 s Hco;
    cbn [coalesce_left_loop]; [apply wp_diverge|].
  repeat co_step; try assumption; by apply IH.
Qed.

Lemma free_effect p s : wp (free p) (fun _ s' => free_returns P p s s') s.
Proof.
  unfold free. wp_step.
  { wp_step. left. by apply ptr_eqb_eq in Heqb. }
  do 6 wp_step; [|wp_step].
  destruct p as [|x| |]; try discriminate. cbn [BLOCK_HEADER] in *.
  simplify_eq. apply negb_true_iff in Heqb0.
  do 5 wp_step. simplify_eq.
  eapply wp_mono.
  - apply (wp_impl (holds P (<[x - HDR := Block.set_free true b]> (mem s)))).
    intros Hh.
    pose proof (coalesced_refl
      (set_num_frees (num_frees s + 1)
         (set_mem (<[x - HDR := Block.set_free true b]> (mem s)) s)) Hh)
      as Hco.
    apply wp_bind.
    eapply wp_mono; [by apply coalesce_right_coalesced|].
    intros u s1 Hs1. cbv beta. wp_step. wp_step.
    by apply coalesce_left_loop_coalesced.
  - intros u s' Hs'. cbv beta in Hs'. right. exists x, b. auto.
Qed.

End Coalescing.

(** ** What the calls change *)

Lemma malloc_returns_of pol size s p s' :
  malloc pol size s = Ok p s' -> malloc_returns pol size s p s'.
Proof. exact (wp_Ok _ _ _ _ _ (malloc_effect pol size s)). Qed.

Lemma free_returns_of P p s s' :
  (forall x v b, P x b -> P x (Block.set_next v b)) ->
  (forall x y b b', P x b -> P y b' ->
     P x (Block.set_size (to_size_t (Block.size b + Block.size b')) b)) ->
  free p s = Ok tt s' -> free_returns P p s s'.
Proof.
  intros Hn Hs H. exact (wp_Ok _ _ _ _ _ (free_effect P Hn Hs p s) H).
Qed.

Lemma ALIGN4_pos size : 1 <= size <= SIZE_MOD - 4 -> ALIGN4 size <> 0.
Proof.
  intros H. rewrite (ALIGN4_eq size H).
  pose proof (Z.div_pos (size - 1) 4 ltac:(lia) ltac:(lia)). lia.
Qed.

(** X3: the pointer that a successful [malloc] returns lies one header size
    behind a header in memory; that header is busy, is marked as used, and
    its size is exactly the aligned request, whether the block was found,
    found and split, or obtained from the operating system. *)
Theorem malloc_returns_busy_header pol size s p s' :
  malloc pol size s = Ok p s' -> p <> NULL ->
  exists a b,
    p = Arena (a + HDR) /\ mem s' !! a = Some b /\
    Block.size b = ALIGN4 size /\
    Block.free b = false /\ Block.dirty b = true.
Proof.
  intros H Hp.
  destruct (malloc_returns_of _ _ _ _ _ H) as (_ & _ & [Hnull|[Hre|Hgr]]).
  - by destruct Hnull.
  - destruct Hre as (_ & _ & a & b & -> & Hr).
    destruct Hr as (_ & _ & _ & _ & Hm & _).
    exists a. eexists. split; [reflexivity|].
    rewrite Hm, lookup_insert_eq. by repeat split.
  - destruct Hgr as (_ & _ & -> & la & b0 & m1 & _ & _ & Hm & _).
    exists (brk s). eexists. split; [reflexivity|].
    rewrite Hm, lookup_insert_eq. by repeat split.
Qed.

Lemma malloc_returns_busy_header_witness :
  exists a b,
    Arena 4120 = Arena (a + HDR) /\ mem eight_bytes !! a = Some b /\
    Block.size b = ALIGN4 5 /\
    Block.free b = false /\ Block.dirty b = true.
Proof.
  apply (malloc_returns_busy_header FIT 5 fresh (Arena 4120) eight_bytes).
  - vm_compute. reflexivity.
  - discriminate.
Defined.

(** X4: [malloc] returns null only when the aligned size is zero, that is,
    for a request of zero bytes or of more than [2^64 - 4] bytes.  The return
    of null after [growHeap] is never taken: a call cannot return null for
    lack of memory. *)
Theorem malloc_null_only_for_empty_request pol size s s' :
  0 <= size < SIZE_MOD ->
  malloc pol size s = Ok NULL s' ->
  (size = 0 \/ SIZE_MOD - 4 < size) /\ mem s' = mem s /\ brk s' = brk s.
Proof.
  intros Hsz H.
  destruct (malloc_returns_of _ _ _ _ _ H) as (_ & _ & [Hnull|[Hre|Hgr]]).
  - destruct Hnull as (_ & Hz & Hm & Hb & _). split; [|by split].
    destruct (Z.eq_dec size 0) as [|Hne]; [by left|right].
    destruct (Z.lt_ge_cases (SIZE_MOD - 4) size) as [|Hle]; [done|].
    by destruct (ALIGN4_pos size ltac:(lia)).
  - by destruct Hre as (_ & _ & a & b & ? & _).
  - by destruct Hgr as (_ & _ & ? & _).
Qed.

Lemma malloc_null_only_for_empty_request_witness :
  (0 = 0 \/ SIZE_MOD - 4 < 0) /\ mem one_block = mem one_block /\
  brk one_block = brk one_block.
Proof.
  apply (malloc_null_only_for_empty_request FIT 0 one_block one_block).
  - vm_compute. split; [discriminate|reflexivity].
  - vm_compute. reflexivity.
Defined.

(** X5: [malloc] touches one block.  Every other header that was in memory
    is still there with the same size, free flag and use flag (only its
    link may have been redirected to a new block), and the counts of frees
    and of coalesces are unchanged. *)
Theorem malloc_leaves_other_headers pol size s p s' x b :
  malloc pol size s = Ok p s' ->
  mem s !! x = Some b -> p <> Arena (x + HDR) ->
  num_frees s' = num_frees s /\ num_coalesces s' = num_coalesces s /\
  exists b',
    mem s' !! x = Some b' /\ Block.size b' = Block.size b /\
    Block.free b' = Block.free b /\ Block.dirty b' = Block.dirty b.
Proof.
  intros H Hx Hp.
  destruct (malloc_returns_of _ _ _ _ _ H) as (_ & _ & [Hnull|[Hre|Hgr]]).
  - destruct Hnull as (_ & _ & Hm & _ & _ & _ & Hmod).
    split; [apply (Hmod g_num_frees); outside|].
    split; [apply (Hmod g_num_coalesces); outside|].
    exists b. by rewrite Hm.
  - destruct Hre as (_ & _ & a & b1 & -> & Hr).
    destruct Hr as (_ & _ & _ & _ & Hm & _ & _ & _ & _ & _ & _ & _ & Hmod).
    split; [apply (Hmod g_num_frees); outside|].
    split; [apply (Hmod g_num_coalesces); outside|].
    exists b. rewrite Hm, lookup_insert_ne by congruence. done.
  - destruct Hgr as (_ & _ & -> & la & b0 & m1 & Hla & _ & Hm & Hrest).
    destruct Hrest as (_ & _ & _ & _ & _ & _ & _ & _ & _ & Hmod).
    split; [apply (Hmod g_num_frees); outside|].
    split; [apply (Hmod g_num_coalesces); outside|].
    rewrite Hm, lookup_insert_ne by congruence.
    destruct Hla as [[_ ->]|(l & bl & _ & Hl & ->)]; [by exists b|].
    destruct (decide (l = x)) as [->|Hne].
    + rewrite lookup_insert_eq. simplify_eq. by eexists.
    + rewrite lookup_insert_ne by done. by exists b.
Qed.

Lemma malloc_leaves_other_headers_witness :
  num_frees two_busy = num_frees one_block /\
  num_coalesces two_busy = num_coalesces one_block /\
  exists b',
    mem two_busy !! 4096 = Some b' /\
    Block.size b' = Block.size (Block.mk 4 NULL false true) /\
    Block.free b' = Block.free (Block.mk 4 NULL false true) /\
    Block.dirty b' = Block.dirty (Block.mk 4 NULL false true).
Proof.
  apply (malloc_leaves_other_headers FIT 4 one_block (Arena 4148) two_busy).
  - vm_compute. reflexivity.
  - vm_compute. reflexivity.
  - discriminate.
Defined.

(** X6: [free] neither creates nor removes a header and gives nothing back
    to the operating system: the headers are at the same addresses, the
    break, the head of the chain and the cursor are unchanged.  Of the
    counters only the number of frees, which grows by exactly one for a
    pointer that is not null, and the number of coalesces, which does not
    decrease, may differ. *)
Theorem free_keeps_heap_layout p s s' :
  free p s = Ok tt s' ->
  dom (mem s') = dom (mem s) /\ brk s' = brk s /\
  FreeList s' = FreeList s /\ Final s' = Final s /\ same_limits s s' /\
  modifies_only [g_num_frees; g_num_coalesces] s s' /\
  num_coalesces s <= num_coalesces s' /\
  (p <> NULL -> num_frees s' = num_frees s + 1).
Proof.
  intros H.
  assert (Hfr : free_returns (fun _ _ => True) p s s')
    by (by apply free_returns_of).
  destruct Hfr as [[-> ->]|(x & c & -> & Hc & Hf & Hlt & Hco)].
  { repeat split; try reflexivity; try lia. done. }
  destruct Hco as (m & n & -> & Hn & Hd & _); [done|].
  simpl_state. rewrite Hd. simpl_state.
  rewrite dom_insert_lookup_L by eauto.
  repeat split; try reflexivity; try frame; done.
Qed.

Lemma free_keeps_heap_layout_witness :
  dom (mem tail_behind_free) = dom (mem two_busy) /\
  brk tail_behind_free = brk two_busy /\
  FreeList tail_behind_free = FreeList two_busy /\
  Final tail_behind_free = Final two_busy /\
  same_limits two_busy tail_behind_free /\
  modifies_only [g_num_frees; g_num_coalesces] two_busy tail_behind_free /\
  num_coalesces two_busy <= num_coalesces tail_behind_free /\
  (Arena 4120 <> NULL -> num_frees tail_behind_free = num_frees two_busy + 1).
Proof.
  apply (free_keeps_heap_layout (Arena 4120) two_busy tail_behind_free).
  vm_compute. reflexivity.
Defined.

(** X7: [free] sets the free flag of the header before [p] and changes no
    other flag: every header keeps its use flag, and every header other
    than that of [p] keeps its free flag, also when blocks are coalesced. *)
Theorem free_sets_one_flag p s s' y b :
  free p s = Ok tt s' -> mem s !! y = Some b ->
  exists b',
    mem s' !! y = Some b' /\ Block.dirty b' = Block.dirty b /\
    Block.free b' = Block.free b || ptr_eqb (BLOCK_HEADER p) (Arena y).
Proof.
  intros H Hy.
  set (P := fun (y : Z) (b' : block) =>
    exists b, mem s !! y = Some b /\ Block.dirty b' = Block.dirty b /\
              Block.free b' =
                Block.free b || ptr_eqb (BLOCK_HEADER p) (Arena y)).
  assert (Hfr : free_returns P p s s').
  { apply free_returns_of; [| |exact H].
    - intros x v b0 (b1 & ? & ? & ?). by exists b1.
    - intros x y0 b0 b0' (b1 & ? & ? & ?) _. by exists b1. }
  destruct Hfr as [[-> ->]|(x & c & -> & Hc & Hf & Hlt & Hco)].
  { exists b. cbn. by rewrite orb_false_r. }
  destruct Hco as (m & n & -> & Hn & Hd & Hm).
  { intros z bz Hz. destruct (decide (x - HDR = z)) as [<-|Hne].
    - rewrite lookup_insert_eq in Hz. simplify_eq. exists c.
      split; [done|]. split; [done|]. cbn. rewrite Z.eqb_refl.
      by rewrite orb_true_r.
    - rewrite lookup_insert_ne in Hz by done. exists bz.
      split; [done|]. split; [done|]. cbn.
      destruct (Z.eqb_spec (x - HDR) z); [done|]. by rewrite orb_false_r. }
  simpl_state.
  assert (Hin : y ∈ dom m).
  { rewrite Hd. simpl_state. rewrite dom_insert_lookup_L by eauto.
    apply elem_of_dom. eauto. }
  apply elem_of_dom in Hin as [b' Hb'].
  destruct (Hm _ _ Hb') as (b1 & Hb1 & Hdir & Hfr). simplify_eq.
  by exists b'.
Qed.

Lemma free_sets_one_flag_witness :
  exists b',
    mem tail_behind_free !! 4124 = Some b' /\
    Block.dirty b' = Block.dirty (Block.mk 4 NULL false true) /\
    Block.free b' =
      Block.free (Block.mk 4 NULL false true)
      || ptr_eqb (BLOCK_HEADER (Arena 4120)) (Arena 4124).
Proof.
  apply (free_sets_one_flag (Arena 4120) two_busy tail_behind_free).
  - vm_compute. reflexivity.
  - vm_compute. reflexivity.
Defined.

(** X8: a call of [growHeap] that returns has returned the old break, not
    null; it has moved the break by the size of a header plus the size
    asked for, has written at the old break a busy header of that size
    without successor, has counted one more growth, has made the new block
    the head of the chain exactly when there was no head, and has linked a
    [last] that is not null to the new block. *)
Theorem growHeap_returns_old_break last size s r s' :
  growHeap last size s = Ok r s' ->
  r = Arena (brk s) /\
  brk s' = brk s + to_intptr (to_size_t (HDR + size)) /\
  mem s' !! brk s
    = Some (Block.mk size NULL false
              (match mem s !! brk s with
               | Some b => Block.dirty b
               | None => false
               end)) /\
  num_grows s' = num_grows s + 1 /\
  FreeList s' = (if ptr_eqb (FreeList s) NULL then r else FreeList s) /\
  (forall l, last = Arena l -> l <> brk s ->
     exists bl bl', mem s !! l = Some bl /\ mem s' !! l = Some bl' /\
                    bl' = Block.set_next r bl).
Proof.
  intros H.
  destruct (wp_Ok _ _ _ _ _ (growHeap_effect last size s) H)
    as (m1 & b0 & -> & Hla & Hold & Hlt & ->).
  simpl_state. rewrite lookup_insert_eq.
  repeat split.
  - do 2 f_equal.
    destruct Hla as [[_ ->]|(l & bl & _ & Hl & ->)].
    + destruct Hold as [->|(-> & -> & _)]; done.
    + destruct (decide (l = brk s)) as [->|Hne].
      * rewrite lookup_insert_eq in Hold.
        destruct Hold as [?|[? _]]; [|done]. simplify_eq. by rewrite Hl.
      * rewrite lookup_insert_ne in Hold by done.
        destruct Hold as [->|(-> & -> & _)]; done.
  - intros l -> Hne.
    destruct Hla as [[? _]|(l' & bl & ? & Hl & ->)]; [done|]. simplify_eq.
    exists bl. eexists. split; [done|].
    rewrite lookup_insert_ne by done. rewrite lookup_insert_eq. done.
Qed.

Lemma growHeap_returns_old_break_witness :
  Arena 4124 = Arena (brk one_block) /\
  brk second_header = brk one_block + to_intptr (to_size_t (HDR + 4)) /\
  mem second_header !! brk one_block
    = Some (Block.mk 4 NULL false
              (match mem one_block !! brk one_block with
               | Some b => Block.dirty b
               | None => false
               end)) /\
  num_grows second_header = num_grows one_block + 1 /\
  FreeList second_header =
    (if ptr_eqb (FreeList one_block) NULL then Arena 4124
     else FreeList one_block) /\
  (forall l, Arena 4096 = Arena l -> l <> brk one_block ->
     exists bl bl', mem one_block !! l = Some bl /\
                    mem second_header !! l = Some bl' /\
                    bl' = Block.set_next (Arena 4124) bl).
Proof.
  apply (growHeap_returns_old_break (Arena 4096) 4 one_block).
  vm_compute. reflexivity.
Defined.

(** ** Invariants of runs *)

Lemma grows_lookup pol S la b0 s s' y b :
  grows pol S la b0 s s' -> mem s' !! y = Some b ->
  (y = brk s /\ b = Block.mk S NULL false true) \/
  (y <> brk s /\ exists b1, mem s !! y = Some b1 /\
     Block.size b = Block.size b1 /\ Block.free b = Block.free b1 /\
     Block.dirty b = Block.dirty b1).
Proof.
  intros (m1 & Hla & _ & Hm & _) Hy. rewrite Hm in Hy.
  destruct (decide (brk s = y)) as [<-|Hne].
  { rewrite lookup_insert_eq in Hy. left. by simplify_eq. }
  rewrite lookup_insert_ne in Hy by done. right. split; [done|].
  destruct Hla as [[_ ->]|(l & bl & _ & Hl & ->)]; [by exists b|].
  destruct (decide (l = y)) as [<-|Hne'].
  - rewrite lookup_insert_eq in Hy. simplify_eq. by exists bl.
  - rewrite lookup_insert_ne in Hy by done. by exists b.
Qed.

Lemma grows_fresh pol S la b0 s s' :
  grows pol S la b0 s s' -> inside s ->
  mem s !! brk s = None /\ b0 = Block.zero /\ brk s + HDR <= brk s'.
Proof.
  intros (m1 & Hla & Hold & _) [_ Hin].
  assert (Hnone : mem s !! brk s = None).
  { destruct (mem s !! brk s) as [b|] eqn:E; [|done].
    destruct (Hin _ _ E). unfold HDR in *. lia. }
  assert (m1 !! brk s = None).
  { destruct Hla as [[_ ->]|(l & bl & _ & Hl & ->)]; [done|].
    rewrite lookup_insert_ne; [done|]. intros ->. congruence. }
  destruct Hold as [?|(_ & -> & _ & ?)]; [congruence|done].
Qed.

Lemma reuses_lookup pol S a b0 s s' y b :
  reuses pol S a b0 s s' -> mem s' !! y = Some b ->
  (y = a /\ Block.size b = S /\ Block.free b = false /\
   Block.dirty b = true) \/
  (y <> a /\ mem s !! y = Some b).
Proof.
  intros (_ & _ & _ & _ & Hm & _) Hy. rewrite Hm in Hy.
  destruct (decide (a = y)) as [<-|Hne].
  - rewrite lookup_insert_eq in Hy. left. by simplify_eq.
  - rewrite lookup_insert_ne in Hy by done. by right.
Qed.

(** *** Headers stay inside the data segment *)

Lemma malloc_inside pol size s p s' :
  malloc pol size s = Ok p s' -> inside s ->
  inside s' /\ brk s <= brk s' /\ dom (mem s) ⊆ dom (mem s').
Proof.
  intros H Hin. pose proof Hin as [Hb Hh].
  destruct (malloc_returns_of _ _ _ _ _ H) as (_ & [Hl1 Hl2] & Hcase).
  unfold inside. rewrite Hl1.
  destruct Hcase as [Hnull|[Hre|Hgr]].
  - destruct Hnull as (_ & _ & Hm & Hbrk & _). rewrite Hm, Hbrk.
    repeat split; try done; try lia; by apply (Hh a b).
  - destruct Hre as (_ & _ & a & b & _ & Hr).
    pose proof Hr as (Ha & _ & _ & _ & Hm & Hbrk & _). rewrite Hbrk.
    split; [split; [done|]|split; [lia|]].
    + intros y by' Hy.
      destruct (reuses_lookup _ _ _ _ _ _ _ _ Hr Hy) as [[-> _]|[_ Hy']];
        eauto.
    + by rewrite Hm, dom_insert_lookup_L by eauto.
  - destruct Hgr as (_ & _ & _ & la & b0 & Hg).
    destruct (grows_fresh _ _ _ _ _ _ Hg Hin) as (Hnone & _ & Hle).
    unfold HDR in *.
    split; [split; [lia|]|split; [lia|]].
    + intros y by' Hy.
      destruct (grows_lookup _ _ _ _ _ _ _ _ Hg Hy)
        as [[-> _]|(_ & b1 & Hy' & _)]; [lia|].
      destruct (Hh _ _ Hy'). lia.
    + destruct Hg as (m1 & Hla & _ & Hm & _). rewrite Hm, dom_insert_L.
      destruct Hla as [[_ ->]|(l & bl & _ & Hl & ->)];
        [apply union_subseteq_r|].
      rewrite dom_insert_lookup_L by eauto. apply union_subseteq_r.
Qed.

Lemma free_inside p s s' :
  free p s = Ok tt s' -> inside s ->
  inside s' /\ brk s <= brk s' /\ dom (mem s) ⊆ dom (mem s').
Proof.
  intros H [Hb Hh].
  assert (Hfr : free_returns (fun _ _ => True) p s s')
    by (by apply free_returns_of).
  destruct Hfr as [[-> ->]|(x & c & -> & Hc & Hf & Hlt & Hco)].
  { repeat split; try done; try lia; by apply (Hh a b). }
  destruct Hco as (m & n & -> & Hn & Hd & _); [done|].
  unfold inside. simpl_state.
  assert (Hdom : dom m = dom (mem s)).
  { rewrite Hd. simpl_state. by rewrite dom_insert_lookup_L by eauto. }
  split; [split; [done|]|split; [lia|by rewrite Hdom]].
  intros y b Hy.
  assert (y ∈ dom (mem s)) as [b1 Hb1]%elem_of_dom
    by (rewrite <- Hdom; apply elem_of_dom; eauto).
  eauto.
Qed.

Lemma transition_inside pol s s' :
  transition pol s s' -> inside s ->
  inside s' /\ brk s <= brk s' /\ dom (mem s) ⊆ dom (mem s').
Proof.
  intros [size p H|p H]; [by eapply malloc_inside|by eapply free_inside].
Qed.

(** X9: in a process whose headers lie inside the data segment, they still
    do after any number of calls of [malloc] and [free] that return; the
    break has not moved down, and every address that held a header still
    holds one.  The allocator never gives memory back and never forgets a
    header. *)
Theorem headers_stay_inside pol s s' :
  inside s -> rtc (transition pol) s s' ->
  inside s' /\ brk s <= brk s' /\ dom (mem s) ⊆ dom (mem s').
Proof.
  intros Hin Hrun. induction Hrun as [s|s1 s2 s3 Hstep _ IH].
  - split; [done|]. split; [lia|done].
  - destruct (transition_inside _ _ _ Hstep Hin) as (Hin2 & Hb & Hd).
    destruct (IH Hin2) as (Hin3 & Hb' & Hd').
    split; [done|]. split; [lia|by trans (dom (mem s2))].
Qed.

Lemma headers_stay_inside_witness :
  inside tail_behind_free /\ brk one_block <= brk tail_behind_free /\
  dom (mem one_block) ⊆ dom (mem tail_behind_free).
Proof.
  apply (headers_stay_inside FIT one_block tail_behind_free).
  - split; [vm_compute; discriminate|].
    intros a b Hl. unfold one_block in Hl. cbn [mem] in Hl. headers Hl.
    vm_compute. split; discriminate.
  - apply (rtc_l _ _ two_busy).
    { apply (transition_malloc FIT _ _ 4 (Arena 4148)).
      vm_compute. reflexivity. }
    apply (rtc_l _ _ tail_behind_free); [|apply rtc_refl].
    apply (transition_free FIT _ _ (Arena 4120)). vm_compute. reflexivity.
Defined.

(** *** Sizes stay multiples of four *)

Lemma mod64_mod4 z : (z mod 2 ^ 64) mod 4 = z mod 4.
Proof.
  rewrite (Z.div_mod z (2 ^ 64)) at 2 by lia.
  replace (2 ^ 64 * (z / 2 ^ 64) + z mod 2 ^ 64)
    with (z mod 2 ^ 64 + (2 ^ 62 * (z / 2 ^ 64)) * 4) by lia.
  rewrite Z.mod_add by lia. reflexivity.
Qed.

Lemma to_size_t_mod4 z : to_size_t z mod 4 = z mod 4.
Proof. apply mod64_mod4. Qed.

(** The macro yields a multiple of four for every argument, also where it
    wraps around. *)
Lemma ALIGN4_mod4 size : ALIGN4 size mod 4 = 0.
Proof.
  unfold ALIGN4. rewrite to_size_t_mod4, Zplus_mod, to_size_t_mod4.
  rewrite Z.shiftl_mul_pow2 by lia. change (2 ^ 2) with 4.
  rewrite Z.mod_mul by lia. reflexivity.
Qed.

Lemma add_mod4 x y : x mod 4 = 0 -> y mod 4 = 0 -> to_size_t (x + y) mod 4 = 0.
Proof.
  intros Hx Hy. rewrite to_size_t_mod4, Zplus_mod, Hx, Hy. reflexivity.
Qed.

Lemma malloc_aligned pol size s p s' :
  malloc pol size s = Ok p s' -> aligned s -> aligned s'.
Proof.
  intros H Hal.
  destruct (malloc_returns_of _ _ _ _ _ H) as (_ & _ & [Hnull|[Hre|Hgr]]).
  - destruct Hnull as (_ & _ & Hm & _). intros y b. rewrite Hm. apply Hal.
  - destruct Hre as (_ & _ & a & b & _ & Hr). intros y by' Hy.
    destruct (reuses_lookup _ _ _ _ _ _ _ _ Hr Hy)
      as [(_ & -> & _)|[_ Hy']]; [apply ALIGN4_mod4|eauto].
  - destruct Hgr as (_ & _ & _ & la & b0 & Hg). intros y by' Hy.
    destruct (grows_lookup _ _ _ _ _ _ _ _ Hg Hy)
      as [[_ ->]|(_ & b1 & Hy' & -> & _)]; [apply ALIGN4_mod4|eauto].
Qed.

Lemma free_aligned p s s' : free p s = Ok tt s' -> aligned s -> aligned s'.
Proof.
  intros H Hal.
  assert (Hfr : free_returns (fun _ b => Block.size b mod 4 = 0) p s s').
  { apply free_returns_of; [done| |exact H].
    intros x y b b' Hb Hb'. by apply add_mod4. }
  destruct Hfr as [[-> ->]|(x & c & -> & Hc & Hf & Hlt & Hco)]; [done|].
  destruct Hco as (m & n & -> & _ & _ & Hm); [|exact Hm].
  intros y b Hy. destruct (decide (x - HDR = y)) as [<-|Hne].
  - rewrite lookup_insert_eq in Hy. simplify_eq. cbn. eauto.
  - rewrite lookup_insert_ne in Hy by done. eauto.
Qed.

(** X10: if every header's size is a multiple of four, this is still so
    after any number of calls that return: requests are rounded up, a split
    leaves the rounded request, and coalescing adds sizes modulo [2^64]. *)
Theorem sizes_stay_aligned pol s s' :
  aligned s -> rtc (transition pol) s s' -> aligned s'.
Proof.
  intros Hal Hrun. induction Hrun as [s|s1 s2 s3 Hstep _ IH]; [done|].
  apply IH. destruct Hstep as [size p H|p H];
    [by eapply malloc_aligned|by eapply free_aligned].
Qed.

Lemma sizes_stay_aligned_witness : aligned tail_behind_free.
Proof.
  apply (sizes_stay_aligned FIT one_block tail_behind_free).
  - intros a b Hl. unfold one_block in Hl. cbn [mem] in Hl. headers Hl.
    vm_compute. reflexivity.
  - apply (rtc_l _ _ two_busy).
    { apply (transition_malloc FIT _ _ 4 (Arena 4148)).
      vm_compute. reflexivity. }
    apply (rtc_l _ _ tail_behind_free); [|apply rtc_refl].
    apply (transition_free FIT _ _ (Arena 4120)). vm_compute. reflexivity.
Defined.

(** *** Every allocation is a growth or a reuse *)

Lemma malloc_used pol size s p s' :
  malloc pol size s = Ok p s' -> inside s -> used s ->
  used s' /\
  num_mallocs s' - num_mallocs s
  = (num_grows s' - num_grows s) + (num_reuses s' - num_reuses s).
Proof.
  intros H Hin Hu.
  destruct (malloc_returns_of _ _ _ _ _ H) as (_ & _ & [Hnull|[Hre|Hgr]]).
  - destruct Hnull as (_ & _ & Hm & _ & _ & _ & Hmod). split.
    + intros y b. rewrite Hm. apply Hu.
    + unchanged Hmod g_num_mallocs. unchanged Hmod g_num_grows.
      unchanged Hmod g_num_reuses. lia.
  - destruct Hre as (_ & _ & a & b & _ & Hr). split.
    + intros y by' Hy.
      destruct (reuses_lookup _ _ _ _ _ _ _ _ Hr Hy)
        as [(_ & _ & _ & ?)|[_ Hy']]; eauto.
    + destruct Hr as
        (Ha & _ & _ & _ & _ & _ & _ & _ & _ & Hreu & Hmal & _ & Hmod).
      unchanged Hmod g_num_grows.
      rewrite Hreu, Hmal, (Hu _ _ Ha). lia.
  - destruct Hgr as (_ & _ & _ & la & b0 & Hg).
    destruct (grows_fresh _ _ _ _ _ _ Hg Hin) as (_ & -> & _). split.
    + intros y by' Hy.
      destruct (grows_lookup _ _ _ _ _ _ _ _ Hg Hy)
        as [[_ ->]|(_ & b1 & Hy' & _ & _ & ->)]; eauto.
    + destruct Hg as
        (m1 & _ & _ & _ & _ & _ & _ & _ & Hgr & _ & Hreu & Hmal & _).
      rewrite Hgr, Hreu, Hmal. cbn. lia.
Qed.

Lemma free_used p s s' :
  free p s = Ok tt s' -> used s ->
  used s' /\
  num_mallocs s' - num_mallocs s
  = (num_grows s' - num_grows s) + (num_reuses s' - num_reuses s).
Proof.
  intros H Hu.
  assert (Hfr : free_returns (fun _ b => Block.dirty b = true) p s s')
    by (by apply free_returns_of).
  destruct Hfr as [[-> ->]|(x & c & -> & Hc & Hf & Hlt & Hco)];
    [split; [done|lia]|].
  destruct Hco as (m & n & -> & _ & _ & Hm).
  - intros y b Hy. destruct (decide (x - HDR = y)) as [<-|Hne].
    + rewrite lookup_insert_eq in Hy. simplify_eq. cbn. eauto.
    + rewrite lookup_insert_ne in Hy by done. eauto.
  - split; [exact Hm|]. simpl_state. lia.
Qed.

(** X11: in a process whose headers lie inside the data segment and have
    all been handed out, over any number of calls that return the number of
    successful allocations is the number of growths plus the number of
    reuses: a block from the operating system is never counted as reused, a
    block found on the chain always is. *)
Theorem mallocs_are_grows_plus_reuses pol s s' :
  inside s -> used s -> rtc (transition pol) s s' ->
  num_mallocs s' - num_mallocs s
  = (num_grows s' - num_grows s) + (num_reuses s' - num_reuses s).
Proof.
  intros Hin Hu Hrun. induction Hrun as [s|s1 s2 s3 Hstep _ IH]; [lia|].
  destruct (transition_inside _ _ _ Hstep Hin) as (Hin2 & _).
  assert (used s2 /\
          num_mallocs s2 - num_mallocs s1
          = (num_grows s2 - num_grows s1) + (num_reuses s2 - num_reuses s1))
    as [Hu2 Heq].
  { destruct Hstep as [size p H|p H];
      [by eapply malloc_used|by eapply free_used]. }
  specialize (IH Hin2 Hu2). lia.
Qed.

Lemma mallocs_are_grows_plus_reuses_witness :
  num_mallocs tail_behind_free - num_mallocs one_block
  = (num_grows tail_behind_free - num_grows one_block)
    + (num_reuses tail_behind_free - num_reuses one_block).
Proof.
  apply (mallocs_are_grows_plus_reuses FIT one_block tail_behind_free).
  - split; [vm_compute; discriminate|].
    intros a b Hl. unfold one_block in Hl. cbn [mem] in Hl. headers Hl.
    vm_compute. split; discriminate.
  - intros a b Hl. unfold one_block in Hl. cbn [mem] in Hl. headers Hl.
    reflexivity.
  - apply (rtc_l _ _ two_busy).
    { apply (transition_malloc FIT _ _ 4 (Arena 4148)).
      vm_compute. reflexivity. }
    apply (rtc_l _ _ tail_behind_free); [|apply rtc_refl].
    apply (transition_free FIT _ _ (Arena 4120)). vm_compute. reflexivity.
Defined.

(** *** Busy blocks are allocations minus frees *)

Lemma elem_of_busy_set m y :
  y ∈ busy_set m <-> exists b, m !! y = Some b /\ Block.free b = false.
Proof.
  unfold busy_set. rewrite elem_of_dom. split.
  - intros [b Hb]. apply map_lookup_filter_Some in Hb as [Hb Hf]. eauto.
  - intros (b & Hb & Hf). exists b. by apply map_lookup_filter_Some.
Qed.

Lemma busy_set_insert_busy m a b :
  Block.free b = false -> busy_set (<[a := b]> m) = busy_set m ∪ {[a]}.
Proof.
  intros Hf. apply set_eq. intros y.
  rewrite elem_of_union, elem_of_singleton, !elem_of_busy_set.
  destruct (decide (a = y)) as [->|Hne].
  - rewrite lookup_insert_eq. split; [by right|]. intros _. by exists b.
  - rewrite lookup_insert_ne by done. split; [by left|].
    intros [H|Heq]; [done|congruence].
Qed.

Lemma busy_set_insert_free m a b :
  Block.free b = true -> busy_set (<[a := b]> m) = busy_set m ∖ {[a]}.
Proof.
  intros Hf. apply set_eq. intros y.
  rewrite elem_of_difference, elem_of_singleton, !elem_of_busy_set.
  destruct (decide (a = y)) as [->|Hne].
  - rewrite lookup_insert_eq. split; [|by intros [_ ?]].
    intros (b' & ? & ?). simplify_eq. congruence.
  - rewrite lookup_insert_ne by done. split; [|by intros [? _]].
    intros H. split; [done|congruence].
Qed.

(** The set depends on the free flags only. *)
Lemma busy_set_flags m m' :
  (forall y, Block.free <$> m' !! y = Block.free <$> m !! y) ->
  busy_set m' = busy_set m.
Proof.
  intros H. apply set_eq. intros y. rewrite !elem_of_busy_set.
  specialize (H y).
  destruct (m !! y) as [b|], (m' !! y) as [b'|]; cbn in H; simplify_eq;
    split; intros (b0 & ? & ?); simplify_eq;
    eexists; (split; [done|congruence]).
Qed.

Lemma size_add_one (X : gset Z) a :
  a ∉ X -> Z.of_nat (size (X ∪ {[a]})) = Z.of_nat (size X) + 1.
Proof.
  intros Ha. rewrite size_union by (by apply disjoint_singleton_r).
  rewrite size_singleton. lia.
Qed.

Lemma size_remove_one (X : gset Z) a :
  a ∈ X -> Z.of_nat (size (X ∖ {[a]})) = Z.of_nat (size X) - 1.
Proof.
  intros Ha.
  assert (Hx : X = (X ∖ {[a]}) ∪ {[a]}).
  { apply set_eq. intros y.
    rewrite elem_of_union, elem_of_difference, elem_of_singleton.
    destruct (decide (y = a)) as [->|Hne].
    - split; [by right|done].
    - split; [by left|]. intros [[? _]|?]; [done|congruence]. }
  rewrite Hx at 2. rewrite size_add_one; [lia|].
  rewrite elem_of_difference, elem_of_singleton. tauto.
Qed.

Lemma malloc_busy pol size s p s' :
  malloc pol size s = Ok p s' -> inside s ->
  busy_blocks s' - busy_blocks s
  = (num_mallocs s' - num_mallocs s) - (num_frees s' - num_frees s).
Proof.
  intros H Hin. unfold busy_blocks.
  destruct (malloc_returns_of _ _ _ _ _ H) as (_ & _ & [Hnull|[Hre|Hgr]]).
  - destruct Hnull as (_ & _ & Hm & _ & _ & _ & Hmod).
    unchanged Hmod g_num_mallocs. unchanged Hmod g_num_frees.
    rewrite Hm. lia.
  - destruct Hre as (_ & _ & a & b & _ & Hr).
    destruct Hr as
      (Ha & Hf & _ & _ & Hm & _ & _ & _ & _ & _ & Hmal & _ & Hmod).
    unchanged Hmod g_num_frees.
    rewrite Hm, busy_set_insert_busy by done.
    rewrite size_add_one; [lia|].
    rewrite elem_of_busy_set. intros (b' & ? & ?). simplify_eq. congruence.
  - destruct Hgr as (_ & _ & _ & la & b0 & Hg).
    destruct (grows_fresh _ _ _ _ _ _ Hg Hin) as (Hnone & _ & _).
    destruct Hg as
      (m1 & Hla & _ & Hm & _ & _ & _ & _ & _ & _ & _ & Hmal & _ & Hmod).
    unchanged Hmod g_num_frees.
    rewrite Hm, busy_set_insert_busy by done.
    assert (Hm1 : busy_set m1 = busy_set (mem s)).
    { destruct Hla as [[_ ->]|(l & bl & _ & Hl & ->)]; [done|].
      apply busy_set_flags. intros y.
      destruct (decide (l = y)) as [<-|Hne].
      - by rewrite lookup_insert_eq, Hl.
      - by rewrite lookup_insert_ne. }
    rewrite Hm1, size_add_one; [lia|].
    rewrite elem_of_busy_set. intros (b' & ? & ?). congruence.
Qed.

Lemma free_busy p s s' :
  free p s = Ok tt s' ->
  busy_blocks s' - busy_blocks s
  = (num_mallocs s' - num_mallocs s) - (num_frees s' - num_frees s).
Proof.
  intros H. unfold busy_blocks.
  set (P := fun (y : Z) (b' : block) =>
    forall c x, p = Arena x -> mem s !! (x - HDR) = Some c ->
      Block.free <$> Some b'
      = Block.free <$> (<[x - HDR := Block.set_free true c]> (mem s) !! y)).
  assert (Hfr : free_returns P p s s').
  { apply free_returns_of; [| |exact H].
    - intros x v b Hb. exact Hb.
    - intros x y b b' Hb _. exact Hb. }
  destruct Hfr as [[-> ->]|(x & c & -> & Hc & Hf & Hlt & Hco)]; [lia|].
  destruct Hco as (m & n & -> & _ & Hd & Hm).
  { intros y b Hy c' x' [= <-] Hc'. simplify_eq. by rewrite Hy. }
  simpl_state.
  assert (Hflags : busy_set m
                   = busy_set (<[x - HDR := Block.set_free true c]> (mem s))).
  { apply busy_set_flags. intros y.
    destruct (m !! y) as [b|] eqn:Hy.
    - by rewrite <- (Hm _ _ Hy c x).
    - apply not_elem_of_dom in Hy. rewrite Hd in Hy. simpl_state.
      apply not_elem_of_dom in Hy. by rewrite Hy. }
  rewrite Hflags, busy_set_insert_free by done.
  rewrite size_remove_one; [lia|].
  apply elem_of_busy_set. eauto.
Qed.

(** X12: in a process whose headers lie inside the data segment, over any
    number of calls that return the number of headers not marked free
    changes by the number of successful allocations minus the number of
    frees of a pointer that is not null.  Splitting and coalescing neither
    create nor release a busy block. *)
Theorem busy_blocks_are_mallocs_minus_frees pol s s' :
  inside s -> rtc (transition pol) s s' ->
  busy_blocks s' - busy_blocks s
  = (num_mallocs s' - num_mallocs s) - (num_frees s' - num_frees s).
Proof.
  intros Hin Hrun. induction Hrun as [s|s1 s2 s3 Hstep _ IH]; [lia|].
  destruct (transition_inside _ _ _ Hstep Hin) as (Hin2 & _).
  assert (busy_blocks s2 - busy_blocks s1
          = (num_mallocs s2 - num_mallocs s1) - (num_frees s2 - num_frees s1)).
  { destruct Hstep as [size p H|p H];
      [by eapply malloc_busy|by eapply free_busy]. }
  specialize (IH Hin2). lia.
Qed.

Lemma busy_blocks_are_mallocs_minus_frees_witness :
  busy_blocks tail_behind_free - busy_blocks one_block
  = (num_mallocs tail_behind_free - num_mallocs one_block)
    - (num_frees tail_behind_free - num_frees one_block).
Proof.
  apply (busy_blocks_are_mallocs_minus_frees FIT one_block tail_behind_free).
  - split; [vm_compute; discriminate|].
    intros a b Hl. unfold one_block in Hl. cbn [mem] in Hl. headers Hl.
    vm_compute. split; discriminate.
  - apply (rtc_l _ _ two_busy).
    { apply (transition_malloc FIT _ _ 4 (Arena 4148)).
      vm_compute. reflexivity. }
    apply (rtc_l _ _ tail_behind_free); [|apply rtc_refl].
    apply (transition_free FIT _ _ (Arena 4120)). vm_compute. reflexivity.
Defined.

(** ** Searches along a chain that ends *)

Lemma last_of_cons a b l d : last_of ((a, b) :: l) d = last_of l (Arena a).
Proof. unfold last_of. rewrite last_cons. by destruct (last l). Qed.

(** *** First fit *)

Lemma first_fit_loop_scan S l : forall fuel curr last s,
  chain (mem s) curr l ->
  (length l < fuel)%nat ->
  num_blocks s + Z.of_nat (length l) <= INT_MAX ->
  first_fit_loop fuel S curr last s =
    Ok ((next_scan S l last).1.1, (next_scan S l last).1.2)
       (set_num_blocks (num_blocks s + Z.of_nat (next_scan S l last).2) s).
Proof.
  induction l as [|[a b] l IH]; intros fuel curr last s Hc Hf Hn;
    (destruct fuel as [|fuel]; [cbn in Hf; lia|]); inversion Hc; subst.
  - cbn. rewrite Z.add_0_r, set_num_blocks_id. reflexivity.
  - cbn [first_fit_loop next_scan length ptr_eqb] in *.
    unfold bind at 1. unfold load at 1.
    match goal with H : mem s !! a = Some b |- _ => rewrite H end.
    fold (fits S b). destruct (fits S b).
    + cbn. rewrite Z.add_0_r, set_num_blocks_id. reflexivity.
    + unfold bind, incr, int_succ.
      destruct (Z.ltb_spec (num_blocks s) INT_MAX) as [_|Hge]; [|lia].
      rewrite IH; cbn [mem set_num_blocks num_blocks]; auto; try lia.
      destruct (next_scan S l (Arena a)) as [[r la] n]. cbn.
      rewrite set_num_blocks_twice. do 2 f_equal. lia.
Qed.

(** The three results of the scan: the first block that fits, the header
    before it, and the number of headers before it. *)
Lemma next_scan_first S l : forall last,
  ((next_scan S l last).1.1 = NULL /\
   (forall x, x ∈ l -> fits S x.2 = false) /\
   (next_scan S l last).1.2 = last_of l last /\
   (next_scan S l last).2 = length l) \/
  (exists a b l1 l2,
     (next_scan S l last).1.1 = Arena a /\ l = l1 ++ (a, b) :: l2 /\
     fits S b = true /\ (forall x, x ∈ l1 -> fits S x.2 = false) /\
     (next_scan S l last).1.2 = last_of l1 last /\
     (next_scan S l last).2 = length l1).
Proof.
  induction l as [|[a b] l IH]; intros last; cbn [next_scan].
  - left. repeat split; auto. intros x Hx. inversion Hx.
  - destruct (fits S b) eqn:Hfit.
    + right. exists a, b, [], l. repeat split; auto.
      intros x Hx. inversion Hx.
    + specialize (IH (Arena a)). rewrite !last_of_cons.
      destruct (next_scan S l (Arena a)) as [[r la] n]. cbn [fst snd] in *.
      destruct IH as [(-> & Hall & -> & ->)|
        (a' & b' & l1 & l2 & -> & -> & Hf' & Hall & -> & ->)].
      * left. repeat split; auto. intros x Hx.
        apply elem_of_cons in Hx as [->|Hx]; auto.
      * right. exists a', b', ((a, b) :: l1), l2.
        rewrite last_of_cons. repeat split; auto.
        intros x Hx. apply elem_of_cons in Hx as [->|Hx]; auto.
Qed.

Lemma findFreeBlock_first_fit_scan s last S l :
  chain (mem s) (FreeList s) l ->
  Z.of_nat (size (mem s)) <= INT_MAX ->
  findFreeBlock FIT last S s
  = Ok ((next_scan S l last).1.1, (next_scan S l last).1.2)
       (set_num_blocks (Z.of_nat (next_scan S l last).2) s).
Proof.
  intros Hc Hsz.
  pose proof (chain_length _ _ _ Hc) as Hlen.
  unfold findFreeBlock, bind, gets, modify, fuel_of.
  rewrite (first_fit_loop_scan S l);
    cbn [mem set_num_blocks num_blocks]; auto; try lia.
Qed.

(** X13: on a heap whose chain from the head ends, the first-fit search
    returns.  It returns the first header of the chain that is free and
    large enough, leaves in [last] the header before it, and counts the
    headers before it; when no header fits it returns null, leaves the tail
    of the chain in [last] and counts the whole chain. *)
Theorem first_fit_selects_first s last S l :
  chain (mem s) (FreeList s) l ->
  Z.of_nat (size (mem s)) <= INT_MAX ->
  exists r last' n,
    findFreeBlock FIT last S s
      = Ok (r, last') (set_num_blocks (Z.of_nat n) s) /\
    ((r = NULL /\ (forall x, x ∈ l -> fits S x.2 = false) /\
      last' = last_of l last /\ n = length l) \/
     (exists a b l1 l2,
        r = Arena a /\ l = l1 ++ (a, b) :: l2 /\ fits S b = true /\
        (forall x, x ∈ l1 -> fits S x.2 = false) /\
        last' = last_of l1 last /\ n = length l1)).
Proof.
  intros Hc Hsz.
  exists (next_scan S l last).1.1, (next_scan S l last).1.2,
         (next_scan S l last).2.
  split; [by apply findFreeBlock_first_fit_scan|apply next_scan_first].
Qed.

Lemma first_fit_selects_first_witness :
  exists r last' n,
    findFreeBlock FIT NULL 20 three_candidates
      = Ok (r, last') (set_num_blocks (Z.of_nat n) three_candidates) /\
    ((r = NULL /\ (forall x, x ∈ three_chain -> fits 20 x.2 = false) /\
      last' = last_of three_chain NULL /\ n = length three_chain) \/
     (exists a b l1 l2,
        r = Arena a /\ three_chain = l1 ++ (a, b) :: l2 /\
        fits 20 b = true /\
        (forall x, x ∈ l1 -> fits 20 x.2 = false) /\
        last' = last_of l1 NULL /\ n = length l1)).
Proof.
  apply (first_fit_selects_first three_candidates NULL 20 three_chain).
  - repeat (constructor; [reflexivity|]). constructor.
  - vm_compute. discriminate.
Defined.

(** *** Worst fit *)

(** The surplus of a block that is larger than the request, computed as the
    source does: subtraction in [size_t], conversion to [int], [abs], and
    conversion back. *)
Lemma surplus_small S z :
  0 <= S -> S < z -> z <= INT_MAX ->
  c_abs (to_int (to_size_t (z - S))) = Some (z - S) /\
  to_size_t (z - S) = z - S.
Proof.
  intros H0 H1 H2. unfold INT_MAX in H2.
  assert (Hs : to_size_t (z - S) = z - S).
  { apply to_size_t_small. change SIZE_MOD with 18446744073709551616. lia. }
  rewrite Hs, to_int_small by (unfold INT_MIN, INT_MAX; lia).
  split; [|reflexivity]. unfold c_abs.
  destruct (Z.eqb_spec (z - S) INT_MIN) as [He|_];
    [unfold INT_MIN in He; lia|].
  f_equal. lia.
Qed.

Lemma worst_fit_loop_walk S l :
  0 <= S -> (forall x, x ∈ l -> Block.size x.2 <= INT_MAX) ->
  forall fuel curr last worst max s,
  chain (mem s) curr l ->
  (length l < fuel)%nat ->
  num_blocks s + Z.of_nat (length l) <= INT_MAX ->
  exists r,
    worst_fit_loop fuel S curr last worst max s
      = Ok (r, last_of l last)
           (set_num_blocks (num_blocks s + Z.of_nat (length l)) s) /\
    (worst <> NULL -> r <> NULL) /\
    (worst = NULL -> max = 0 ->
     (r = NULL <-> forall x, x ∈ l -> roomy S x.2 = false)).
Proof.
  intros HS. induction l as [|[a b] l IH];
    intros Hsz fuel curr last worst max s Hc Hf Hn;
    (destruct fuel as [|fuel]; [cbn in Hf; lia|]); inversion Hc; subst.
  - exists worst. cbn. rewrite Z.add_0_r, set_num_blocks_id.
    split; [reflexivity|]. split; [done|]. intros -> _.
    split; [|done]. intros _ x Hx. inversion Hx.
  - cbn [length] in *.
    assert (Hb : Block.size b <= INT_MAX) by (apply (Hsz (a, b)); left).
    assert (Hsz' : forall x, x ∈ l -> Block.size x.2 <= INT_MAX)
      by (intros x Hx; apply Hsz; by right).
    cbn [worst_fit_loop ptr_eqb]. rewrite last_of_cons.
    unfold bind at 1. unfold incr, int_succ.
    destruct (Z.ltb_spec (num_blocks s) INT_MAX) as [_|Hge]; [|lia].
    unfold bind at 1. unfold load at 1. cbn [mem set_num_blocks].
    match goal with H : mem s !! a = Some b |- _ => rewrite H end.
    fold (roomy S b). destruct (roomy S b) eqn:Hroomy.
    + pose proof Hroomy as [_ Hlt%Z.ltb_lt]%andb_true_iff.
      destruct (surplus_small S (Block.size b) HS Hlt Hb) as [Habs Hsmall].
      unfold bind at 1. rewrite Habs. unfold ret at 1.
      destruct (max <? to_size_t (Block.size b - S)) eqn:Hwider.
      * destruct (IH Hsz' fuel (Block.next b) (Arena a) (Arena a)
                    (Block.size b) (set_num_blocks (num_blocks s + 1) s))
          as (r & Hr & Hnn & _); cbn [mem num_blocks set_num_blocks];
          auto; try lia.
        exists r. rewrite Hr, set_num_blocks_twice.
        split; [cbn [num_blocks set_num_blocks]; do 2 f_equal; lia|].
        split; [auto|].
        intros _ _. split; [intros ->; by destruct Hnn|].
        intros Hall. specialize (Hall (a, b) ltac:(left)). cbn in Hall.
        congruence.
      * destruct (IH Hsz' fuel (Block.next b) (Arena a) worst max
                    (set_num_blocks (num_blocks s + 1) s))
          as (r & Hr & Hnn & Hiff); cbn [mem num_blocks set_num_blocks];
          auto; try lia.
        exists r. rewrite Hr, set_num_blocks_twice.
        split; [cbn [num_blocks set_num_blocks]; do 2 f_equal; lia|].
        split; [auto|].
        intros -> ->. rewrite Hsmall in Hwider.
        apply Z.ltb_ge in Hwider. lia.
    + unfold bind at 1. unfold ret at 1.
      destruct (IH Hsz' fuel (Block.next b) (Arena a) worst max
                  (set_num_blocks (num_blocks s + 1) s))
        as (r & Hr & Hnn & Hiff); cbn [mem num_blocks set_num_blocks];
        auto; try lia.
      exists r. rewrite Hr, set_num_blocks_twice.
      split; [cbn [num_blocks set_num_blocks]; do 2 f_equal; lia|].
        split; [auto|].
      intros Hw Hm. rewrite (Hiff Hw Hm). split.
      * intros Hall x Hx. apply elem_of_cons in Hx as [->|Hx]; auto.
      * intros Hall x Hx. apply Hall. by right.
Qed.

(** X14: on a heap whose chain from the head ends and whose sizes fit an
    [int], the worst-fit search returns after it has visited the whole
    chain: [last] is the tail and the scan counter is the length of the
    chain.  It returns null exactly when no header is free and strictly
    larger than the request; in particular a free block of exactly the
    requested size is never reused. *)
Theorem worst_fit_walks_whole_chain s last S l :
  chain (mem s) (FreeList s) l ->
  Z.of_nat (size (mem s)) <= INT_MAX ->
  0 <= S -> (forall x, x ∈ l -> Block.size x.2 <= INT_MAX) ->
  exists r,
    findFreeBlock WORST last S s
      = Ok (r, last_of l last) (set_num_blocks (Z.of_nat (length l)) s) /\
    (r = NULL <-> forall x, x ∈ l -> roomy S x.2 = false).
Proof.
  intros Hc Hsz HS Hall.
  pose proof (chain_length _ _ _ Hc) as Hlen.
  destruct (worst_fit_loop_walk S l HS Hall (fuel_of (set_num_blocks 0 s))
              (FreeList s) last NULL 0 (set_num_blocks 0 s))
    as (r & Hr & _ & Hiff); unfold fuel_of;
    cbn [mem num_blocks set_num_blocks] in *; auto; try lia.
  exists r. split; [|by apply Hiff].
  unfold findFreeBlock, bind, gets, modify. rewrite Hr. reflexivity.
Qed.

Lemma worst_fit_walks_whole_chain_witness :
  exists r,
    findFreeBlock WORST NULL 152 worst_fit_state
      = Ok (r, last_of
                 [(4096, Block.mk 100 (Arena 4220) true true);
                  (4220, Block.mk 4 (Arena 4248) false true);
                  (4248, Block.mk 152 NULL true true)] NULL)
           (set_num_blocks
              (Z.of_nat
                 (length
                    [(4096, Block.mk 100 (Arena 4220) true true);
                     (4220, Block.mk 4 (Arena 4248) false true);
                     (4248, Block.mk 152 NULL true true)]))
              worst_fit_state) /\
    (r = NULL <->
     forall x,
       x ∈ [(4096, Block.mk 100 (Arena 4220) true true);
            (4220, Block.mk 4 (Arena 4248) false true);
            (4248, Block.mk 152 NULL true true)] ->
       roomy 152 x.2 = false).
Proof.
  apply (worst_fit_walks_whole_chain worst_fit_state NULL 152).
  - repeat (constructor; [reflexivity|]). constructor.
  - vm_compute. discriminate.
  - lia.
  - intros x Hx.
    repeat (apply elem_of_cons in Hx as [->|Hx]; [vm_compute; discriminate|]).
    inversion Hx.
Defined.

(** ** Which block an allocation returns *)

(** X15: [malloc] never hands out a block that is in use.  In a process
    whose headers lie inside the data segment, the pointer returned is not
    the data address of any header that was busy before the call. *)
Theorem malloc_never_returns_busy_block pol size s p s' a b :
  inside s -> mem s !! a = Some b -> Block.free b = false ->
  malloc pol size s = Ok p s' -> p <> Arena (a + HDR).
Proof.
  intros Hin Ha Hbusy H Hp. subst p.
  destruct (malloc_returns_of _ _ _ _ _ H) as (_ & _ & [Hnull|[Hre|Hgr]]).
  - by destruct Hnull.
  - destruct Hre as (_ & _ & a' & b' & Heq & Ha' & Hfree & _).
    assert (a' = a) as -> by (simplify_eq; lia). congruence.
  - destruct Hgr as (_ & _ & Heq & la & b0 & Hg).
    destruct (grows_fresh _ _ _ _ _ _ Hg Hin) as (Hnone & _).
    assert (a = brk s) as -> by (simplify_eq; lia). congruence.
Qed.

Lemma malloc_never_returns_busy_block_witness : Arena 4148 <> Arena (4096 + HDR).
Proof.
  apply (malloc_never_returns_busy_block FIT 4 one_block (Arena 4148) two_busy
           4096 (Block.mk 4 NULL false true)).
  - split; [vm_compute; discriminate|].
    intros a b Hl. unfold one_block in Hl. cbn [mem] in Hl. headers Hl.
    vm_compute. split; discriminate.
  - vm_compute. reflexivity.
  - reflexivity.
  - vm_compute. reflexivity.
Defined.

(** ** Growth under best fit *)

(** X16: the best-fit search never writes [last], which [malloc] has
    initialised with the head of the chain.  So when a best-fit allocation
    has to grow the heap, the new block is linked behind the head: the chain
    from the head is then the head followed by the new block, whatever was
    linked behind the head before. *)
Theorem best_fit_growth_relinks_head size s p s' h :
  inside s -> FreeList s = Arena h ->
  malloc BEST size s = Ok p s' -> num_grows s' <> num_grows s ->
  exists bh,
    mem s !! h = Some bh /\ p = Arena (brk s + HDR) /\
    FreeList s' = Arena h /\
    chain (mem s') (FreeList s')
      [(h, Block.set_next (Arena (brk s)) bh);
       (brk s, Block.mk (ALIGN4 size) NULL false true)].
Proof.
  intros Hin Hhead H Hgrew.
  destruct (malloc_returns_of _ _ _ _ _ H) as (_ & _ & [Hnull|[Hre|Hgr]]).
  - destruct Hnull as (_ & _ & _ & _ & _ & _ & Hmod).
    unchanged Hmod g_num_grows. done.
  - destruct Hre as (_ & _ & a & b & _ & Hr).
    destruct Hr as (_ & _ & _ & _ & _ & _ & _ & _ & _ & _ & _ & _ & Hmod).
    unchanged Hmod g_num_grows. done.
  - destruct Hgr as (_ & _ & -> & la & b0 & Hg).
    destruct (grows_fresh _ _ _ _ _ _ Hg Hin) as (Hnone & _).
    destruct Hg as (m1 & Hla & _ & Hm & _ & Hfl & _ & Hbest & _).
    rewrite (Hbest eq_refl), Hhead in Hla.
    destruct Hla as [[? _]|(l & bh & [= <-] & Hh & ->)]; [done|].
    assert (h <> brk s) by congruence.
    rewrite Hhead in Hfl. cbn in Hfl.
    exists bh. split; [done|]. split; [done|]. split; [done|].
    rewrite Hfl, Hm. constructor.
    { rewrite lookup_insert_ne by done. by rewrite lookup_insert_eq. }
    cbn. constructor; [by rewrite lookup_insert_eq|]. constructor.
Qed.

Lemma best_fit_growth_relinks_head_witness :
  exists bh,
    mem two_busy !! 4096 = Some bh /\ Arena 4176 = Arena (brk two_busy + HDR) /\
    FreeList middle_dropped = Arena 4096 /\
    chain (mem middle_dropped) (FreeList middle_dropped)
      [(4096, Block.set_next (Arena (brk two_busy)) bh);
       (brk two_busy, Block.mk (ALIGN4 4) NULL false true)].
Proof.
  apply (best_fit_growth_relinks_head 4 two_busy (Arena 4176) middle_dropped).
  - split; [vm_compute; discriminate|].
    intros a b Hl. unfold two_busy in Hl. cbn [mem] in Hl. headers Hl.
    all: vm_compute; split; discriminate.
  - reflexivity.
  - vm_compute. reflexivity.
  - vm_compute. discriminate.
Defined.

(** ** Calls that return *)

Lemma twp_Ok {A} (m : M A) Q s :
  twp m Q s -> exists a s', m s = Ok a s' /\ Q a s'.
Proof. unfold twp. destruct (m s); try done. eauto. Qed.

Lemma twp_eq {A} (m : M A) (Q : A -> state -> Prop) s a s' :
  m s = Ok a s' -> Q a s' -> twp m Q s.
Proof. unfold twp. by intros ->. Qed.

Lemma twp_wp {A} (m : M A) (Q Q' : A -> state -> Prop) s :
  twp m Q s -> wp m Q' s -> twp m (fun a s' => Q a s' /\ Q' a s') s.
Proof. unfold twp, wp. destruct (m s); auto. Qed.

Lemma twp_mono {A} (m : M A) (Q Q' : A -> state -> Prop) s :
  twp m Q s -> (forall a s', Q a s' -> Q' a s') -> twp m Q' s.
Proof. unfold twp. destruct (m s); auto. Qed.

Lemma twp_bind {A B} (m : M A) (k : A -> M B) Q s :
  twp m (fun a => twp (k a) Q) s -> twp (bind m k) Q s.
Proof. unfold twp, bind. destruct (m s); auto. Qed.

Lemma twp_ret {A} (a : A) (Q : A -> state -> Prop) s :
  Q a s -> twp (ret a) Q s.
Proof. auto. Qed.

Lemma twp_gets {A} (f : state -> A) (Q : A -> state -> Prop) s :
  Q (f s) s -> twp (gets f) Q s.
Proof. auto. Qed.

Lemma twp_modify f (Q : unit -> state -> Prop) s :
  Q tt (f s) -> twp (modify f) Q s.
Proof. auto. Qed.

Lemma twp_incr get set (Q : unit -> state -> Prop) s :
  get s < INT_MAX -> Q tt (set (get s + 1) s) -> twp (incr get set) Q s.
Proof.
  unfold twp, incr, int_succ. intros Hlt H.
  destruct (Z.ltb_spec (get s) INT_MAX); [done|lia].
Qed.

Lemma twp_load a b (Q : block -> state -> Prop) s :
  mem s !! a = Some b -> Q b s -> twp (load (Arena a)) Q s.
Proof. unfold twp, load. by intros ->. Qed.

Lemma twp_update a b f (Q : unit -> state -> Prop) s :
  mem s !! a = Some b ->
  Q tt (set_mem (<[a := f b]> (mem s)) s) -> twp (update (Arena a) f) Q s.
Proof. unfold twp, update, bind, load. by intros ->. Qed.

Lemma twp_update_fresh a b f (Q : unit -> state -> Prop) s :
  mem s !! a = Some b ->
  Q tt (set_mem (<[a := f b]> (mem s)) s) ->
  twp (update_fresh (Arena a) f) Q s.
Proof. unfold twp, update_fresh. by intros ->. Qed.

Lemma twp_update_fresh_new a f (Q : unit -> state -> Prop) s :
  mem s !! a = None -> brk_min s <= a -> a + HDR <= brk s ->
  Q tt (set_mem (<[a := f Block.zero]> (mem s)) s) ->
  twp (update_fresh (Arena a) f) Q s.
Proof.
  unfold twp, update_fresh. intros -> H1 H2.
  destruct (Z.leb_spec (brk_min s) a); [|lia].
  destruct (Z.leb_spec (a + HDR) (brk s)); [|lia]. done.
Qed.

Lemma twp_sbrk_0 (Q : ptr -> state -> Prop) s :
  Q (Arena (brk s)) s -> twp (sbrk 0) Q s.
Proof. auto. Qed.

Lemma twp_sbrk n (Q : ptr -> state -> Prop) s :
  n <> 0 -> brk_min s <= brk s + n <= brk_max s ->
  Q (Arena (brk s)) (set_brk (brk s + n) s) -> twp (sbrk n) Q s.
Proof.
  unfold twp, sbrk. intros Hn [H1 H2].
  destruct (Z.eqb_spec n 0); [done|].
  destruct (Z.leb_spec (brk_min s) (brk s + n)); [|lia].
  destruct (Z.leb_spec (brk s + n) (brk_max s)); [|lia]. done.
Qed.

(** The argument of [sbrk] for a block of [size] bytes, when the sum does
    not leave the range of [intptr_t]. *)
Lemma increment_small size :
  0 <= size -> HDR + size < 2 ^ 63 ->
  to_intptr (to_size_t (HDR + size)) = HDR + size.
Proof.
  intros H0 H1. unfold to_intptr, to_size_t, SIZE_MOD, HDR in *.
  rewrite (Z.mod_small (24 + size)) by lia.
  rewrite Z.mod_small by lia. lia.
Qed.

(** [growHeap] returns when the operating system grants the extension, the
    old break holds no header, [last] is null or a header, and the counter
    of growths does not overflow. *)
Lemma growHeap_returns last size s :
  0 < size -> HDR + size < 2 ^ 63 ->
  brk_min s <= brk s -> brk s + HDR + size <= brk_max s ->
  mem s !! brk s = None ->
  (last = NULL \/ exists l bl, last = Arena l /\ mem s !! l = Some bl) ->
  num_grows s < INT_MAX ->
  twp (growHeap last size) (fun _ _ => True) s.
Proof.
  intros Hpos Hsmall Hmin Hmax Hnone Hlast Hg.
  unfold growHeap, growHeap_body.
  rewrite increment_small by lia.
  apply twp_bind, twp_sbrk_0.
  apply twp_bind, twp_sbrk; [unfold HDR; lia|unfold HDR in *; lia|].
  apply twp_bind. unfold assert. cbn [ptr_eqb]. rewrite Z.eqb_refl.
  apply twp_ret. cbn [ptr_eqb].
  apply twp_bind, twp_gets. simpl_state.
  apply twp_bind.
  assert (Hhead : forall Q : unit -> state -> Prop,
            (forall h, Q tt (set_FreeList h (set_brk (brk s + (HDR + size)) s))) ->
            twp (when (ptr_eqb (FreeList s) NULL)
                      (modify (set_FreeList (Arena (brk s))))) Q
                (set_brk (brk s + (HDR + size)) s)).
  { intros Q HQ. unfold when. destruct (ptr_eqb (FreeList s) NULL).
    - apply twp_modify. apply HQ.
    - apply twp_ret.
      replace (set_brk (brk s + (HDR + size)) s)
        with (set_FreeList (FreeList s) (set_brk (brk s + (HDR + size)) s))
        by (by destruct s).
      apply HQ. }
  apply Hhead. intros h.
  apply twp_bind.
  assert (Hlink : forall Q : unit -> state -> Prop,
            (forall m, m !! brk s = None ->
               Q tt (set_mem m (set_FreeList h
                       (set_brk (brk s + (HDR + size)) s)))) ->
            twp (when (negb (ptr_eqb last NULL))
                      (update last (Block.set_next (Arena (brk s))))) Q
                (set_FreeList h (set_brk (brk s + (HDR + size)) s))).
  { intros Q HQ. destruct Hlast as [->|(l & bl & -> & Hl)].
    - cbn. apply twp_ret.
      replace (set_FreeList h (set_brk (brk s + (HDR + size)) s))
        with (set_mem (mem s) (set_FreeList h
                (set_brk (brk s + (HDR + size)) s))) by (by destruct s).
      by apply HQ.
    - cbn. eapply twp_update; [exact Hl|]. simpl_state. apply HQ.
      rewrite lookup_insert_ne; [done|]. intros ->. congruence. }
  apply Hlink. intros m Hm.
  apply twp_bind, twp_update_fresh_new; simpl_state;
    [done|lia|unfold HDR in *; lia|].
  apply twp_bind. eapply twp_update_fresh;
    [simpl_state; apply lookup_insert_eq|]. simpl_state.
  apply twp_bind. eapply twp_update_fresh;
    [simpl_state; apply lookup_insert_eq|]. simpl_state.
  apply twp_bind, twp_incr; [done|]. simpl_state.
  apply twp_bind, twp_gets. simpl_state.
  apply twp_bind.
  { unfold when. destruct (_ <? _); [apply twp_modify|apply twp_ret];
      by apply twp_ret. }
Qed.

(** ** Growth under first fit *)

Lemma next_scan_miss S l : forall last,
  (forall x, x ∈ l -> fits S x.2 = false) ->
  next_scan S l last = (NULL, last_of l last, length l).
Proof.
  induction l as [|[a b] l IH]; intros last Hall; [reflexivity|].
  cbn [next_scan].
  pose proof (Hall (a, b) ltac:(by left)) as Hab. cbn in Hab. rewrite Hab.
  rewrite IH by (intros x Hx; apply Hall; by right).
  by rewrite last_of_cons.
Qed.

(** Extending a map outside a chain leaves the chain as it is. *)
Lemma chain_insert_other m p l a b :
  chain m p l -> a ∉ l.*1 -> chain (<[a := b]> m) p l.
Proof.
  induction 1 as [|x bx l Hx Hc IH]; intros Ha; [constructor|].
  cbn in Ha. apply not_elem_of_cons in Ha as [Hne Ha].
  constructor; [by rewrite lookup_insert_ne|auto].
Qed.

(** Linking the tail of a chain to a new header that has no successor
    appends the new header to the chain. *)
Lemma chain_link_tail m p l a new t bt :
  chain m p l -> last l = Some (t, bt) -> a ∉ l.*1 ->
  Block.next new = NULL ->
  chain (<[a := new]> (<[t := Block.set_next (Arena a) bt]> m)) p
    (link_tail l (Arena a) ++ [(a, new)]).
Proof.
  intros Hc. pose proof (chain_NoDup _ _ _ Hc) as Hnd.
  induction Hc as [|x bx l Hx Hc IH]; intros Hlast Ha Hnew; [done|].
  cbn in Ha, Hnd. apply not_elem_of_cons in Ha as [Hne Ha].
  apply NoDup_cons in Hnd as [Hxl Hnd].
  destruct l as [|y l].
  - cbn in Hlast. simplify_eq. cbn. constructor.
    { rewrite lookup_insert_ne by done. by rewrite lookup_insert_eq. }
    cbn. constructor; [by rewrite lookup_insert_eq|].
    rewrite Hnew. constructor.
  - rewrite last_cons_cons in Hlast.
    change (link_tail ((x, bx) :: y :: l) (Arena a))
      with ((x, bx) :: link_tail (y :: l) (Arena a)).
    cbn [app]. constructor; [|by apply IH].
    rewrite lookup_insert_ne by done. rewrite lookup_insert_ne; [done|].
    intros <-. apply Hxl. apply last_Some_elem_of in Hlast.
    apply list_elem_of_fmap. by exists (t, bt).
Qed.

(** The value in [last] after a walk over a whole chain is null or a
    header. *)
Lemma last_of_chain m p l :
  chain m p l ->
  (l = [] /\ p = NULL /\ last_of l p = NULL) \/
  (exists a0 b0 l' t bt,
     l = (a0, b0) :: l' /\ p = Arena a0 /\ last l = Some (t, bt) /\
     last_of l p = Arena t /\ m !! t = Some bt).
Proof.
  intros Hc. destruct Hc as [|a b l Ha Hc]; [by left|]. right.
  assert (Hc' : chain m (Arena a) ((a, b) :: l)) by by constructor.
  destruct (last ((a, b) :: l)) as [[t bt]|] eqn:Hl;
    [|by apply last_None in Hl].
  exists a, b, l, t, bt. split; [done|]. split; [done|]. split; [done|].
  split; [unfold last_of; by rewrite Hl|].
  apply (chain_lookup _ _ _ _ _ Hc'). by apply last_Some_elem_of.
Qed.

(** One step of symbolic execution of a program that returns. *)
Ltac twp_step :=
  lazymatch goal with
  | |- twp (bind _ _) _ _ => apply twp_bind
  | |- twp (ret _) _ _ => apply twp_ret
  | |- twp (gets _) _ _ => apply twp_gets
  | |- twp (modify _) _ _ => apply twp_modify
  | |- twp (incr _ _) _ _ => apply twp_incr; [simpl_state; assumption|]
  | |- twp (load (Arena _)) _ _ =>
      eapply twp_load; [simpl_state; first [eassumption|apply lookup_insert_eq]|]
  | |- twp (update (Arena _) _) _ _ =>
      eapply twp_update;
      [simpl_state; first [eassumption|apply lookup_insert_eq]|]
  end; cbv beta; simpl_state.

Lemma malloc_first_fit_miss sz s l :
  inside s ->
  chain (mem s) (FreeList s) l ->
  Z.of_nat (size (mem s)) <= INT_MAX ->
  (forall x, x ∈ l -> fits (ALIGN4 sz) x.2 = false) ->
  0 < ALIGN4 sz -> HDR + ALIGN4 sz < 2 ^ 63 ->
  brk s + HDR + ALIGN4 sz <= brk_max s ->
  num_grows s < INT_MAX -> num_mallocs s < INT_MAX ->
  twp (malloc FIT sz)
      (fun p s' =>
         p = Arena (brk s + HDR) /\
         brk s' = brk s + HDR + ALIGN4 sz /\
         FreeList s' =
           (if ptr_eqb (FreeList s) NULL then Arena (brk s) else FreeList s) /\
         mem s' =
           <[brk s := Block.mk (ALIGN4 sz) NULL false true]>
             (match last l with
              | Some (t, bt) =>
                  <[t := Block.set_next (Arena (brk s)) bt]> (mem s)
              | None => mem s
              end) /\
         num_grows s' = num_grows s + 1 /\
         num_mallocs s' = num_mallocs s + 1 /\
         num_reuses s' = num_reuses s /\
         num_blocks s' = Z.of_nat (length l)) s.
Proof.
  intros Hin Hc Hsz Hall Hpos Hsmall Hmax Hg Hm.
  pose proof Hin as [Hmin Hhdr].
  assert (Hnone : mem s !! brk s = None).
  { destruct (mem s !! brk s) as [b|] eqn:E; [|done].
    destruct (Hhdr _ _ E). unfold HDR in *. lia. }
  unfold malloc. twp_step. twp_step. twp_step.
  assert (Hentry : forall Q : unit -> state -> Prop,
            (forall v, Q tt (set_atexit_registered v s)) ->
            twp (when (atexit_registered s =? 0)
                      (modify (set_atexit_registered 1))) Q s).
  { intros Q HQ. unfold when. destruct (_ =? _).
    - apply twp_modify, HQ.
    - apply twp_ret.
      assert (Hs : set_atexit_registered (atexit_registered s) s = s)
        by (by destruct s).
      rewrite <- Hs. apply HQ. }
  apply Hentry. intros v.
  destruct (Z.eqb_spec (ALIGN4 sz) 0) as [|_]; [lia|].
  twp_step. twp_step. twp_step.
  eapply twp_eq.
  { apply (findFreeBlock_first_fit_scan _ _ _ l); simpl_state; done. }
  rewrite next_scan_miss by done. cbn [fst snd ptr_eqb].
  twp_step. twp_step. twp_step. unfold when. twp_step. twp_step.
  assert (Hlast :
    (l = [] /\ FreeList s = NULL /\ last_of l (FreeList s) = NULL) \/
    (exists a0 b0 l' t bt,
       l = (a0, b0) :: l' /\ FreeList s = Arena a0 /\
       last l = Some (t, bt) /\
       last_of l (FreeList s) = Arena t /\ mem s !! t = Some bt))
    by (by apply last_of_chain).
  eapply twp_mono.
  { apply twp_wp; [|apply growHeap_effect].
    apply growHeap_returns; simpl_state; try done; try lia.
    destruct Hlast as [(_ & _ & ->)|(a0 & b0 & l' & t & bt & _ & _ & _ & -> & Ht)];
      [by left|right; eauto]. }
  intros r s2 [_ (m1 & b0 & -> & Hla & Hold & _ & ->)]. simpl_state.
  rewrite increment_small in * by lia.
  assert (Hm1 : m1 = match last l with
                     | Some (t, bt) =>
                         <[t := Block.set_next (Arena (brk s)) bt]> (mem s)
                     | None => mem s
                     end /\ m1 !! brk s = None).
  { destruct Hlast as [(-> & _ & Hl)|
      (a0 & b0' & l' & t & bt & _ & _ & Hl & Hlo & Ht)].
    - rewrite Hl in Hla. destruct Hla as [[_ ->]|(? & ? & ? & _)]; done.
    - rewrite Hlo, Hl in *.
      destruct Hla as [[? _]|(t' & bt' & [= <-] & Ht' & ->)]; [done|].
      simplify_eq. split; [done|].
      rewrite lookup_insert_ne; [done|]. intros ->. congruence. }
  destruct Hm1 as [Hm1 Hfresh].
  destruct Hold as [?|(_ & -> & _)]; [congruence|].
  cbn [ptr_eqb Block.dirty Block.zero BLOCK_DATA].
  repeat (twp_step; cbn [Block.dirty]).
  rewrite !insert_insert_eq, <- Hm1.
  repeat split; try reflexivity; try lia.
Qed.

(** X17: growth under first fit, as a call that returns.  In a process
    whose headers lie inside the data segment and whose chain from the head
    ends, when no header of the chain is free and large enough, the
    operating system grants the extension and the two counters do not
    overflow, [malloc] returns the data address behind the old break, moves
    the break by a header and the aligned request, and appends the new
    header to the chain: the old tail is linked to it, and on an empty
    chain it becomes the head.  The block is counted as a growth and not as
    a reuse. *)
Theorem first_fit_growth_appends sz s l :
  inside s ->
  chain (mem s) (FreeList s) l ->
  Z.of_nat (size (mem s)) <= INT_MAX ->
  (forall x, x ∈ l -> fits (ALIGN4 sz) x.2 = false) ->
  0 < ALIGN4 sz -> HDR + ALIGN4 sz < 2 ^ 63 ->
  brk s + HDR + ALIGN4 sz <= brk_max s ->
  num_grows s < INT_MAX -> num_mallocs s < INT_MAX ->
  exists s',
    malloc FIT sz s = Ok (Arena (brk s + HDR)) s' /\
    brk s' = brk s + HDR + ALIGN4 sz /\
    chain (mem s') (FreeList s')
      (link_tail l (Arena (brk s))
         ++ [(brk s, Block.mk (ALIGN4 sz) NULL false true)]) /\
    num_grows s' = num_grows s + 1 /\ num_reuses s' = num_reuses s.
Proof.
  intros Hin Hc Hsz Hall Hpos Hsmall Hmax Hg Hm.
  destruct (twp_Ok _ _ _
              (malloc_first_fit_miss sz s l Hin Hc Hsz Hall Hpos Hsmall Hmax
                 Hg Hm))
    as (p & s' & Hrun & -> & Hbrk & Hfl & Hmem & Hgr & _ & Hre & _).
  exists s'. split; [done|]. split; [done|]. split; [|by split].
  assert (Hnone : mem s !! brk s = None).
  { destruct Hin as [_ Hhdr].
    destruct (mem s !! brk s) as [b|] eqn:E; [|done].
    destruct (Hhdr _ _ E). unfold HDR in *. lia. }
  rewrite Hfl, Hmem.
  destruct (last_of_chain _ _ _ Hc) as [(-> & Hhead & _)|
    (a0 & b0 & l' & t & bt & Hl & Hhead & Hlast & _ & Ht)];
    rewrite Hhead in *.
  - cbn. constructor; [by rewrite lookup_insert_eq|]. constructor.
  - rewrite Hlast. cbn [ptr_eqb].
    apply chain_link_tail; try done.
    intros Hin'. apply list_elem_of_fmap in Hin' as ([a b] & Heq & Hab).
    cbn in Heq. rewrite Heq in Hnone.
    by rewrite (chain_lookup _ _ _ _ _ Hc Hab) in Hnone.
Qed.

Lemma first_fit_growth_appends_witness :
  exists s',
    malloc FIT 4 one_block = Ok (Arena (brk one_block + HDR)) s' /\
    brk s' = brk one_block + HDR + ALIGN4 4 /\
    chain (mem s') (FreeList s')
      (link_tail [(4096, Block.mk 4 NULL false true)] (Arena (brk one_block))
         ++ [(brk one_block, Block.mk (ALIGN4 4) NULL false true)]) /\
    num_grows s' = num_grows one_block + 1 /\
    num_reuses s' = num_reuses one_block.
Proof.
  apply (first_fit_growth_appends 4 one_block
           [(4096, Block.mk 4 NULL false true)]).
  - split; [vm_compute; discriminate|].
    intros a b Hl. unfold one_block in Hl. cbn [mem] in Hl. headers Hl.
    vm_compute. split; discriminate.
  - repeat (constructor; [reflexivity|]). constructor.
  - vm_compute. discriminate.
  - intros x Hx.
    repeat (apply elem_of_cons in Hx as [->|Hx]; [reflexivity|]).
    inversion Hx.
  - reflexivity.
  - reflexivity.
  - vm_compute. discriminate.
  - reflexivity.
  - reflexivity.
Defined.

(** ** Registration of the exit handler *)

(** The test of [atexit_registered] is the first statement of [malloc]:
    every call that returns has set a clear flag, and has left a flag that
    was set as it was. *)
Lemma malloc_atexit pol sz p s s' :
  malloc pol sz s = Ok p s' ->
  atexit_registered s' =
    (if atexit_registered s =? 0 then 1 else atexit_registered s).
Proof.
  intros H. by destruct (malloc_returns_of _ _ _ _ _ H) as (Hreg & _).
Qed.

(** [free] does not write the flag. *)
Lemma free_atexit p s s' :
  free p s = Ok tt s' -> atexit_registered s' = atexit_registered s.
Proof.
  intros H.
  assert (Hfr : free_returns (fun _ _ => True) p s s')
    by (by apply free_returns_of).
  destruct Hfr as [[-> ->]|(x & c & -> & Hc & Hf & Hlt & Hco)]; [done|].
  destruct Hco as (m & n & -> & _); [done|]. by simpl_state.
Qed.

Lemma transition_atexit pol s s' :
  transition pol s s' ->
  (atexit_registered s <> 0 -> atexit_registered s' = atexit_registered s) /\
  (atexit_registered s = 0 ->
   atexit_registered s' = 0 \/ atexit_registered s' = 1).
Proof.
  intros [sz p H|p H].
  - rewrite (malloc_atexit _ _ _ _ _ H).
    destruct (Z.eqb_spec (atexit_registered s) 0); split; auto; done.
  - rewrite (free_atexit _ _ _ H). split; auto.
Qed.

Lemma run_atexit pol s s' :
  rtc (transition pol) s s' ->
  (atexit_registered s <> 0 -> atexit_registered s' = atexit_registered s) /\
  (atexit_registered s = 0 ->
   atexit_registered s' = 0 \/ atexit_registered s' = 1).
Proof.
  intros Hrun. induction Hrun as [s|s1 s2 s3 Hstep _ [IH1 IH0]].
  { split; [done|]. intros ->. by left. }
  destruct (transition_atexit _ _ _ Hstep) as [Hset Hclear].
  split.
  - intros Hnz. rewrite IH1; rewrite Hset; done.
  - intros Hz. destruct (Hclear Hz) as [H0|H1]; [by apply IH0|].
    right. rewrite IH1; lia.
Qed.

(** X18: the flag that guards the registration of the exit handler.  A call
    of [malloc] that returns has set the flag to 1 when it found it clear,
    and has left it as it was otherwise; a call of [free] that returns has
    left the flag as it was.  So over any number of calls that return, a
    flag that is set keeps its value and a flag that is clear is still clear
    or has become 1; and after a call of [malloc] the flag is set and keeps
    its value through every later call. *)
Theorem exit_handler_registered_once pol :
  (forall sz p s s',
     malloc pol sz s = Ok p s' ->
     atexit_registered s' =
       (if atexit_registered s =? 0 then 1 else atexit_registered s)) /\
  (forall p s s',
     free p s = Ok tt s' -> atexit_registered s' = atexit_registered s) /\
  (forall s s',
     rtc (transition pol) s s' ->
     (atexit_registered s <> 0 ->
      atexit_registered s' = atexit_registered s) /\
     (atexit_registered s = 0 ->
      atexit_registered s' = 0 \/ atexit_registered s' = 1)) /\
  (forall sz p s s1 s',
     malloc pol sz s = Ok p s1 -> rtc (transition pol) s1 s' ->
     atexit_registered s1 <> 0 /\
     atexit_registered s' = atexit_registered s1).
Proof.
  split; [apply malloc_atexit|]. split; [apply free_atexit|].
  split; [apply run_atexit|].
  intros sz p s s1 s' Hm Hrun.
  assert (Hnz : atexit_registered s1 <> 0).
  { rewrite (malloc_atexit _ _ _ _ _ Hm).
    by destruct (Z.eqb_spec (atexit_registered s) 0). }
  split; [exact Hnz|]. by apply (run_atexit pol s1 s').
Qed.

Lemma exit_handler_registered_once_witness :
  malloc FIT 5 fresh = Ok (Arena 4120) eight_bytes /\
  free (Arena 4120) one_block = Ok tt once_freed /\
  atexit_registered fresh = 0 /\ atexit_registered eight_bytes = 1 /\
  atexit_registered once_freed = atexit_registered one_block /\
  atexit_registered once_freed <> 0.
Proof.
  assert (H1 : malloc FIT 5 fresh = Ok (Arena 4120) eight_bytes)
    by (vm_compute; reflexivity).
  assert (H2 : malloc FIT 4 fresh = Ok (Arena 4120) one_block)
    by (vm_compute; reflexivity).
  assert (H3 : free (Arena 4120) one_block = Ok tt once_freed)
    by (vm_compute; reflexivity).
  destruct (exit_handler_registered_once FIT) as (Hm & Hf & Hrun & Hafter).
  split; [exact H1|]. split; [exact H3|]. split; [reflexivity|].
  split; [exact (Hm 5 (Arena 4120) fresh eight_bytes H1)|].
  split; [exact (Hf (Arena 4120) one_block once_freed H3)|].
  destruct (Hafter 4 (Arena 4120) fresh one_block once_freed H2) as [Hnz Heq].
  - apply rtc_once. exact (transition_free FIT _ _ (Arena 4120) H3).
  - rewrite Heq. exact Hnz.
Defined.

(** ** Reuse under first fit *)

Lemma next_scan_hit S l1 a b l2 : forall last,
  (forall x, x ∈ l1 -> fits S x.2 = false) -> fits S b = true ->
  next_scan S (l1 ++ (a, b) :: l2) last
  = (Arena a, last_of l1 last, length l1).
Proof.
  induction l1 as [|[a1 b1] l1 IH]; intros last Hall Hfit; cbn [app next_scan].
  - by rewrite Hfit.
  - pose proof (Hall (a1, b1) ltac:(by left)) as H1. cbn in H1. rewrite H1.
    rewrite IH by (try done; intros x Hx; apply Hall; by right).
    by rewrite last_of_cons.
Qed.

Lemma malloc_first_fit_hit sz s l1 a b l2 :
  chain (mem s) (FreeList s) (l1 ++ (a, b) :: l2) ->
  Z.of_nat (size (mem s)) <= INT_MAX ->
  (forall x, x ∈ l1 -> fits (ALIGN4 sz) x.2 = false) ->
  fits (ALIGN4 sz) b = true ->
  ALIGN4 sz <> 0 ->
  num_splits s < INT_MAX -> num_reuses s < INT_MAX ->
  num_mallocs s < INT_MAX ->
  twp (malloc FIT sz)
      (fun p s' =>
         p = Arena (a + HDR) /\
         mem s' =
           <[a := Block.mk (ALIGN4 sz)
                    (if ALIGN4 sz <? Block.size b then StackTemp
                     else Block.next b) false true]> (mem s) /\
         brk s' = brk s /\ FreeList s' = FreeList s /\
         num_grows s' = num_grows s /\
         num_mallocs s' = num_mallocs s + 1 /\
         num_reuses s' = num_reuses s + (if Block.dirty b then 1 else 0) /\
         num_splits s' =
           num_splits s + (if ALIGN4 sz <? Block.size b then 1 else 0) /\
         num_blocks s' = Z.of_nat (length l1)) s.
Proof.
  intros Hc Hsz Hall Hfit Hnz Hsp Hre Hm.
  assert (Ha : mem s !! a = Some b).
  { apply (chain_lookup _ _ _ _ _ Hc). apply elem_of_app. right. left. }
  pose proof Hfit as [Hfree Hle%Z.leb_le]%andb_true_iff.
  unfold malloc. twp_step. twp_step. twp_step.
  assert (Hentry : forall Q : unit -> state -> Prop,
            (forall v, Q tt (set_atexit_registered v s)) ->
            twp (when (atexit_registered s =? 0)
                      (modify (set_atexit_registered 1))) Q s).
  { intros Q HQ. unfold when. destruct (_ =? _).
    - apply twp_modify, HQ.
    - apply twp_ret.
      assert (Hs : set_atexit_registered (atexit_registered s) s = s)
        by (by destruct s).
      rewrite <- Hs. apply HQ. }
  apply Hentry. intros v.
  destruct (Z.eqb_spec (ALIGN4 sz) 0) as [|_]; [done|].
  twp_step. twp_step. twp_step.
  eapply twp_eq.
  { apply (findFreeBlock_first_fit_scan _ _ _ (l1 ++ (a, b) :: l2));
      simpl_state; done. }
  rewrite next_scan_hit by done. cbn [fst snd ptr_eqb].
  twp_step. twp_step. twp_step. twp_step.
  unfold when, split.
  destruct (ALIGN4 sz <? Block.size b) eqn:Hlt;
    destruct (Block.dirty b) eqn:Hd;
    repeat (twp_step;
            cbn [Block.dirty Block.set_next Block.set_size Block.set_free
                 Block.set_dirty Block.size Block.next Block.free
                 BLOCK_DATA ptr_eqb]; rewrite ?Hd).
  all: rewrite !insert_insert_eq.
  all: repeat split; try reflexivity; try lia.
  all: apply Z.ltb_ge in Hlt; f_equal.
  all: unfold Block.set_dirty, Block.set_free; cbn; f_equal; lia.
Qed.

(** X19: reuse under first fit, as a call that returns.  On a heap whose
    chain from the head ends, when [b] at [a] is the first header of the
    chain that is free and large enough and the counters do not overflow,
    [malloc] returns the data address of [a] without moving the break.  The
    header is busy and used afterwards and has exactly the aligned size; a
    larger block counts as a split and is left with the dead automatic
    variable as its successor, a block of exactly that size keeps its
    successor. *)
Theorem first_fit_reuses_first sz s l1 a b l2 :
  chain (mem s) (FreeList s) (l1 ++ (a, b) :: l2) ->
  Z.of_nat (size (mem s)) <= INT_MAX ->
  (forall x, x ∈ l1 -> fits (ALIGN4 sz) x.2 = false) ->
  fits (ALIGN4 sz) b = true ->
  ALIGN4 sz <> 0 ->
  num_splits s < INT_MAX -> num_reuses s < INT_MAX ->
  num_mallocs s < INT_MAX ->
  exists s',
    malloc FIT sz s = Ok (Arena (a + HDR)) s' /\
    mem s' =
      <[a := Block.mk (ALIGN4 sz)
               (if ALIGN4 sz <? Block.size b then StackTemp
                else Block.next b) false true]> (mem s) /\
    brk s' = brk s /\ FreeList s' = FreeList s /\
    num_grows s' = num_grows s /\
    num_splits s' =
      num_splits s + (if ALIGN4 sz <? Block.size b then 1 else 0).
Proof.
  intros Hc Hsz Hall Hfit Hnz Hsp Hre Hm.
  destruct (twp_Ok _ _ _
              (malloc_first_fit_hit sz s l1 a b l2 Hc Hsz Hall Hfit Hnz Hsp
                 Hre Hm))
    as (p & s' & Hrun & -> & Hmem & Hbrk & Hfl & Hgr & _ & _ & Hspl & _).
  exists s'. by repeat split.
Qed.

Lemma first_fit_reuses_first_witness :
  exists s',
    malloc FIT 20 three_candidates = Ok (Arena (4130 + HDR)) s' /\
    mem s' =
      <[4130 := Block.mk (ALIGN4 20)
                  (if ALIGN4 20 <? Block.size (Block.mk 50 (Arena 4204) true true)
                   then StackTemp
                   else Block.next (Block.mk 50 (Arena 4204) true true))
                  false true]> (mem three_candidates) /\
    brk s' = brk three_candidates /\
    FreeList s' = FreeList three_candidates /\
    num_grows s' = num_grows three_candidates /\
    num_splits s' =
      num_splits three_candidates
      + (if ALIGN4 20 <? Block.size (Block.mk 50 (Arena 4204) true true)
         then 1 else 0).
Proof.
  apply (first_fit_reuses_first 20 three_candidates
           [(4096, Block.mk 10 (Arena 4130) true true)] 4130
           (Block.mk 50 (Arena 4204) true true)
           [(4204, Block.mk 5 NULL true true)]).
  - repeat (constructor; [reflexivity|]). constructor.
  - vm_compute. discriminate.
  - intros x Hx.
    repeat (apply elem_of_cons in Hx as [->|Hx]; [reflexivity|]).
    inversion Hx.
  - reflexivity.
  - vm_compute. discriminate.
  - reflexivity.
  - reflexivity.
  - reflexivity.
Defined.

(** ** Deallocation on a chain that ends *)

(** On a chain that ends, the header linked to [a] is the one before [a]. *)
Lemma chain_pred_unique m p l1 a c rest y b :
  chain m p (l1 ++ (a, c) :: rest) ->
  (y, b) ∈ l1 ++ (a, c) :: rest -> Block.next b = Arena a ->
  last l1 = Some (y, b).
Proof.
  intros Hc Hin Hnext.
  pose proof (chain_NoDup _ _ _ Hc) as Hnd.
  apply list_elem_of_split in Hin as (pre & post & Heq).
  rewrite Heq in Hc.
  destruct (chain_suffix _ _ _ _ Hc) as [q Hq].
  inversion Hq as [|? ? ? Hy Hpost]; subst. rewrite Hnext in Hpost.
  inversion Hpost as [|? c' post' Ha Hrest]; subst.
  assert (Hlen : length (pre ++ [(y, b)]) = length l1).
  { assert (Hk : (l1 ++ (a, c) :: rest).*1 !! length l1 = Some a).
    { rewrite fmap_app. rewrite lookup_app_r by (by rewrite length_fmap).
      by rewrite length_fmap, Nat.sub_diag. }
    assert (Hk' : (l1 ++ (a, c) :: rest).*1 !! length (pre ++ [(y, b)])
                  = Some a).
    { rewrite Heq.
      change (pre ++ (y, b) :: (a, c') :: post')
        with (pre ++ [(y, b)] ++ (a, c') :: post').
      rewrite app_assoc, fmap_app.
      rewrite lookup_app_r by (by rewrite length_fmap).
      by rewrite length_fmap, Nat.sub_diag. }
    exact (NoDup_lookup _ _ _ _ Hnd Hk' Hk). }
  change (pre ++ (y, b) :: (a, c') :: post')
    with (pre ++ [(y, b)] ++ (a, c') :: post') in Heq.
  rewrite app_assoc in Heq.
  apply app_inj_1 in Heq as [-> _]; [|by symmetry].
  by rewrite last_snoc.
Qed.

(** Replacing a header of a chain by one with the same successor. *)
Lemma chain_replace m p l1 a c c' rest :
  chain m p (l1 ++ (a, c) :: rest) -> Block.next c' = Block.next c ->
  chain (<[a := c']> m) p (l1 ++ (a, c') :: rest).
Proof.
  intros Hc Hn. pose proof (chain_NoDup _ _ _ Hc) as Hnd. revert p Hc Hnd.
  induction l1 as [|[x bx] l1 IH]; intros p Hc Hnd; inversion Hc; subst; cbn.
  - constructor; [by rewrite lookup_insert_eq|]. rewrite Hn.
    apply chain_insert_other; [done|].
    cbn in Hnd. by apply NoDup_cons in Hnd as [? _].
  - cbn in Hnd. apply NoDup_cons in Hnd as [Hx Hnd].
    constructor; [|by apply IH].
    rewrite lookup_insert_ne; [done|]. intros <-. apply Hx.
    rewrite fmap_app. apply elem_of_app. right. left.
Qed.

(** The backward loop passes over headers that are not a free header
    linked to the current block, and changes nothing. *)
Lemma coalesce_left_loop_skip a l : forall fuel temp s,
  chain (mem s) temp l -> (length l < fuel)%nat ->
  (forall x, x ∈ l ->
     ptr_eqb (Block.next x.2) (Arena a) && Block.free x.2 = false) ->
  coalesce_left_loop fuel (Arena a) temp s = Ok tt s.
Proof.
  induction l as [|[y b] l IH]; intros fuel temp s Hc Hf Hall;
    (destruct fuel as [|fuel]; [cbn in Hf; lia|]); inversion Hc; subst.
  - reflexivity.
  - cbn [coalesce_left_loop ptr_eqb length] in *.
    unfold bind at 1. unfold load at 1.
    match goal with H : mem s !! y = Some b |- _ => rewrite H end.
    pose proof (Hall (y, b) ltac:(by left)) as Hy. cbn in Hy.
    unfold bind at 1. unfold when at 1. rewrite Hy. unfold ret at 1.
    unfold bind at 1. unfold load at 1.
    match goal with H : mem s !! y = Some b |- _ => rewrite H end.
    apply IH; [done|lia|]. intros x Hx. apply Hall. by right.
Qed.

(** The same over a prefix of a chain. *)
Lemma coalesce_left_loop_prefix a l0 l' : forall fuel temp s,
  chain (mem s) temp (l0 ++ l') -> (length l0 <= fuel)%nat ->
  (forall x, x ∈ l0 ->
     ptr_eqb (Block.next x.2) (Arena a) && Block.free x.2 = false) ->
  exists q,
    chain (mem s) q l' /\
    coalesce_left_loop fuel (Arena a) temp s
    = coalesce_left_loop (fuel - length l0) (Arena a) q s.
Proof.
  induction l0 as [|[y b] l0 IH]; intros fuel temp s Hc Hf Hall.
  - exists temp. split; [done|]. cbn. by rewrite Nat.sub_0_r.
  - destruct fuel as [|fuel]; [cbn in Hf; lia|]. inversion Hc; subst.
    cbn [length] in *.
    destruct (IH fuel (Block.next b) s) as (q & Hq & Heq);
      [done|lia|intros x Hx; apply Hall; by right|].
    exists q. split; [done|]. rewrite Nat.sub_succ, <- Heq.
    cbn [coalesce_left_loop ptr_eqb].
    unfold bind at 1. unfold load at 1.
    match goal with H : mem s !! y = Some b |- _ => rewrite H end.
    pose proof (Hall (y, b) ltac:(by left)) as Hy. cbn in Hy.
    unfold bind at 1. unfold when at 1. rewrite Hy. unfold ret at 1.
    unfold bind at 1. unfold load at 1.
    match goal with H : mem s !! y = Some b |- _ => rewrite H end.
    reflexivity.
Qed.

(** Redirecting a header of a chain to a later part of the chain. *)
Lemma chain_redirect m p l1 a c c' rest rest' :
  chain m p (l1 ++ (a, c) :: rest) ->
  chain m (Block.next c') rest' -> a ∉ rest'.*1 ->
  chain (<[a := c']> m) p (l1 ++ (a, c') :: rest').
Proof.
  intros Hc Hr Ha. pose proof (chain_NoDup _ _ _ Hc) as Hnd. revert p Hc Hnd.
  induction l1 as [|[x bx] l1 IH]; intros p Hc Hnd; inversion Hc; subst; cbn.
  - constructor; [by rewrite lookup_insert_eq|].
    by apply chain_insert_other.
  - cbn in Hnd. apply NoDup_cons in Hnd as [Hx Hnd].
    constructor; [|by apply IH].
    rewrite lookup_insert_ne; [done|]. intros <-. apply Hx.
    rewrite fmap_app. apply elem_of_app. right. left.
Qed.

(** The part of [free] before the coalescing. *)
Lemma free_marks_first a c s :
  mem s !! a = Some c -> Block.free c = false -> num_frees s < INT_MAX ->
  free (Arena (a + HDR)) s
  = (coalesce_right (Arena a);;
     let* fuel := gets fuel_of in
     coalesce_left_loop fuel (Arena a) (FreeList s))
      (set_num_frees (num_frees s + 1)
         (set_mem (<[a := Block.set_free true c]> (mem s)) s)).
Proof.
  intros Ha Hf Hlt. unfold free. cbn [ptr_eqb BLOCK_HEADER].
  replace (a + HDR - HDR) with a by lia.
  unfold bind at 1. unfold gets at 1.
  unfold bind at 1. unfold load at 1. rewrite Ha.
  unfold bind at 1. unfold assert. rewrite Hf. cbn [negb]. unfold ret at 1.
  unfold bind at 1. unfold update at 1, bind at 1, load at 1. rewrite Ha.
  unfold modify at 1.
  unfold bind at 1. unfold incr at 1, int_succ. simpl_state.
  destruct (Z.ltb_spec (num_frees s) INT_MAX) as [_|]; [|lia].
  reflexivity.
Qed.

(** Forward coalescing does nothing when the successor is null or busy. *)
Lemma coalesce_right_skip a c1 s :
  mem s !! a = Some c1 ->
  (Block.next c1 = NULL \/
   exists r rb, Block.next c1 = Arena r /\ mem s !! r = Some rb /\
                Block.free rb = false) ->
  coalesce_right (Arena a) s = Ok tt s.
Proof.
  intros Ha Hn. unfold coalesce_right.
  unfold bind at 1. unfold load at 1. rewrite Ha.
  destruct Hn as [->|(r & rb & -> & Hr & Hf)]; [reflexivity|].
  cbn [ptr_eqb]. unfold bind at 1. unfold load at 1. rewrite Hr.
  unfold when. by rewrite Hf.
Qed.

(** Forward coalescing with a free successor. *)
Lemma coalesce_right_merge a c1 r rb s :
  mem s !! a = Some c1 -> Block.next c1 = Arena r -> r <> a ->
  mem s !! r = Some rb -> Block.free rb = true ->
  num_coalesces s < INT_MAX ->
  coalesce_right (Arena a) s
  = Ok tt
      (set_mem
         (<[a := Block.mk (to_size_t (Block.size c1 + Block.size rb))
                   (Block.next rb) (Block.free c1) (Block.dirty c1)]> (mem s))
         (set_num_coalesces (num_coalesces s + 1) s)).
Proof.
  intros Ha Hn Hne Hr Hf Hlt. unfold coalesce_right.
  unfold bind at 1. unfold load at 1. rewrite Ha, Hn.
  cbn [ptr_eqb]. unfold bind at 1. unfold load at 1. rewrite Hr.
  unfold when. rewrite Hf.
  unfold bind at 1. unfold update at 1, bind at 1, load at 1. rewrite Ha.
  unfold modify at 1.
  unfold bind at 1. unfold incr at 1, int_succ. simpl_state.
  destruct (Z.ltb_spec (num_coalesces s) INT_MAX) as [_|]; [|lia].
  unfold bind at 1. unfold load at 1. simpl_state.
  rewrite lookup_insert_ne by done. rewrite Hr.
  assert (Hboth : forall v,
    update (Arena a) (Block.set_next v)
      (set_num_coalesces (num_coalesces s + 1)
         (set_mem
            (<[a := Block.set_size
                      (to_size_t (Block.size c1 + Block.size rb)) c1]>
               (mem s)) s))
    = Ok tt
        (set_mem
           (<[a := Block.mk (to_size_t (Block.size c1 + Block.size rb))
                     v (Block.free c1) (Block.dirty c1)]> (mem s))
           (set_num_coalesces (num_coalesces s + 1) s))).
  { intros v. unfold update, bind, load, modify. simpl_state.
    rewrite lookup_insert_eq. simpl_state.
    rewrite insert_insert_eq. reflexivity. }
  destruct (ptr_eqb (Block.next rb) NULL) eqn:E.
  - apply ptr_eqb_eq in E. rewrite E. apply Hboth.
  - apply Hboth.
Qed.

(** One turn of the backward loop at a free header linked to the current
    block, when the current block is not the tail. *)
Lemma coalesce_left_loop_merge fuel a t bt c1 s :
  mem s !! t = Some bt -> Block.next bt = Arena a -> Block.free bt = true ->
  t <> a -> mem s !! a = Some c1 -> Block.next c1 <> NULL ->
  num_coalesces s < INT_MAX ->
  coalesce_left_loop (S fuel) (Arena a) (Arena t) s
  = coalesce_left_loop fuel (Arena a) (Block.next c1)
      (set_mem
         (<[t := Block.mk (to_size_t (Block.size bt + Block.size c1))
                   (Block.next c1) true (Block.dirty bt)]> (mem s))
         (set_num_coalesces (num_coalesces s + 1) s)).
Proof.
  intros Ht Hn Hf Hne Ha Hnn Hlt. cbn [coalesce_left_loop ptr_eqb].
  unfold bind at 1. unfold load at 1. rewrite Ht. cbv beta iota.
  rewrite Hn, Hf.
  cbn [ptr_eqb]. rewrite Z.eqb_refl. cbn [andb].
  unfold bind at 1. unfold when at 1.
  unfold bind at 1. unfold incr at 1, int_succ.
  destruct (Z.ltb_spec (num_coalesces s) INT_MAX) as [_|]; [|lia].
  unfold bind at 1. unfold load at 1. simpl_state. rewrite Ha.
  unfold bind at 1. unfold update at 1, bind at 1, load at 1.
  simpl_state. rewrite Ht. unfold modify at 1. simpl_state.
  unfold bind at 1. unfold load at 1. simpl_state.
  rewrite lookup_insert_ne by done. rewrite Ha.
  apply ptr_eqb_neq in Hnn. rewrite Hnn.
  unfold update at 1, bind at 1, load at 1. simpl_state.
  rewrite lookup_insert_eq. unfold modify at 1. simpl_state.
  rewrite insert_insert_eq.
  unfold bind at 1. unfold load at 1. simpl_state.
  rewrite lookup_insert_eq. cbn [Block.next Block.set_next Block.set_size].
  unfold Block.set_next, Block.set_size.
  cbn [Block.size Block.next Block.free Block.dirty].
  rewrite Hf. reflexivity.
Qed.

(** What the chain says about a header on it. *)
Lemma chain_at m p l1 a c rest :
  chain m p (l1 ++ (a, c) :: rest) ->
  m !! a = Some c /\ chain m (Block.next c) rest /\
  (a ∉ l1.*1) /\ (a ∉ rest.*1).
Proof.
  intros Hc. pose proof (chain_NoDup _ _ _ Hc) as Hnd.
  destruct (chain_suffix _ _ _ _ Hc) as [q Hq].
  inversion Hq; subst. split; [done|]. split; [done|].
  rewrite fmap_app in Hnd. apply NoDup_app in Hnd as (_ & Hdis & Hnd).
  cbn in Hnd. apply NoDup_cons in Hnd as [Ha _]. split; [|done].
  intros Hin. apply (Hdis _ Hin). left.
Qed.

(** In a chain that holds [a] after [l1], only the last header of [l1] can
    be a free header linked to [a]. *)
Lemma skip_all m p l1 a c rest :
  chain m p (l1 ++ (a, c) :: rest) ->
  (forall x, last l1 = Some x -> Block.free x.2 = false) ->
  forall x, x ∈ l1 ++ (a, c) :: rest ->
    ptr_eqb (Block.next x.2) (Arena a) && Block.free x.2 = false.
Proof.
  intros Hc Hpred [y b] Hx. cbn.
  destruct (ptr_eqb (Block.next b) (Arena a)) eqn:E; [|done].
  apply ptr_eqb_eq in E.
  pose proof (Hpred _ (chain_pred_unique _ _ _ _ _ _ _ _ Hc Hx E)) as Hb.
  cbn in Hb. by rewrite Hb.
Qed.

Lemma free_only_marks s l1 a c rest :
  chain (mem s) (FreeList s) (l1 ++ (a, c) :: rest) ->
  Block.free c = false ->
  (forall x, last l1 = Some x -> Block.free x.2 = false) ->
  (forall x, head rest = Some x -> Block.free x.2 = false) ->
  num_frees s < INT_MAX ->
  free (Arena (a + HDR)) s
  = Ok tt (set_num_frees (num_frees s + 1)
             (set_mem (<[a := Block.set_free true c]> (mem s)) s)).
Proof.
  intros Hc Hbusy Hpred Hsucc Hlt.
  destruct (chain_at _ _ _ _ _ _ Hc) as (Ha & Hrest & Hl1 & Hr).
  assert (Hc' : chain (<[a := Block.set_free true c]> (mem s)) (FreeList s)
                  (l1 ++ (a, Block.set_free true c) :: rest))
    by (by apply (chain_replace _ _ _ _ c)).
  rewrite (free_marks_first a c) by done.
  unfold bind at 1. rewrite (coalesce_right_skip a (Block.set_free true c)).
  - unfold bind, gets.
    apply (coalesce_left_loop_skip a
             (l1 ++ (a, Block.set_free true c) :: rest)); simpl_state.
    + done.
    + pose proof (chain_length _ _ _ Hc'). unfold fuel_of. simpl_state. lia.
    + by apply (skip_all _ _ _ _ _ _ Hc').
  - simpl_state. apply lookup_insert_eq.
  - simpl_state. cbn [Block.next Block.set_free].
    inversion Hrest as [Hn|r rb l3 Hr' Hl3 Hn]; subst; [by left|right].
    exists r, rb. split; [done|].
    split; [|by apply (Hsucc (r, rb))].
    rewrite lookup_insert_ne; [done|]. intros <-. apply Hr. left.
Qed.


(** X20: a block between busy neighbours.  On a heap whose chain from the
    head ends, [free] of a busy block of the chain whose predecessor and
    successor on the chain are busy or missing returns, and all it does is
    to set the free flag of the block and to count one free: no size, no
    link and no other counter changes. *)
Theorem free_between_busy_blocks s l1 a c rest :
  chain (mem s) (FreeList s) (l1 ++ (a, c) :: rest) ->
  Block.free c = false ->
  (forall x, last l1 = Some x -> Block.free x.2 = false) ->
  (forall x, head rest = Some x -> Block.free x.2 = false) ->
  num_frees s < INT_MAX ->
  free (Arena (a + HDR)) s
  = Ok tt (set_num_frees (num_frees s + 1)
             (set_mem (<[a := Block.set_free true c]> (mem s)) s)).
Proof. apply free_only_marks. Qed.

Lemma free_between_busy_blocks_witness :
  free (Arena (4096 + HDR)) two_busy
  = Ok tt (set_num_frees (num_frees two_busy + 1)
             (set_mem
                (<[4096 := Block.set_free true
                             (Block.mk 4 (Arena 4124) false true)]>
                   (mem two_busy)) two_busy)).
Proof.
  apply (free_between_busy_blocks two_busy [] 4096
           (Block.mk 4 (Arena 4124) false true)
           [(4124, Block.mk 4 NULL false true)]).
  - repeat (constructor; [reflexivity|]). constructor.
  - reflexivity.
  - intros x Hx. discriminate Hx.
  - intros x Hx. cbn in Hx. injection Hx as <-. reflexivity.
  - reflexivity.
Defined.

(** X21: forward coalescing.  On a heap whose chain from the head ends,
    [free] of a busy block whose successor on the chain is free, and whose
    predecessor is busy or missing, returns; the block is then free, its
    size is the sum of the two sizes (modulo [2^64], without the header
    between them), it is linked to what the successor was linked to, so the
    successor is no longer on the chain, and one coalesce is counted. *)
Theorem free_absorbs_free_successor s l1 a c r rb l3 :
  chain (mem s) (FreeList s) (l1 ++ (a, c) :: (r, rb) :: l3) ->
  Block.free c = false -> Block.free rb = true ->
  (forall x, last l1 = Some x -> Block.free x.2 = false) ->
  num_frees s < INT_MAX -> num_coalesces s < INT_MAX ->
  exists s',
    free (Arena (a + HDR)) s = Ok tt s' /\
    s' = set_mem
           (<[a := Block.mk (to_size_t (Block.size c + Block.size rb))
                     (Block.next rb) true (Block.dirty c)]> (mem s))
           (set_num_coalesces (num_coalesces s + 1)
              (set_num_frees (num_frees s + 1) s)) /\
    chain (mem s') (FreeList s')
      (l1 ++ (a, Block.mk (to_size_t (Block.size c + Block.size rb))
                   (Block.next rb) true (Block.dirty c)) :: l3).
Proof.
  intros Hc Hbusy Hfree Hpred Hlt Hlt'.
  destruct (chain_at _ _ _ _ _ _ Hc) as (Ha & Hrest & Hl1 & Hr).
  inversion Hrest as [|? ? ? Hrb Hl3 Hn]; subst.
  assert (Hne : r <> a) by (intros ->; apply Hr; left).
  set (c1 := Block.mk (to_size_t (Block.size c + Block.size rb))
               (Block.next rb) true (Block.dirty c)).
  assert (Hc' : chain (<[a := c1]> (mem s)) (FreeList s)
                  (l1 ++ (a, c1) :: l3)).
  { apply (chain_redirect _ _ _ _ c _ ((r, rb) :: l3)); [done|done|].
    intros Hin. apply Hr. by right. }
  eexists. split; [|split; [reflexivity|exact Hc']].
  rewrite (free_marks_first a c) by done.
  unfold bind at 1.
  rewrite (coalesce_right_merge a (Block.set_free true c) r rb);
    simpl_state; [|apply lookup_insert_eq|by symmetry|done
                  |by rewrite lookup_insert_ne|done|done].
  rewrite insert_insert_eq. cbn [Block.size Block.free Block.dirty
                                 Block.set_free]. fold c1.
  unfold bind, gets.
  apply (coalesce_left_loop_skip a (l1 ++ (a, c1) :: l3)); simpl_state.
  - done.
  - pose proof (chain_length _ _ _ Hc'). unfold fuel_of. simpl_state. lia.
  - by apply (skip_all _ _ _ _ _ _ Hc').
Qed.

Lemma free_absorbs_free_successor_witness :
  exists s',
    free (Arena (4096 + HDR)) free_behind_busy = Ok tt s' /\
    s' = set_mem
           (<[4096 := Block.mk
                        (to_size_t
                           (Block.size (Block.mk 4 (Arena 4124) false true)
                            + Block.size (Block.mk 4 NULL true true)))
                        (Block.next (Block.mk 4 NULL true true)) true
                        (Block.dirty (Block.mk 4 (Arena 4124) false true))]>
              (mem free_behind_busy))
           (set_num_coalesces (num_coalesces free_behind_busy + 1)
              (set_num_frees (num_frees free_behind_busy + 1)
                 free_behind_busy)) /\
    chain (mem s') (FreeList s')
      ([] ++ (4096, Block.mk
                      (to_size_t
                         (Block.size (Block.mk 4 (Arena 4124) false true)
                          + Block.size (Block.mk 4 NULL true true)))
                      (Block.next (Block.mk 4 NULL true true)) true
                      (Block.dirty (Block.mk 4 (Arena 4124) false true)))
          :: []).
Proof.
  apply (free_absorbs_free_successor free_behind_busy [] 4096
           (Block.mk 4 (Arena 4124) false true) 4124
           (Block.mk 4 NULL true true) []).
  - repeat (constructor; [reflexivity|]). constructor.
  - reflexivity.
  - reflexivity.
  - intros x Hx. discriminate Hx.
  - reflexivity.
  - reflexivity.
Defined.

(** X22: backward coalescing of a block that is not the tail.  On a heap
    whose chain from the head ends, [free] of a busy block whose
    predecessor on the chain is free, and whose successor exists and is
    busy, returns; the predecessor's size is then the sum of the two sizes
    (modulo [2^64]) and the predecessor is linked to the successor, so the
    freed block, whose header is only marked free, is no longer on the
    chain; one coalesce is counted. *)
Theorem free_merges_into_free_predecessor s l0 t bt a c n nb l3 :
  chain (mem s) (FreeList s) (l0 ++ (t, bt) :: (a, c) :: (n, nb) :: l3) ->
  Block.free bt = true -> Block.free c = false -> Block.free nb = false ->
  num_frees s < INT_MAX -> num_coalesces s < INT_MAX ->
  exists s',
    free (Arena (a + HDR)) s = Ok tt s' /\
    s' = set_mem
           (<[t := Block.mk (to_size_t (Block.size bt + Block.size c))
                     (Arena n) true (Block.dirty bt)]>
              (<[a := Block.set_free true c]> (mem s)))
           (set_num_coalesces (num_coalesces s + 1)
              (set_num_frees (num_frees s + 1) s)) /\
    chain (mem s') (FreeList s')
      (l0 ++ (t, Block.mk (to_size_t (Block.size bt + Block.size c))
                   (Arena n) true (Block.dirty bt)) :: (n, nb) :: l3).
Proof.
  intros Hc Hbt Hbusy Hnb Hlt Hlt'.
  assert (Hc2 : chain (mem s) (FreeList s)
                  ((l0 ++ [(t, bt)]) ++ (a, c) :: (n, nb) :: l3))
    by (by rewrite <- app_assoc).
  destruct (chain_at _ _ _ _ _ _ Hc2) as (Ha & Hrest & Hl1 & Hr).
  destruct (chain_at _ _ _ _ _ _ Hc) as (Ht & Hrest_t & Hl0 & Hrt).
  inversion Hrest as [|? ? ? Hn_l Hl3 Hn]; subst. symmetry in Hn.
  inversion Hrest_t as [|? ? ? _ _ Hnext_t]; subst. symmetry in Hnext_t.
  assert (Hta : t <> a).
  { intros ->. apply Hl1. rewrite fmap_app. apply elem_of_app. right. left. }
  assert (Hna : n <> a) by (intros ->; apply Hr; left).
  assert (Hnt : n <> t) by (intros ->; apply Hrt; right; left).
  set (c' := Block.set_free true c).
  set (bt' := Block.mk (to_size_t (Block.size bt + Block.size c))
                (Arena n) true (Block.dirty bt)).
  (* the chain after the block has been marked *)
  assert (Hc' : chain (<[a := c']> (mem s)) (FreeList s)
                  ((l0 ++ [(t, bt)]) ++ (a, c') :: (n, nb) :: l3))
    by (by apply (chain_replace _ _ _ _ c)).
  pose proof Hc' as Hc'1. rewrite <- app_assoc in Hc'1. cbn [app] in Hc'1.
  (* the chain after the predecessor has absorbed it *)
  destruct (chain_at _ _ _ _ _ _ Hc') as (_ & Hrest' & _ & _).
  assert (Hc'' : chain (<[t := bt']> (<[a := c']> (mem s))) (FreeList s)
                   (l0 ++ (t, bt') :: (n, nb) :: l3)).
  { apply (chain_redirect _ _ _ _ bt _ ((a, c') :: (n, nb) :: l3)).
    - done.
    - cbn [bt' Block.next]. rewrite <- Hn. exact Hrest'.
    - intros Hin. apply Hrt. by right. }
  eexists. split; [|split; [reflexivity|exact Hc'']].
  rewrite (free_marks_first a c) by done.
  unfold bind at 1. rewrite (coalesce_right_skip a c').
  2: { simpl_state. apply lookup_insert_eq. }
  2: { right. exists n, nb. simpl_state. split; [done|].
       split; [by rewrite lookup_insert_ne|done]. }
  unfold bind, gets. simpl_state. fold c'.
  pose proof (chain_length _ _ _ Hc'1) as Hlen.
  rewrite length_app in Hlen. cbn [length] in Hlen.
  destruct (coalesce_left_loop_prefix a l0
              ((t, bt) :: (a, c') :: (n, nb) :: l3)
              (fuel_of (set_num_frees (num_frees s + 1)
                          (set_mem (<[a := c']> (mem s)) s)))
              (FreeList s)
              (set_num_frees (num_frees s + 1)
                 (set_mem (<[a := c']> (mem s)) s)))
    as (q & Hq & ->); simpl_state.
  - done.
  - unfold fuel_of. simpl_state. lia.
  - intros [y b] Hy. cbn.
    destruct (ptr_eqb (Block.next b) (Arena a)) eqn:E; [|done].
    apply ptr_eqb_eq in E. exfalso.
    assert (Hin : (y, b) ∈ (l0 ++ [(t, bt)]) ++ (a, c') :: (n, nb) :: l3).
    { rewrite <- app_assoc. apply elem_of_app. by left. }
    pose proof (chain_pred_unique _ _ _ _ _ _ _ _ Hc' Hin E) as Hlast.
    rewrite last_snoc in Hlast. injection Hlast as <- <-.
    apply Hl0. apply list_elem_of_fmap. by exists (t, bt).
  - pose proof (chain_head _ _ _ _ _ Hq) as ->.
    unfold fuel_of. simpl_state.
    replace (S (size (<[a := c']> (mem s))) - length l0)%nat
      with (S (size (<[a := c']> (mem s)) - length l0)) by lia.
    inversion Hq as [|? ? ? Ht' _]; subst. simpl_state.
    rewrite (coalesce_left_loop_merge _ a t bt c'); simpl_state;
      [|done|done|done|done|apply lookup_insert_eq
       |cbn; by rewrite Hn|done].
    cbn [Block.next Block.size c' Block.set_free]. rewrite Hn. fold bt'.
    apply (coalesce_left_loop_skip a ((n, nb) :: l3)); simpl_state.
    + apply chain_insert_other.
      * rewrite <- Hn. exact Hrest'.
      * intros Hin. apply Hrt. by right.
    + cbn [length]. lia.
    + intros [y b] Hy. cbn.
      destruct (ptr_eqb (Block.next b) (Arena a)) eqn:E; [|done].
      apply ptr_eqb_eq in E. exfalso.
      assert (Hin : (y, b) ∈ (l0 ++ [(t, bt)]) ++ (a, c') :: (n, nb) :: l3).
      { apply elem_of_app. right. by right. }
      pose proof (chain_pred_unique _ _ _ _ _ _ _ _ Hc' Hin E) as Hlast.
      rewrite last_snoc in Hlast. injection Hlast as <- <-.
      apply (list_elem_of_fmap_2 fst) in Hy. apply Hrt. by right.
Qed.

Lemma free_merges_into_free_predecessor_witness :
  exists s',
    free (Arena (4124 + HDR)) free_before_two_busy = Ok tt s' /\
    s' = set_mem
           (<[4096 := Block.mk
                        (to_size_t
                           (Block.size (Block.mk 4 (Arena 4124) true true)
                            + Block.size
                                (Block.mk 4 (Arena 4152) false true)))
                        (Arena 4152) true
                        (Block.dirty (Block.mk 4 (Arena 4124) true true))]>
              (<[4124 := Block.set_free true
                           (Block.mk 4 (Arena 4152) false true)]>
                 (mem free_before_two_busy)))
           (set_num_coalesces (num_coalesces free_before_two_busy + 1)
              (set_num_frees (num_frees free_before_two_busy + 1)
                 free_before_two_busy)) /\
    chain (mem s') (FreeList s')
      ([] ++ (4096, Block.mk
                      (to_size_t
                         (Block.size (Block.mk 4 (Arena 4124) true true)
                          + Block.size
                              (Block.mk 4 (Arena 4152) false true)))
                      (Arena 4152) true
                      (Block.dirty (Block.mk 4 (Arena 4124) true true)))
          :: (4152, Block.mk 4 NULL false true) :: []).
Proof.
  apply (free_merges_into_free_predecessor free_before_two_busy [] 4096
           (Block.mk 4 (Arena 4124) true true) 4124
           (Block.mk 4 (Arena 4152) false true) 4152
           (Block.mk 4 NULL false true) []).
  - repeat (constructor; [reflexivity|]). constructor.
  - reflexivity.
  - reflexivity.
  - reflexivity.
  - reflexivity.
  - reflexivity.
Defined.

(** X23: round trip.  On a heap whose chain from the head ends, let a busy
    block of the chain have busy or missing neighbours, let it be large
    enough for a request, and let no header before it on the chain be free
    and large enough.  Then [free] of the block followed by a first-fit
    [malloc] of that request both return, and [malloc] returns the pointer
    that was freed: the break has not moved, and the header is busy and
    used again, with exactly the aligned size. *)
Theorem free_then_malloc_returns_block sz s l1 a c rest :
  chain (mem s) (FreeList s) (l1 ++ (a, c) :: rest) ->
  Z.of_nat (size (mem s)) <= INT_MAX ->
  Block.free c = false ->
  (forall x, last l1 = Some x -> Block.free x.2 = false) ->
  (forall x, head rest = Some x -> Block.free x.2 = false) ->
  (forall x, x ∈ l1 -> fits (ALIGN4 sz) x.2 = false) ->
  ALIGN4 sz <> 0 -> ALIGN4 sz <= Block.size c ->
  num_frees s < INT_MAX -> num_splits s < INT_MAX ->
  num_reuses s < INT_MAX -> num_mallocs s < INT_MAX ->
  exists s1 s2,
    free (Arena (a + HDR)) s = Ok tt s1 /\
    malloc FIT sz s1 = Ok (Arena (a + HDR)) s2 /\
    brk s2 = brk s /\ FreeList s2 = FreeList s /\
    mem s2 =
      <[a := Block.mk (ALIGN4 sz)
               (if ALIGN4 sz <? Block.size c then StackTemp
                else Block.next c) false true]> (mem s).
Proof.
  intros Hc Hsz Hbusy Hpred Hsucc Hall Hnz Hle Hfr Hsp Hre Hm.
  destruct (chain_at _ _ _ _ _ _ Hc) as (Ha & _).
  assert (Hc' : chain (<[a := Block.set_free true c]> (mem s)) (FreeList s)
                  (l1 ++ (a, Block.set_free true c) :: rest))
    by (by apply (chain_replace _ _ _ _ c)).
  assert (Hhit :
    twp (malloc FIT sz)
        (fun p s2 =>
           p = Arena (a + HDR) /\
           brk s2 = brk s /\ FreeList s2 = FreeList s /\
           mem s2 =
             <[a := Block.mk (ALIGN4 sz)
                      (if ALIGN4 sz <? Block.size c then StackTemp
                       else Block.next c) false true]> (mem s))
        (set_num_frees (num_frees s + 1)
           (set_mem (<[a := Block.set_free true c]> (mem s)) s))).
  { eapply twp_mono.
    - apply (malloc_first_fit_hit sz _ l1 a (Block.set_free true c) rest);
        simpl_state; try done.
      + by rewrite map_size_insert_Some.
      + unfold fits. cbn. by apply Z.leb_le.
    - intros p s2 (-> & Hmem & Hbrk & Hfl & _). simpl_state.
      split; [done|]. split; [done|]. split; [done|].
      rewrite Hmem. by rewrite insert_insert_eq. }
  destruct (twp_Ok _ _ _ Hhit) as (p & s2 & Hrun & -> & Hbrk & Hfl & Hmem).
  eexists _, s2. split; [by apply (free_only_marks s l1 a c rest)|].
  by split.
Qed.

Lemma free_then_malloc_returns_block_witness :
  exists s1 s2,
    free (Arena (4096 + HDR)) two_busy = Ok tt s1 /\
    malloc FIT 3 s1 = Ok (Arena (4096 + HDR)) s2 /\
    brk s2 = brk two_busy /\ FreeList s2 = FreeList two_busy /\
    mem s2 =
      <[4096 := Block.mk (ALIGN4 3)
                  (if ALIGN4 3 <? Block.size (Block.mk 4 (Arena 4124) false true)
                   then StackTemp
                   else Block.next (Block.mk 4 (Arena 4124) false true))
                  false true]> (mem two_busy).
Proof.
  apply (free_then_malloc_returns_block 3 two_busy [] 4096
           (Block.mk 4 (Arena 4124) false true)
           [(4124, Block.mk 4 NULL false true)]).
  - repeat (constructor; [reflexivity|]). constructor.
  - vm_compute. discriminate.
  - reflexivity.
  - intros x Hx. discriminate Hx.
  - intros x Hx. cbn in Hx. injection Hx as <-. reflexivity.
  - intros x Hx. inversion Hx.
  - vm_compute. discriminate.
  - vm_compute. discriminate.
  - reflexivity.
  - reflexivity.
  - reflexivity.
  - reflexivity.
Defined.

(** One turn of the backward loop at a free header linked to the current
    block, when the current block is the tail: the sizes are added and the
    link is left as it is. *)
Lemma coalesce_left_loop_merge_tail fuel a t bt c1 s :
  mem s !! t = Some bt -> Block.next bt = Arena a -> Block.free bt = true ->
  t <> a -> mem s !! a = Some c1 -> Block.next c1 = NULL ->
  num_coalesces s < INT_MAX ->
  coalesce_left_loop (S fuel) (Arena a) (Arena t) s
  = coalesce_left_loop fuel (Arena a) (Arena a)
      (set_mem
         (<[t := Block.set_size (to_size_t (Block.size bt + Block.size c1))
                   bt]> (mem s))
         (set_num_coalesces (num_coalesces s + 1) s)).
Proof.
  intros Ht Hn Hf Hne Ha Hnn Hlt. cbn [coalesce_left_loop ptr_eqb].
  unfold bind at 1. unfold load at 1. rewrite Ht. cbv beta iota.
  rewrite Hn, Hf.
  cbn [ptr_eqb]. rewrite Z.eqb_refl. cbn [andb].
  unfold bind at 1. unfold when at 1.
  unfold bind at 1. unfold incr at 1, int_succ.
  destruct (Z.ltb_spec (num_coalesces s) INT_MAX) as [_|]; [|lia].
  unfold bind at 1. unfold load at 1. simpl_state. rewrite Ha.
  unfold bind at 1. unfold update at 1, bind at 1, load at 1.
  simpl_state. rewrite Ht. unfold modify at 1. simpl_state.
  unfold bind at 1. unfold load at 1. simpl_state.
  rewrite lookup_insert_ne by done. rewrite Ha, Hnn.
  cbn [ptr_eqb]. unfold ret at 1.
  unfold bind at 1. unfold load at 1. simpl_state.
  rewrite lookup_insert_eq. cbn [Block.next Block.set_size].
  rewrite Hn. reflexivity.
Qed.

(** On a chain that ends, the backward loop returns. *)
Lemma coalesce_left_loop_returns s p l1 a c1 rest :
  chain (mem s) p (l1 ++ (a, c1) :: rest) ->
  num_coalesces s < INT_MAX ->
  exists s', coalesce_left_loop (fuel_of s) (Arena a) p s = Ok tt s'.
Proof.
  intros Hc Hlt.
  pose proof (chain_length _ _ _ Hc) as Hlen.
  rewrite length_app in Hlen. cbn [length] in Hlen.
  destruct (chain_at _ _ _ _ _ _ Hc) as (Ha & Hrest & Hl1 & Hr).
  destruct (last l1) as [[t bt]|] eqn:Hlast.
  2: { exists s. apply (coalesce_left_loop_skip a (l1 ++ (a, c1) :: rest)).
       - done.
       - rewrite length_app. cbn [length]. unfold fuel_of. lia.
       - apply (skip_all _ _ _ _ _ _ Hc). intros x Hx. congruence. }
  destruct (Block.free bt) eqn:Hbt.
  2: { exists s. apply (coalesce_left_loop_skip a (l1 ++ (a, c1) :: rest)).
       - done.
       - rewrite length_app. cbn [length]. unfold fuel_of. lia.
       - apply (skip_all _ _ _ _ _ _ Hc). intros x Hx. by simplify_eq. }
  assert (exists l0, l1 = l0 ++ [(t, bt)]) as [l0 ->].
  { destruct l1 as [|x l1] using rev_ind; [done|].
    rewrite last_snoc in Hlast. simplify_eq. by exists l1. }
  rewrite length_app in Hlen. cbn [length] in Hlen.
  assert (Hc1 : chain (mem s) p (l0 ++ (t, bt) :: (a, c1) :: rest))
    by (by rewrite <- app_assoc in Hc).
  destruct (chain_at _ _ _ _ _ _ Hc1) as (Ht & Hrest_t & Hl0 & Hrt).
  inversion Hrest_t as [|? ? ? _ _ Hnext_t]; subst. symmetry in Hnext_t.
  assert (Hta : t <> a) by (intros ->; apply Hrt; left).
  destruct (coalesce_left_loop_prefix a l0 ((t, bt) :: (a, c1) :: rest)
              (fuel_of s) p s) as (q & Hq & ->).
  - done.
  - unfold fuel_of. lia.
  - intros [y b] Hy. cbn.
    destruct (ptr_eqb (Block.next b) (Arena a)) eqn:E; [|done].
    apply ptr_eqb_eq in E. exfalso.
    assert (Hin : (y, b) ∈ (l0 ++ [(t, bt)]) ++ (a, c1) :: rest).
    { rewrite <- app_assoc. apply elem_of_app. by left. }
    pose proof (chain_pred_unique _ _ _ _ _ _ _ _ Hc Hin E) as Hl.
    rewrite last_snoc in Hl. injection Hl as <- <-.
    apply Hl0. by apply (list_elem_of_fmap_2 fst) in Hy.
  - pose proof (chain_head _ _ _ _ _ Hq) as ->.
    unfold fuel_of.
    replace (S (size (mem s)) - length l0)%nat
      with (S (size (mem s) - length l0)) by lia.
    destruct (ptr_eqb (Block.next c1) NULL) eqn:Htail.
    + apply ptr_eqb_eq in Htail.
      rewrite (coalesce_left_loop_merge_tail _ a t bt c1) by done.
      eexists.
      apply (coalesce_left_loop_skip a [(a, c1)]); simpl_state.
      * constructor; [by rewrite lookup_insert_ne|].
        rewrite Htail. constructor.
      * cbn [length]. lia.
      * intros x Hx. apply list_elem_of_singleton in Hx as ->. cbn.
        by rewrite Htail.
    + apply ptr_eqb_neq in Htail.
      rewrite (coalesce_left_loop_merge _ a t bt c1) by done.
      eexists.
      apply (coalesce_left_loop_skip a rest); simpl_state.
      * apply chain_insert_other; [done|].
        intros Hin. apply Hrt. by right.
      * lia.
      * intros [y b] Hy. cbn.
        destruct (ptr_eqb (Block.next b) (Arena a)) eqn:E; [|done].
        apply ptr_eqb_eq in E. exfalso.
        assert (Hin : (y, b) ∈ (l0 ++ [(t, bt)]) ++ (a, c1) :: rest).
        { apply elem_of_app. right. by right. }
        pose proof (chain_pred_unique _ _ _ _ _ _ _ _ Hc Hin E) as Hl.
        rewrite last_snoc in Hl. injection Hl as <- <-.
        apply (list_elem_of_fmap_2 fst) in Hy. apply Hrt. by right.
Qed.

(** X24: [free] returns.  On a heap whose chain from the head ends, [free]
    of a busy block of the chain returns whenever the two counters it
    increments have room: it hits no assertion, reads no header that is not
    there, and its loop ends, whatever the neighbours of the block are. *)
Theorem free_returns_on_chain s l1 a c rest :
  chain (mem s) (FreeList s) (l1 ++ (a, c) :: rest) ->
  Block.free c = false ->
  num_frees s < INT_MAX -> num_coalesces s + 1 < INT_MAX ->
  exists s', free (Arena (a + HDR)) s = Ok tt s'.
Proof.
  intros Hc Hbusy Hlt Hlt'.
  destruct (chain_at _ _ _ _ _ _ Hc) as (Ha & Hrest & Hl1 & Hr).
  set (c' := Block.set_free true c).
  set (s1 := set_num_frees (num_frees s + 1)
               (set_mem (<[a := c']> (mem s)) s)).
  assert (Hc' : chain (mem s1) (FreeList s) (l1 ++ (a, c') :: rest))
    by (by apply (chain_replace _ _ _ _ c)).
  rewrite (free_marks_first a c) by done. fold c' s1.
  assert (Hright : exists s2 c1 rest2,
            coalesce_right (Arena a) s1 = Ok tt s2 /\
            FreeList s2 = FreeList s /\
            num_coalesces s2 < INT_MAX /\
            chain (mem s2) (FreeList s) (l1 ++ (a, c1) :: rest2)).
  { inversion Hrest as [Hn|r rb l3 Hrb Hl3 Hn]; subst.
    - exists s1, c', [].
      split; [|split; [done|split; [subst s1; simpl_state; lia|done]]].
      apply (coalesce_right_skip a c'); [apply lookup_insert_eq|by left].
    - assert (Hne : r <> a) by (intros ->; apply Hr; left).
      destruct (Block.free rb) eqn:Hfree.
      + eexists _, _, l3. split.
        { apply (coalesce_right_merge a c' r rb); subst s1; simpl_state;
            [apply lookup_insert_eq|by symmetry|done
            |by rewrite lookup_insert_ne|done|lia]. }
        subst s1. simpl_state. split; [done|]. split; [lia|].
        rewrite insert_insert_eq.
        apply (chain_redirect _ _ _ _ c _ ((r, rb) :: l3)); [done|done|].
        intros Hin. apply Hr. by right.
      + exists s1, c', ((r, rb) :: l3). split; [|split; [done|]].
        * apply (coalesce_right_skip a c'); [apply lookup_insert_eq|].
          right. exists r, rb. subst s1. simpl_state.
          split; [by symmetry|]. by rewrite lookup_insert_ne.
        * split; [subst s1; simpl_state; lia|done]. }
  destruct Hright as (s2 & c1 & rest2 & Hr2 & Hfl & Hlt2 & Hc2).
  unfold bind at 1. rewrite Hr2. unfold bind, gets.
  by apply (coalesce_left_loop_returns s2 _ l1 a c1 rest2).
Qed.

Lemma free_returns_on_chain_witness :
  exists s', free (Arena (4124 + HDR)) tail_behind_free = Ok tt s'.
Proof.
  apply (free_returns_on_chain tail_behind_free
           [(4096, Block.mk 4 (Arena 4124) true true)] 4124
           (Block.mk 4 NULL false true) []).
  - repeat (constructor; [reflexivity|]). constructor.
  - reflexivity.
  - reflexivity.
  - reflexivity.
Defined.
